(** * Tryton: account defaults of products, the dictionary widget, test tools

    A shallow embedding of
    - [product.py]: the function fields [account_*_used] and [*_taxes_used]
      of product templates and the migration hooks of the two category-tax
      relation tables;
    - [tryton/gui/window/view_form/view/form_gtk/dictionary.py]: the entries
      of the dictionary widget and [DictWidget] itself;
    - [trytond/tests/tools.py]: [activate_modules].

    Python dictionaries are [gmap]s, exceptions are values of [exn], and code
    that mutates [self] is written in a state-and-exception monad whose state
    survives a raised exception, as the attributes of a Python object do. *)

From stdpp Require Import gmap strings list fin_maps sorting.
From Stdlib Require Import String.

Open Scope string_scope.
Open Scope list_scope.
Open Scope Z_scope.

(** ** Exceptions *)

Inductive exn : Type :=
| KeyError (key : string)
| ValueError
| InvalidOperation
| TypeError
| AttributeError
| AssertionError
| UserError (message : string) (args : string * Z).

(** The outcome of a call that either returns or raises. *)
Inductive result (A : Type) : Type :=
| Ok (a : A)
| Raise (e : exn).
Arguments Ok {A} a.
Arguments Raise {A} e.

Definition is_ok {A} (r : result A) : bool :=
  match r with Ok _ => true | Raise _ => false end.

(** [s[:-5]] *)
Definition strip5 (s : string) : string :=
  String.substring 0 (String.length s - 5) s.

(** * product.py *)
Module Product.

(** A [Many2One] to [account.account] is the id of the account, or nothing;
    it is truthy exactly when it is set. *)
Record Category : Type := {
  cat_account_expense : option Z;
  cat_account_revenue : option Z;
  cat_customer_taxes : list Z;
  cat_supplier_taxes : list Z;
}.

Record Template : Type := {
  id : Z;
  name : string;
  category : Category;
  account_category : bool;
  account_expense : option Z;
  account_revenue : option Z;
  taxes_category : bool;
  customer_taxes : list Z;
  supplier_taxes : list Z;
}.

Inductive account_kind : Type := Expense | Revenue.
Inductive tax_kind : Type := Customer | Supplier.

(** The names of the function fields, as declared on [Template]. *)
Definition account_used_name (k : account_kind) : string :=
  match k with
  | Expense => "account_expense_used"
  | Revenue => "account_revenue_used"
  end.

Definition taxes_used_name (k : tax_kind) : string :=
  match k with
  | Customer => "customer_taxes_used"
  | Supplier => "supplier_taxes_used"
  end.

(** [product[name]] and [product.category[name]] for an account field. *)
Definition template_account (product : Template) (name : string) : result (option Z) :=
  if decide (name = "account_expense") then Ok (account_expense product)
  else if decide (name = "account_revenue") then Ok (account_revenue product)
  else Raise (KeyError name).

Definition category_account (c : Category) (name : string) : result (option Z) :=
  if decide (name = "account_expense") then Ok (cat_account_expense c)
  else if decide (name = "account_revenue") then Ok (cat_account_revenue c)
  else Raise (KeyError name).

(** [product[name]] and [product.category[name]] for a tax field. *)
Definition template_taxes (product : Template) (name : string) : result (list Z) :=
  if decide (name = "customer_taxes") then Ok (customer_taxes product)
  else if decide (name = "supplier_taxes") then Ok (supplier_taxes product)
  else Raise (KeyError name).

Definition category_taxes (c : Category) (name : string) : result (list Z) :=
  if decide (name = "customer_taxes") then Ok (cat_customer_taxes c)
  else if decide (name = "supplier_taxes") then Ok (cat_supplier_taxes c)
  else Raise (KeyError name).

(** [Template.__init__]: the messages the model adds to [_error_messages]. *)
Definition _error_messages : list (string * string) :=
  [("missing_account",
    "There is no account expense/revenue defined on the product %s (%d)")].

(** [raise_user_error]: the message is looked up by its key. *)
Definition raise_user_error {A} (key : string) (args : string * Z) : result A :=
  match (list_to_map _error_messages : gmap string string) !! key with
  | Some message => Raise (UserError message args)
  | None => Raise (KeyError key)
  end.

(** The body of the loop of [get_account], for one browsed product. *)
Definition get_account_step (field : string) (product : Template)
    (res : gmap Z Z) : result (gmap Z Z) :=
  match template_account product field with
  | Raise e => Raise e
  | Ok (Some account) => Ok (<[id product := account]> res)
  | Ok None =>
      match category_account (category product) field with
      | Raise e => Raise e
      | Ok (Some account) => Ok (<[id product := account]> res)
      | Ok None => raise_user_error "missing_account" (name product, id product)
      end
  end.

Fixpoint get_account_loop (name : string) (products : list Template)
    (res : gmap Z Z) : result (gmap Z Z) :=
  match products with
  | [] => Ok res
  | product :: rest =>
      match get_account_step name product res with
      | Ok res' => get_account_loop name rest res'
      | Raise e => Raise e
      end
  end.

(** [Template.get_account]; [products] is [self.browse(ids)]. *)
Definition get_account (products : list Template) (name : string) : result (gmap Z Z) :=
  let name := strip5 name in
  get_account_loop name products ∅.

Definition get_taxes_step (name : string) (product : Template)
    (res : gmap Z (list Z)) : result (gmap Z (list Z)) :=
  if taxes_category product then
    match category_taxes (category product) name with
    | Ok taxes => Ok (<[id product := taxes]> res)
    | Raise e => Raise e
    end
  else
    match template_taxes product name with
    | Ok taxes => Ok (<[id product := taxes]> res)
    | Raise e => Raise e
    end.

Fixpoint get_taxes_loop (name : string) (products : list Template)
    (res : gmap Z (list Z)) : result (gmap Z (list Z)) :=
  match products with
  | [] => Ok res
  | product :: rest =>
      match get_taxes_step name product res with
      | Ok res' => get_taxes_loop name rest res'
      | Raise e => Raise e
      end
  end.

(** [Template.get_taxes] *)
Definition get_taxes (products : list Template) (name : string) : result (gmap Z (list Z)) :=
  let name := strip5 name in
  get_taxes_loop name products ∅.

(** The local and the category value of a template, by kind. *)
Definition local_account (k : account_kind) (p : Template) : option Z :=
  match k with Expense => account_expense p | Revenue => account_revenue p end.

Definition parent_account (k : account_kind) (p : Template) : option Z :=
  match k with
  | Expense => cat_account_expense (category p)
  | Revenue => cat_account_revenue (category p)
  end.

Definition local_taxes (k : tax_kind) (p : Template) : list Z :=
  match k with Customer => customer_taxes p | Supplier => supplier_taxes p end.

Definition parent_taxes (k : tax_kind) (p : Template) : list Z :=
  match k with
  | Customer => cat_customer_taxes (category p)
  | Supplier => cat_supplier_taxes (category p)
  end.

(** The rule of the specification for accounts: the category's account when
    the flag is set or there is no local account, the local one otherwise. *)
Definition spec_account (k : account_kind) (p : Template) : option Z :=
  if account_category p then parent_account k p
  else match local_account k p with
       | Some a => Some a
       | None => parent_account k p
       end.

(** The rule of the specification for taxes, in the same words. *)
Definition spec_taxes (k : tax_kind) (p : Template) : list Z :=
  if taxes_category p then parent_taxes k p
  else match local_taxes k p with
       | [] => parent_taxes k p
       | _ => local_taxes k p
       end.

(** What the loop of [get_account] resolves for one product. *)
Definition missing_account (k : account_kind) (p : Template) : bool :=
  match local_account k p, parent_account k p with
  | None, None => true
  | _, _ => false
  end.

Definition missing_account_error (p : Template) : exn :=
  UserError "There is no account expense/revenue defined on the product %s (%d)"
    (name p, id p).

(** Sample templates: one that has an expense account of its own and is
    flagged to use the accounts of its category, one without taxes of its own
    that is not flagged to use the taxes of its category, and one without
    any account. *)
Definition sample_category : Category :=
  {| cat_account_expense := Some 20; cat_account_revenue := Some 21;
     cat_customer_taxes := [7]; cat_supplier_taxes := [8] |}.

Definition flagged_template : Template :=
  {| id := 1; name := "Flagged"; category := sample_category;
     account_category := true;
     account_expense := Some 10; account_revenue := None;
     taxes_category := false; customer_taxes := []; supplier_taxes := [9] |}.

Definition bare_template : Template :=
  {| id := 2; name := "Bare";
     category := {| cat_account_expense := None; cat_account_revenue := None;
                    cat_customer_taxes := []; cat_supplier_taxes := [] |};
     account_category := false;
     account_expense := None; account_revenue := None;
     taxes_category := false; customer_taxes := []; supplier_taxes := [] |}.

(** ** The migration hooks of the category-tax relation tables *)

Inductive rel_model : Type := CategoryCustomerTax | CategorySupplierTax.

Definition _name (self : rel_model) : string :=
  match self with
  | CategoryCustomerTax => "product.category-customer-account.tax"
  | CategorySupplierTax => "product.category-supplier-account.tax"
  end.

Definition _table (self : rel_model) : string :=
  match self with
  | CategoryCustomerTax => "product_category_customer_taxes_rel"
  | CategorySupplierTax => "product_category_supplier_taxes_rel"
  end.

(** The calls a hook makes on the database, in the order it makes them. *)
Inductive ddl : Type :=
| IndexRemove (table column : string)
| DropFk (table column : string)
| ColumnRename (table old new : string)
| SuperInit (model module_name : string).

(** [trytond.backend.TableHandler] and [ModelSQL.init] are not part of these
    sources: a database is any type with their operations. *)
Class TableHandler (DB : Type) : Type := {
  column_exist : DB → string → string → bool;
  index_action_remove : string → string → DB → DB;
  drop_fk : string → string → DB → DB;
  column_rename : string → string → string → DB → DB;
  model_sql_init : string → string → DB → DB;
}.

(** What one call does to the database. *)
Definition exec `{TableHandler DB} (c : ddl) (db : DB) : DB :=
  match c with
  | IndexRemove t col => index_action_remove t col db
  | DropFk t col => drop_fk t col db
  | ColumnRename t old new => column_rename t old new db
  | SuperInit m module_name => model_sql_init m module_name db
  end.

(** A cursor: the database and the calls made through it so far. *)
Record cursor (DB : Type) : Type := {
  database : DB;
  calls : list ddl;
}.
Arguments database {DB} _.
Arguments calls {DB} _.

Definition call `{TableHandler DB} (c : ddl) (cur : cursor DB) : cursor DB :=
  {| database := exec c (database cur); calls := calls cur ++ [c] |}.

(** [CategoryCustomerTax.init] and [CategorySupplierTax.init]: the two bodies
    differ in the class they name only. *)
Definition init `{TableHandler DB} (self : rel_model) (module_name : string)
    (cur : cursor DB) : cursor DB :=
  let table := _table self in
  let cur :=
    if column_exist (database cur) table "product" then
      let cur := call (IndexRemove table "product") cur in
      let cur := call (DropFk table "product") cur in
      call (ColumnRename table "product" "category") cur
    else cur in
  call (SuperInit (_name self) module_name) cur.

(** A fresh cursor on a database. *)
Definition connect {DB} (db : DB) : cursor DB := {| database := db; calls := [] |}.

(** The table a call of the handler is made on; the call of the parent class
    names a model instead. *)
Definition ddl_table (c : ddl) : option string :=
  match c with
  | IndexRemove t _ | DropFk t _ | ColumnRename t _ _ => Some t
  | SuperInit _ _ => None
  end.

(** A database kept as lists: the columns, the indexed columns and the columns with a
    foreign key of every table. *)
Record table_def : Type := {
  columns : list string;
  indexes : list string;
  foreign_keys : list string;
}.

Definition rename_in (old new : string) (l : list string) : list string :=
  (λ c, if decide (c = old) then new else c) <$> l.

Definition remove_from (col : string) (l : list string) : list string :=
  filter (λ c, c ≠ col) l.

Definition add_missing (col : string) (l : list string) : list string :=
  if decide (col ∈ l) then l else l ++ [col].

Definition lists_column_exist (db : gmap string table_def) (t col : string) : bool :=
  match db !! t with
  | Some d => bool_decide (col ∈ columns d)
  | None => false
  end.

#[export] Instance lists_handler : TableHandler (gmap string table_def) := {|
  column_exist := lists_column_exist;
  index_action_remove t col db :=
    alter (λ d, {| columns := columns d; indexes := remove_from col (indexes d);
                   foreign_keys := foreign_keys d |}) t db;
  drop_fk t col db :=
    alter (λ d, {| columns := columns d; indexes := indexes d;
                   foreign_keys := remove_from col (foreign_keys d) |}) t db;
  column_rename t old new db :=
    if lists_column_exist db t old && negb (lists_column_exist db t new) then
      alter (λ d, {| columns := rename_in old new (columns d);
                     indexes := rename_in old new (indexes d);
                     foreign_keys := rename_in old new (foreign_keys d) |}) t db
    else db;
  model_sql_init m module_name db :=
    let t := if decide (m = _name CategoryCustomerTax)
             then _table CategoryCustomerTax else _table CategorySupplierTax in
    let d := default {| columns := []; indexes := []; foreign_keys := [] |} (db !! t) in
    <[t := {| columns := add_missing "tax" (add_missing "category" (add_missing "id" (columns d)));
              indexes := add_missing "category" (indexes d);
              foreign_keys := add_missing "tax" (add_missing "category" (foreign_keys d)) |}]> db;
|}.

(** A database of version 1.6, before the migration. *)
Definition legacy_db : gmap string table_def :=
  {[ "product_category_customer_taxes_rel" :=
       {| columns := ["id"; "product"; "tax"]; indexes := ["product"];
          foreign_keys := ["product"; "tax"] |} ]}.

End Product.

(** * form_gtk/dictionary.py *)
Module Dictionary.

(** Python floats and [Decimal]s are kept abstract: the widget only
    compares them, tests their truth value and hands them to the locale. *)
Class PyNumbers : Type := {
  pyfloat : Type;
  pydecimal : Type;
  pyfloat_eq_dec :: EqDecision pyfloat;
  pydecimal_eq_dec :: EqDecision pydecimal;
  pyfloat_bool : pyfloat → bool;
  pydecimal_bool : pydecimal → bool;
}.

Section Model.
Context `{PyNumbers}.

(** The values a dictionary field holds. *)
Inductive pyval : Type :=
| VNone
| VBool (b : bool)
| VInt (n : Z)
| VStr (s : string)
| VFloat (f : pyfloat)
| VDecimal (d : pydecimal)
| VDate (ordinal : Z)
| VDateTime (stamp : Z).

#[export] Instance pyval_eq_dec : EqDecision pyval.
Proof. solve_decision. Defined.

(** [bool(v)] *)
Definition truthy (v : pyval) : bool :=
  match v with
  | VNone => false
  | VBool b => b
  | VInt n => negb (n =? 0)
  | VStr s => negb (String.eqb s "")
  | VFloat f => pyfloat_bool f
  | VDecimal d => pydecimal_bool d
  | VDate _ | VDateTime _ => true
  end.

(** [a or b] *)
Definition py_or (a b : pyval) : pyval := if truthy a then a else b.

(** One entry of [field.keys]: the definition of a key, as the server sends
    it.  ['type_'] is taken to be there, the others may be missing;
    ['digits'] is kept evaluated. *)
Record key_schema : Type := {
  type_ : string;
  string_ : option string;
  domain : option string;
  selection : option (list (pyval * string));
  sorted : option bool;
  digits : option (option Z * option Z);
}.

(** The properties of a GTK widget that the code reads or writes. *)
Record gtk_widget : Type := {
  text : string;
  active : bool;
  prop_value : pyval;
  editable : bool;
  sensitive : bool;
  style_classes : gset string;
}.

Definition new_gtk_widget : gtk_widget :=
  {| text := ""; active := false; prop_value := VNone; editable := true;
     sensitive := true; style_classes := ∅ |}.

Definition set_text (s : string) (g : gtk_widget) : gtk_widget :=
  {| text := s; active := active g; prop_value := prop_value g;
     editable := editable g; sensitive := sensitive g;
     style_classes := style_classes g |}.

Definition set_active (b : bool) (g : gtk_widget) : gtk_widget :=
  {| text := text g; active := b; prop_value := prop_value g;
     editable := editable g; sensitive := sensitive g;
     style_classes := style_classes g |}.

Definition set_prop_value (v : pyval) (g : gtk_widget) : gtk_widget :=
  {| text := text g; active := active g; prop_value := v;
     editable := editable g; sensitive := sensitive g;
     style_classes := style_classes g |}.

Definition set_editable (b : bool) (g : gtk_widget) : gtk_widget :=
  {| text := text g; active := active g; prop_value := prop_value g;
     editable := b; sensitive := sensitive g;
     style_classes := style_classes g |}.

Definition set_sensitive (b : bool) (g : gtk_widget) : gtk_widget :=
  {| text := text g; active := active g; prop_value := prop_value g;
     editable := editable g; sensitive := b;
     style_classes := style_classes g |}.

(** [tryton.common.widget_style.widget_class] is not part of these sources:
    it adds the style class when the condition holds and removes it when it
    does not. *)
Definition widget_class (g : gtk_widget) (name : string) (cond : bool) : gtk_widget :=
  {| text := text g; active := active g; prop_value := prop_value g;
     editable := editable g; sensitive := sensitive g;
     style_classes := if cond then {[name]} ∪ style_classes g
                      else style_classes g ∖ {[name]} |}.

(** What the widget takes from outside these sources: the locale, the time
    zone helpers, PYSON and the domain evaluation, the server and the states
    computed by the parent class. *)
Class Host : Type := {
  pyson_domain : Type;
  locale_atoi : string → result Z;
  locale_atof : string → result pyfloat;
  locale_atof_decimal : string → result pydecimal;
  locale_format_d : pyval → result string;
  locale_format_f : Z → pyval → result string;
  timezoned_date : pyval → pyval;
  untimezoned_date : pyval → pyval;
  str_lower : string → string;
  decode : string → pyson_domain;
  eval_domain : pyson_domain → gmap string pyval → bool;
  (* the definitions the server returns for key names, [field.add_keys] *)
  server_keys_by_name : list string → gmap string key_schema;
  (* the definitions the server returns for key ids, [field.add_new_keys] *)
  server_keys_by_id : list Z → list (string * key_schema);
  (* the read-only state [Widget.display] computes from the field states *)
  states_readonly : option Z → bool;
  (* [float(v)], Python's conversion to a float *)
  py_float : pyval → result pyfloat;
  (* [a == b], with [hash] agreeing: how a dictionary compares its keys *)
  py_eq : pyval → pyval → bool;
}.

Context `{Host}.

(** ** The entries *)

Inductive entry_class : Type :=
| DictEntry
| DictBooleanEntry
| DictSelectionEntry
| DictDateTimeEntry
| DictDateEntry
| DictIntegerEntry
| DictFloatEntry
| DictNumericEntry.

#[export] Instance entry_class_eq_dec : EqDecision entry_class.
Proof. solve_decision. Defined.

Definition DICT_ENTRIES : list (string * entry_class) :=
  [ ("char", DictEntry);
    ("boolean", DictBooleanEntry);
    ("selection", DictSelectionEntry);
    ("datetime", DictDateTimeEntry);
    ("date", DictDateEntry);
    ("integer", DictIntegerEntry);
    ("float", DictFloatEntry);
    ("numeric", DictNumericEntry) ].

(** [DICT_ENTRIES[type_]] *)
Definition dict_entries_getitem (type_ : string) : result entry_class :=
  match (list_to_map DICT_ENTRIES : gmap string entry_class) !! type_ with
  | Some c => Ok c
  | None => Raise (KeyError type_)
  end.

(** An entry: its class, its key, the definition of the key, its GTK widget
    and, for a selection, the dictionary [_selection] in insertion order. *)
Record entry : Type := {
  cls : entry_class;
  name : string;
  definition : key_schema;
  widget : gtk_widget;
  _selection : list (string * pyval);
}.

Definition set_widget (g : gtk_widget) (e : entry) : entry :=
  {| cls := cls e; name := name e; definition := definition e; widget := g;
     _selection := _selection e |}.

(** [d[k] = v] on a dictionary kept in insertion order. *)
Fixpoint dict_setitem {V} (k : string) (v : V) (d : list (string * V)) : list (string * V) :=
  match d with
  | [] => [(k, v)]
  | (k', v') :: d' =>
      if decide (k' = k) then (k, v) :: d' else (k', v') :: dict_setitem k v d'
  end.

(** [selection.sort(key=operator.itemgetter(1))]: a stable sort on the
    names; a choice is put before the choices of the same name that come
    after it in the list. *)
Fixpoint insert_by_name (x : pyval * string) (l : list (pyval * string)) : list (pyval * string) :=
  match l with
  | [] => [x]
  | y :: l' =>
      if String.leb x.2 y.2 then x :: y :: l' else y :: insert_by_name x l'
  end.

Definition sort_by_name (l : list (pyval * string)) : list (pyval * string) :=
  foldr insert_by_name [] l.

(** [definition['selection'] = selection] *)
Definition set_selection (selection : list (pyval * string)) (d : key_schema)
    : key_schema :=
  {| type_ := type_ d; string_ := string_ d; domain := domain d;
     selection := Some selection; sorted := sorted d; digits := digits d |}.

(** [create_widget] of each class: the GTK widget, [_selection], and the
    definition as the call leaves it: the sort of the selection is in place,
    so the definition of the entry holds the sorted list from then on. *)
Definition create_widget (c : entry_class) (definition : key_schema)
    : result (gtk_widget * list (string * pyval) * key_schema) :=
  match c with
  | DictSelectionEntry =>
      match selection definition with
      | None => Raise (KeyError "selection")
      | Some selection =>
          let selection :=
            if default true (sorted definition) then sort_by_name selection
            else selection in
          Ok (new_gtk_widget,
              foldl (λ d '(value, name), dict_setitem name value d)
                    [("", VNone)] selection,
              set_selection selection definition)
      end
  | _ => Ok (new_gtk_widget, [], definition)
  end.

(** [DictEntry.__init__]; [keys] is [parent_widget.field.keys].  The
    definition of the entry is the one [create_widget] leaves.  In the
    source it is the object [field.keys[name]] itself, whose choices are
    sorted in place; here [field.keys] keeps the definitions as the server
    has sent them, and the order of the choices is read from the entry: by
    [set_value], and by [create_widget], which sorts them again, to the
    same list, when the key gets a new entry. *)
Definition new_entry (c : entry_class) (name : string)
    (keys : gmap string key_schema) : result entry :=
  match keys !! name with
  | None => Raise (KeyError name)
  | Some definition =>
      match create_widget c definition with
      | Raise e => Raise e
      | Ok (g, sel, definition) =>
          Ok {| cls := c; name := name; definition := definition; widget := g;
                _selection := sel |}
      end
  end.

(** [DictIntegerEntry.get_value] on the text of the entry. *)
Definition integer_get_value (txt_value : string) : result (option Z) :=
  if negb (String.eqb txt_value "") then
    match locale_atoi txt_value with
    | Ok n => Ok (Some n)
    | Raise ValueError => Ok None
    | Raise e => Raise e
    end
  else Ok None.

(** [DictFloatEntry.get_value] *)
Definition float_get_value (txt_value : string) : result (option pyfloat) :=
  if negb (String.eqb txt_value "") then
    match locale_atof txt_value with
    | Ok f => Ok (Some f)
    | Raise ValueError => Ok None
    | Raise e => Raise e
    end
  else Ok None.

(** [DictNumericEntry.get_value] *)
Definition numeric_get_value (txt_value : string) : result (option pydecimal) :=
  if negb (String.eqb txt_value "") then
    match locale_atof_decimal txt_value with
    | Ok d => Ok (Some d)
    | Raise InvalidOperation => Ok None
    | Raise e => Raise e
    end
  else Ok None.

(** The loop of [DictSelectionEntry.get_value] over [_selection.items()]. *)
Fixpoint selection_lookup (text : string) (items : list (string * pyval))
    (value : pyval) : pyval :=
  match items with
  | [] => value
  | (txt, val) :: items' =>
      if negb (truthy val) then selection_lookup text items' value
      else if String.eqb (str_lower (String.substring 0 (String.length text) txt))
                         (str_lower text)
      then if (String.length txt =? String.length text)%nat then val
           else selection_lookup text items' val
      else selection_lookup text items' value
  end.

Definition option_to_pyval {A} (f : A → pyval) (o : option A) : pyval :=
  match o with Some a => f a | None => VNone end.

(** [get_value] of an entry, by class; the GTK widget of a selection is
    taken not to be destroyed. *)
Definition entry_get_value (e : entry) : result pyval :=
  let g := widget e in
  match cls e with
  | DictEntry => Ok (VStr (text g))
  | DictBooleanEntry => Ok (VBool (active g))
  | DictSelectionEntry =>
      if negb (String.eqb (text g) "")
      then Ok (selection_lookup (text g) (_selection e) VNone)
      else Ok VNone
  | DictIntegerEntry =>
      match integer_get_value (text g) with
      | Ok v => Ok (option_to_pyval VInt v)
      | Raise x => Raise x
      end
  | DictFloatEntry =>
      match float_get_value (text g) with
      | Ok v => Ok (option_to_pyval VFloat v)
      | Raise x => Raise x
      end
  | DictNumericEntry =>
      match numeric_get_value (text g) with
      | Ok v => Ok (option_to_pyval VDecimal v)
      | Raise x => Raise x
      end
  | DictDateTimeEntry => Ok (untimezoned_date (prop_value g))
  | DictDateEntry => Ok (prop_value g)
  end.

(** [widget.set_text(v)]: GTK takes a string only. *)
Definition gtk_set_text (v : pyval) (g : gtk_widget) : result gtk_widget :=
  match v with
  | VStr s => Ok (set_text s g)
  | _ => Raise TypeError
  end.

(** [d[k] = n] on a dictionary whose keys are values: a key equal to [k] by
    [==] keeps its place and takes the name. *)
Fixpoint values_setitem (k : pyval) (n : string) (d : list (pyval * string))
    : list (pyval * string) :=
  match d with
  | [] => [(k, n)]
  | (k', n') :: d' =>
      if py_eq k' k then (k', n) :: d' else (k', n') :: values_setitem k n d'
  end.

(** [d.get(k, default)] on such a dictionary. *)
Fixpoint values_get (k : pyval) (default : string) (d : list (pyval * string)) : string :=
  match d with
  | [] => default
  | (k', n') :: d' => if py_eq k' k then n' else values_get k default d'
  end.

(** [dict(selection).get(value, '')] *)
Definition selection_name (selection : list (pyval * string)) (value : pyval) : string :=
  values_get value ""
    (foldl (λ d '(v, n), values_setitem v n d) [] selection).

(** [DictFloatEntry.digits]; [has_record] is the truth of
    [parent_widget.record]. *)
Definition entry_digits (has_record : bool) (definition : key_schema) : option (Z * Z) :=
  if has_record then
    match digits definition with
    | Some (Some a, Some b) => Some (a, b)
    | _ => None
    end
  else None.

(** [set_value] of an entry, by class. *)
Definition entry_set_value (has_record : bool) (value : pyval) (e : entry) : result entry :=
  let g := widget e in
  match cls e with
  | DictEntry =>
      match gtk_set_text (py_or value (VStr "")) g with
      | Ok g' => Ok (set_widget g' e)
      | Raise x => Raise x
      end
  | DictBooleanEntry => Ok (set_widget (set_active (truthy value) g) e)
  | DictSelectionEntry =>
      match selection (definition e) with
      | None => Raise (KeyError "selection")
      | Some selection => Ok (set_widget (set_text (selection_name selection value) g) e)
      end
  | DictIntegerEntry =>
      match (if decide (value = VNone) then Ok "" else locale_format_d value) with
      | Ok txt_val => Ok (set_widget (set_text txt_val g) e)
      | Raise x => Raise x
      end
  | DictFloatEntry | DictNumericEntry =>
      let digits := entry_digits has_record (definition e) in
      match (if decide (value = VNone) then Ok ""
             else match digits with
                  | None => Raise TypeError
                  | Some (_, d) => locale_format_f d value
                  end) with
      | Ok txt_val => Ok (set_widget (set_text txt_val g) e)
      | Raise x => Raise x
      end
  | DictDateTimeEntry => Ok (set_widget (set_prop_value (timezoned_date value) g) e)
  | DictDateEntry => Ok (set_widget (set_prop_value value g) e)
  end.

(** [set_readonly] of an entry, by class. *)
Definition entry_set_readonly (readonly : bool) (e : entry) : entry :=
  match cls e with
  | DictBooleanEntry | DictSelectionEntry =>
      set_widget (set_sensitive (negb readonly) (widget e)) e
  | _ => set_widget (set_editable (negb readonly) (widget e)) e
  end.


(** ** The widget *)

(** A remove button, with the identity of the GTK object. *)
Record button : Type := {
  but_id : nat;
  but_sensitive : bool;
}.

(** [self.table]: its number of rows and the attached objects, each with the
    row it is attached at. *)
Record gtk_table : Type := {
  n_rows : nat;
  children : list (nat * Z);
}.

(** The dictionary field of the view, with its schema [keys]. *)
Record Field : Type := {
  keys : gmap string key_schema;
}.

(** The record shown, with the value of the dictionary field in it. *)
Record Record_ : Type := {
  id : Z;
  rvalue : gmap string pyval;
}.

(** The alignment attributes of the view: [attrs.get('xalign', 0.0)],
    [attrs.get('yalign', 0.5)], [attrs.get('xexpand', 1.0)] and
    [attrs.get('yexpand', 1.0)]. *)
Record alignment : Type := {
  xalign : pyval;
  yalign : pyval;
  xexpand : pyval;
  yexpand : pyval;
}.

(** The attributes of [DictWidget] that the methods below read or write;
    [field] and [record] are those of the view, [attrs_create] and
    [attrs_delete] are [attrs.get('create', True)] and
    [attrs.get('delete', True)], [attrs_align] are the alignment attributes,
    [idle_focus] are the keys whose entry [gobject.idle_add] will focus, and
    [next_object] numbers the GTK objects created. *)
Record DictWidget : Type := {
  field : option Field;
  record : option Record_;
  attrs_create : bool;
  attrs_delete : bool;
  attrs_align : alignment;
  fields : gmap string entry;
  buttons : gmap string button;
  rows : gmap string (list nat);
  table : gtk_table;
  wid_text : gtk_widget;
  but_add : button;
  _readonly : bool;
  _record_id : option Z;
  idle_focus : list string;
  next_object : nat;
}.

Definition with_field (x : option Field) (w : DictWidget) : DictWidget :=
  {| field := x; record := record w; attrs_create := attrs_create w;
     attrs_delete := attrs_delete w; attrs_align := attrs_align w; fields := fields w; buttons := buttons w;
     rows := rows w; table := table w; wid_text := wid_text w; but_add :=
     but_add w; _readonly := _readonly w; _record_id := _record_id w;
     idle_focus := idle_focus w; next_object := next_object w |}.

Definition with_record (x : option Record_) (w : DictWidget) : DictWidget :=
  {| field := field w; record := x; attrs_create := attrs_create w;
     attrs_delete := attrs_delete w; attrs_align := attrs_align w; fields := fields w; buttons := buttons w;
     rows := rows w; table := table w; wid_text := wid_text w; but_add :=
     but_add w; _readonly := _readonly w; _record_id := _record_id w;
     idle_focus := idle_focus w; next_object := next_object w |}.

Definition with_fields (x : gmap string entry) (w : DictWidget) : DictWidget :=
  {| field := field w; record := record w; attrs_create := attrs_create w;
     attrs_delete := attrs_delete w; attrs_align := attrs_align w; fields := x; buttons := buttons w; rows :=
     rows w; table := table w; wid_text := wid_text w; but_add := but_add w;
     _readonly := _readonly w; _record_id := _record_id w; idle_focus :=
     idle_focus w; next_object := next_object w |}.

Definition with_buttons (x : gmap string button) (w : DictWidget) : DictWidget :=
  {| field := field w; record := record w; attrs_create := attrs_create w;
     attrs_delete := attrs_delete w; attrs_align := attrs_align w; fields := fields w; buttons := x; rows :=
     rows w; table := table w; wid_text := wid_text w; but_add := but_add w;
     _readonly := _readonly w; _record_id := _record_id w; idle_focus :=
     idle_focus w; next_object := next_object w |}.

Definition with_rows (x : gmap string (list nat)) (w : DictWidget) : DictWidget :=
  {| field := field w; record := record w; attrs_create := attrs_create w;
     attrs_delete := attrs_delete w; attrs_align := attrs_align w; fields := fields w; buttons := buttons w;
     rows := x; table := table w; wid_text := wid_text w; but_add := but_add w;
     _readonly := _readonly w; _record_id := _record_id w; idle_focus :=
     idle_focus w; next_object := next_object w |}.

Definition with_table (x : gtk_table) (w : DictWidget) : DictWidget :=
  {| field := field w; record := record w; attrs_create := attrs_create w;
     attrs_delete := attrs_delete w; attrs_align := attrs_align w; fields := fields w; buttons := buttons w;
     rows := rows w; table := x; wid_text := wid_text w; but_add := but_add w;
     _readonly := _readonly w; _record_id := _record_id w; idle_focus :=
     idle_focus w; next_object := next_object w |}.

Definition with_wid_text (x : gtk_widget) (w : DictWidget) : DictWidget :=
  {| field := field w; record := record w; attrs_create := attrs_create w;
     attrs_delete := attrs_delete w; attrs_align := attrs_align w; fields := fields w; buttons := buttons w;
     rows := rows w; table := table w; wid_text := x; but_add := but_add w;
     _readonly := _readonly w; _record_id := _record_id w; idle_focus :=
     idle_focus w; next_object := next_object w |}.

Definition with_but_add (x : button) (w : DictWidget) : DictWidget :=
  {| field := field w; record := record w; attrs_create := attrs_create w;
     attrs_delete := attrs_delete w; attrs_align := attrs_align w; fields := fields w; buttons := buttons w;
     rows := rows w; table := table w; wid_text := wid_text w; but_add := x;
     _readonly := _readonly w; _record_id := _record_id w; idle_focus :=
     idle_focus w; next_object := next_object w |}.

Definition with_readonly (x : bool) (w : DictWidget) : DictWidget :=
  {| field := field w; record := record w; attrs_create := attrs_create w;
     attrs_delete := attrs_delete w; attrs_align := attrs_align w; fields := fields w; buttons := buttons w;
     rows := rows w; table := table w; wid_text := wid_text w; but_add :=
     but_add w; _readonly := x; _record_id := _record_id w; idle_focus :=
     idle_focus w; next_object := next_object w |}.

Definition with_record_id (x : option Z) (w : DictWidget) : DictWidget :=
  {| field := field w; record := record w; attrs_create := attrs_create w;
     attrs_delete := attrs_delete w; attrs_align := attrs_align w; fields := fields w; buttons := buttons w;
     rows := rows w; table := table w; wid_text := wid_text w; but_add :=
     but_add w; _readonly := _readonly w; _record_id := x; idle_focus :=
     idle_focus w; next_object := next_object w |}.

Definition with_idle_focus (x : list string) (w : DictWidget) : DictWidget :=
  {| field := field w; record := record w; attrs_create := attrs_create w;
     attrs_delete := attrs_delete w; attrs_align := attrs_align w; fields := fields w; buttons := buttons w;
     rows := rows w; table := table w; wid_text := wid_text w; but_add :=
     but_add w; _readonly := _readonly w; _record_id := _record_id w;
     idle_focus := x; next_object := next_object w |}.

Definition with_next_object (x : nat) (w : DictWidget) : DictWidget :=
  {| field := field w; record := record w; attrs_create := attrs_create w;
     attrs_delete := attrs_delete w; attrs_align := attrs_align w; fields := fields w; buttons := buttons w;
     rows := rows w; table := table w; wid_text := wid_text w; but_add :=
     but_add w; _readonly := _readonly w; _record_id := _record_id w;
     idle_focus := idle_focus w; next_object := x |}.

(** Methods of the widget: state and exceptions; the state a method leaves
    behind when it raises is the state at the [raise]. *)
Definition M (A : Type) : Type := DictWidget → result A * DictWidget.

Definition ret {A} (a : A) : M A := λ w, (Ok a, w).

Definition bind {A B} (m : M A) (k : A → M B) : M B :=
  λ w, match m w with
       | (Ok a, w') => k a w'
       | (Raise e, w') => (Raise e, w')
       end.

Definition raise {A} (e : exn) : M A := λ w, (Raise e, w).
Definition get : M DictWidget := λ w, (Ok w, w).
Definition modify (f : DictWidget → DictWidget) : M unit := λ w, (Ok tt, f w).
Definition lift {A} (r : result A) : M A := λ w, (r, w).

#[export] Instance M_ret : MRet M := @ret.
#[export] Instance M_bind : MBind M := λ A B k m, bind m k.

(** [for x in l: body(x)] *)
Fixpoint for_each {B} (l : list B) (body : B → M unit) : M unit :=
  match l with
  | [] => ret tt
  | x :: l' => body x;; for_each l' body
  end.

(** [self.field.keys], with [self.field] possibly [None]. *)
Definition field_keys : M (gmap string key_schema) :=
  w ← get;
  match field w with
  | Some f => ret (keys f)
  | None => raise AttributeError
  end.

(** [d[key]] *)
Definition getitem {V} (d : gmap string V) (key : string) : M V :=
  match d !! key with
  | Some v => ret v
  | None => raise (KeyError key)
  end.

(** [del d[key]], on one of the three maps. *)
Definition del_fields (key : string) : M unit :=
  w ← get;
  _ ← getitem (fields w) key;
  modify (with_fields (delete key (fields w))).

Definition del_buttons (key : string) : M unit :=
  w ← get;
  _ ← getitem (buttons w) key;
  modify (with_buttons (delete key (buttons w))).

Definition del_rows (key : string) : M unit :=
  w ← get;
  _ ← getitem (rows w) key;
  modify (with_rows (delete key (rows w))).

(** [self.table.remove(widget); widget.destroy()] *)
Definition table_remove (object : nat) : M unit :=
  modify (λ w, with_table
    {| n_rows := n_rows (table w);
       children := filter (λ c, c.1 ≠ object) (children (table w)) |} w).

(** [DictWidget.get_value] *)
Fixpoint get_value_items (items : list (string * entry)) : result (gmap string pyval) :=
  match items with
  | [] => Ok ∅
  | (key, e) :: items' =>
      match entry_get_value e with
      | Raise x => Raise x
      | Ok v =>
          match get_value_items items' with
          | Raise x => Raise x
          | Ok d => Ok (<[key := v]> d)
          end
      end
  end.

Definition get_value : M (gmap string pyval) :=
  w ← get;
  lift (get_value_items (map_to_list (fields w))).

(** [DictWidget.set_value]; [field.set_client] stores the value in the
    record. *)
Definition set_value : M unit :=
  w ← get;
  match field w with
  | None => raise AttributeError
  | Some _ =>
      value ← get_value;
      match record w with
      | None => raise AttributeError
      | Some r => modify (with_record (Some {| id := id r; rvalue := value |}))
      end
  end.

(** [send_modified] belongs to the parent class and only emits a signal. *)
Definition send_modified : M unit := ret tt.

(** [DictWidget._sig_remove]; its argument [button] is not used. *)
Definition _sig_remove (key : string) (modified : bool) : M unit :=
  del_fields key;;
  del_buttons key;;
  w ← get;
  row ← getitem (rows w) key;
  for_each row table_remove;;
  del_rows key;;
  if modified then send_modified;; set_value else ret tt.

(** [DictWidget._set_button_sensitive] *)
Definition _set_button_sensitive : M unit :=
  modify (λ w,
    with_but_add {| but_id := but_id (but_add w);
                    but_sensitive := negb (_readonly w) && attrs_create w |} w);;
  modify (λ w,
    with_buttons
      ((λ b, {| but_id := but_id b;
                but_sensitive := negb (_readonly w) && attrs_delete w |})
       <$> buttons w) w).

(** [DictWidget._readonly_set] *)
Definition _readonly_set (readonly : bool) : M unit :=
  modify (with_readonly readonly);;
  _set_button_sensitive;;
  modify (λ w, with_fields (entry_set_readonly readonly <$> fields w) w);;
  modify (λ w, with_wid_text (set_sensitive (negb readonly) (wid_text w)) w);;
  modify (λ w, with_wid_text (set_editable (negb readonly) (wid_text w)) w).

(** A new GTK object: its number. *)
Definition new_object : M nat :=
  w ← get;
  modify (with_next_object (S (next_object w)));;
  ret (next_object w).

(** [self.table.attach(child, ..., n_rows - 1, n_rows, ...)] *)
Definition table_attach (child : nat) (top : Z) : M unit :=
  modify (λ w, with_table
    {| n_rows := n_rows (table w);
       children := children (table w) ++ [(child, top)] |} w).

(** [gtk.Alignment(float(...), float(...), float(...), float(...))] on the
    alignment attributes: the four conversions, in order. *)
Definition gtk_alignment (a : alignment) : result unit :=
  match py_float (xalign a) with
  | Raise x => Raise x
  | Ok _ =>
      match py_float (yalign a) with
      | Raise x => Raise x
      | Ok _ =>
          match py_float (xexpand a) with
          | Raise x => Raise x
          | Ok _ =>
              match py_float (yexpand a) with
              | Raise x => Raise x
              | Ok _ => Ok tt
              end
          end
      end
  end.

(** [key_schema['string']] *)
Definition schema_string (key_schema : key_schema) : result string :=
  match string_ key_schema with
  | Some s => Ok s
  | None => Raise (KeyError "string")
  end.

(** [DictWidget.add_line].  The entry is stored in [fields] as soon as it is
    made, before the alignment attributes are converted and the label of the
    key is read, which can both raise; the alignment box, the label and the
    remove button are the three GTK objects of the row.  Packing, tooltips
    and signal connections leave the attributes of the widget alone. *)
Definition add_line (key : string) : M unit :=
  ks ← field_keys;
  key_schema ← getitem ks key;
  c ← lift (dict_entries_getitem (type_ key_schema));
  e ← lift (new_entry c key ks);
  modify (λ w, with_fields (<[key := e]> (fields w)) w);;
  w ← get;
  lift (gtk_alignment (attrs_align w));;
  alignment ← new_object;
  w ← get;
  let n := n_rows (table w) in
  modify (with_table {| n_rows := S n; children := children (table w) |});;
  lift (schema_string key_schema);;
  label ← new_object;
  table_attach label (Z.of_nat n - 1);;
  table_attach alignment (Z.of_nat n - 1);;
  remove_but ← new_object;
  table_attach remove_but (Z.of_nat n - 1);;
  modify (λ w, with_rows (<[key := [label; alignment; remove_but]]> (rows w)) w);;
  modify (λ w, with_buttons
    (<[key := {| but_id := remove_but; but_sensitive := true |}]> (buttons w)) w).

(** [self.field.add_new_keys(ids, self.record)]: the definitions the server
    returns are stored in [field.keys], and their names are returned. *)
Definition field_add_new_keys (ids : list Z) : M (list string) :=
  w ← get;
  match field w with
  | None => raise AttributeError
  | Some f =>
      let new_fields := server_keys_by_id ids in
      modify (with_field
        (Some {| keys := foldl (λ ks '(n, d), <[n := d]> ks) (keys f) new_fields |}));;
      ret (new_fields.*1)
  end.

(** The loop of [add_new_keys]; [focus] is its local variable. *)
Fixpoint add_new_keys_loop (new_keys : list string) (focus : bool) : M unit :=
  match new_keys with
  | [] => ret tt
  | key_name :: rest =>
      w ← get;
      match fields w !! key_name with
      | Some _ => add_new_keys_loop rest focus
      | None =>
          add_line key_name;;
          if negb focus then
            w ← get;
            _ ← getitem (fields w) key_name;
            modify (with_idle_focus (idle_focus w ++ [key_name]));;
            add_new_keys_loop rest true
          else add_new_keys_loop rest focus
      end
  end.

(** [DictWidget.add_new_keys] *)
Definition add_new_keys (ids : list Z) : M unit :=
  new_keys ← field_add_new_keys ids;
  send_modified;;
  add_new_keys_loop new_keys false.

(** [self.field.add_keys(keys, self.record)]: the definitions the server
    returns for the names update [field.keys]. *)
Definition field_add_keys (names : list string) : M unit :=
  w ← get;
  match field w with
  | None => raise AttributeError
  | Some f =>
      modify (with_field (Some {| keys := server_keys_by_name names ∪ keys f |}))
  end.

(** [self.field.get_client(self.record)]: the value of the field in the
    record. *)
Definition field_get_client : M (gmap string pyval) :=
  w ← get;
  match record w with
  | Some r => ret (rvalue r)
  | None => raise AttributeError
  end.

(** [sorted(value.items())] *)
Definition key_le (a b : string * pyval) : Prop := String.leb a.1 b.1 = true.

#[export] Instance key_le_dec a b : Decision (key_le a b).
Proof. unfold key_le. apply _. Defined.

Definition sorted_items (value : gmap string pyval) : list (string * pyval) :=
  merge_sort key_le (map_to_list value).

(** The end of the body of the first loop of [display], from
    [widget = self.fields[key]] on. *)
Definition display_entry (value : gmap string pyval) (key : string) (val : pyval) : M unit :=
  w ← get;
  e ← getitem (fields w) key;
  e ← lift (entry_set_value (bool_decide (is_Some (record w))) val e);
  modify (λ w, with_fields (<[key := e]> (fields w)) w);;
  w ← get;
  let e := entry_set_readonly (_readonly w) e in
  modify (λ w, with_fields (<[key := e]> (fields w)) w);;
  ks ← field_keys;
  key_schema ← getitem ks key;
  let key_domain :=
    decode (match domain key_schema with
            | Some "" | None => "[]"
            | Some d => d
            end) in
  let e :=
    set_widget (widget_class (widget e) "invalid"
                  (negb (eval_domain key_domain value))) e in
  modify (λ w, with_fields (<[key := e]> (fields w)) w).

(** The body of the first loop of [display], for one item of the value. *)
Definition display_item (value : gmap string pyval) (item : string * pyval) : M unit :=
  let '(key, val) := item in
  ks ← field_keys;
  match ks !! key with
  | None => mret tt
  | Some _ =>
      w ← get;
      (match fields w !! key with
       | None => add_line key
       | Some _ => mret tt
       end);;
      display_entry value key val
  end.

(** [Widget.display] of the parent class is not part of these sources: it
    computes the read-only state of the field and calls [_readonly_set]. *)
Definition super_display : M unit :=
  w ← get;
  _readonly_set (states_readonly (id <$> record w)).

(** [DictWidget.display] *)
Definition display : M unit :=
  super_display;;
  w ← get;
  match field w with
  | None => ret tt
  | Some _ =>
      let record_id := id <$> record w in
      (if decide (record_id ≠ _record_id w) then
         for_each (map_to_list (fields w)).*1 (λ key, _sig_remove key false);;
         modify (with_record_id record_id)
       else ret tt);;
      value ← field_get_client;
      ks ← field_keys;
      let new_key_names := dom value ∖ dom ks in
      (if decide (new_key_names ≠ ∅)
       then field_add_keys (elements new_key_names)
       else ret tt);;
      for_each (sorted_items value) (display_item value);;
      w ← get;
      for_each (elements (dom (fields w) ∖ dom value))
               (λ key, _sig_remove key false);;
      _set_button_sensitive
  end.

(** [DictWidget.__init__]: the three maps are empty. *)
Definition new_widget (attrs_create attrs_delete : bool) (attrs_align : alignment)
    : DictWidget :=
  {| field := None; record := None;
     attrs_create := attrs_create; attrs_delete := attrs_delete;
     attrs_align := attrs_align;
     fields := ∅; buttons := ∅; rows := ∅;
     table := {| n_rows := 1; children := [] |};
     wid_text := new_gtk_widget;
     but_add := {| but_id := 0; but_sensitive := true |};
     _readonly := false; _record_id := None;
     idle_focus := []; next_object := 1 |}.

(** ** The invariants of the widget *)

(** The three maps of the widget have the same keys. *)
Definition same_keys (w : DictWidget) : Prop :=
  dom (fields w) = dom (buttons w) ∧ dom (fields w) = dom (rows w).

(** The buttons and the rows have the same keys, and all of them have an
    entry: what is left of [same_keys] when a call raises. *)
Definition rows_have_entries (w : DictWidget) : Prop :=
  dom (buttons w) = dom (rows w) ∧ dom (rows w) ⊆ dom (fields w).

(** Every key with a row is a key of the schema. *)
Definition rows_in_schema (w : DictWidget) : Prop :=
  ∀ f, field w = Some f → dom (fields w) ⊆ dom (keys f).

(** The view of the widget is the same in two states: its field, its
    record, its attributes and the two private attributes. *)
Definition same_view (w w' : DictWidget) : Prop :=
  field w' = field w ∧ record w' = record w ∧
  attrs_create w' = attrs_create w ∧ attrs_delete w' = attrs_delete w ∧
  _readonly w' = _readonly w ∧ _record_id w' = _record_id w.

(** The GTK objects of a row created when [n] objects exist. *)
Definition new_row (n : nat) : list nat := [S n; n; S (S n)].

(** State [w'] is state [w] with a row for [key], its entry being [e]. *)
Definition added (key : string) (e : entry) (w w' : DictWidget) : Prop :=
  fields w' = <[key := e]> (fields w) ∧
  buttons w' = <[key := {| but_id := S (S (next_object w)); but_sensitive := true |}]>
                 (buttons w) ∧
  rows w' = <[key := new_row (next_object w)]> (rows w) ∧
  next_object w' = (3 + next_object w)%nat ∧
  same_view w w'.

(** State [w'] is state [w] with the entry [e] stored for [key] and no row
    for it: what a call of [add_line] that raises after it has made the
    entry leaves. *)
Definition stored (key : string) (e : entry) (w w' : DictWidget) : Prop :=
  fields w' = <[key := e]> (fields w) ∧
  buttons w' = buttons w ∧
  rows w' = rows w ∧
  children (table w') = children (table w) ∧
  (next_object w ≤ next_object w')%nat ∧
  same_view w w'.

(** State [w'] is state [w] with the entry of [key] replaced by [e]. *)
Definition updated (key : string) (e : entry) (w w' : DictWidget) : Prop :=
  fields w' = <[key := e]> (fields w) ∧
  buttons w' = buttons w ∧
  rows w' = rows w ∧
  next_object w' = next_object w ∧
  same_view w w'.

(** State [w'] is state [w] with a row for [key] when it had none. *)
Definition ensured (key : string) (w w' : DictWidget) : Prop :=
  (is_Some (fields w !! key) ∧ w' = w) ∨
  (fields w !! key = None ∧ ∃ e, added key e w w').

(** State [w'] is state [w] without the rows of the keys in [l]. *)
Definition removed (l : list string) (w w' : DictWidget) : Prop :=
  (∀ k, fields w' !! k = if decide (k ∈ l) then None else fields w !! k) ∧
  (∀ k, buttons w' !! k = if decide (k ∈ l) then None else buttons w !! k) ∧
  (∀ k, rows w' !! k = if decide (k ∈ l) then None else rows w !! k) ∧
  next_object w' = next_object w ∧
  same_view w w'.

(** The domain of a key: [keys[key].get('domain') or '[]'], decoded. *)
Definition key_domain (ks : key_schema) : pyson_domain :=
  decode (match domain ks with
          | Some "" | None => "[]"
          | Some d => d
          end).

(** The schema after [display] has asked the server for the keys of the
    value that it does not know. *)
Definition schema_after (value : gmap string pyval) (ks : gmap string key_schema)
    : gmap string key_schema :=
  if decide (dom value ∖ dom ks ≠ ∅)
  then server_keys_by_name (elements (dom value ∖ dom ks)) ∪ ks
  else ks.

(** The entry of [key] carries the style class [invalid]. *)
Definition marked_invalid (e : entry) : Prop :=
  "invalid" ∈ style_classes (widget e).

(** State [w'] is state [w] after the first loop of [display] has gone
    through the keys [done] of the value [value], with the schema [ks]:
    the keys of the schema among them have an entry, marked by its domain;
    the rows of [w] are kept; the other rows are new. *)
Definition shown (value : gmap string pyval) (ks : gmap string key_schema)
    (done : list string) (w w' : DictWidget) : Prop :=
  same_view w w' ∧
  (next_object w ≤ next_object w')%nat ∧
  dom (fields w') = dom (fields w) ∪ (list_to_set done ∩ dom ks) ∧
  (∀ key d, key ∈ done → ks !! key = Some d →
     ∃ e, fields w' !! key = Some e ∧
          (marked_invalid e ↔ eval_domain (key_domain d) value = false)) ∧
  (∀ key, key ∈ dom (fields w) → rows w' !! key = rows w !! key) ∧
  (∀ key row, rows w' !! key = Some row →
     rows w !! key = Some row ∨ ∃ n, (next_object w ≤ n)%nat ∧ row = new_row n).

(** The entry is in the read-only state [readonly]: the property that
    [set_readonly] of its class writes holds [not readonly]. *)
Definition entry_readonly (readonly : bool) (e : entry) : Prop :=
  match cls e with
  | DictBooleanEntry | DictSelectionEntry => sensitive (widget e) = negb readonly
  | _ => editable (widget e) = negb readonly
  end.

(** The GTK objects attached to the table are the objects of the rows, they
    have been numbered already, and no object is in two rows. *)
Definition table_ok (w : DictWidget) : Prop :=
  (∀ o, o ∈ (children (table w)).*1 ↔
        ∃ key row, rows w !! key = Some row ∧ o ∈ row) ∧
  (∀ key row o, rows w !! key = Some row → o ∈ row → (o < next_object w)%nat) ∧
  (∀ k1 k2 row1 row2 o, rows w !! k1 = Some row1 → rows w !! k2 = Some row2 →
     o ∈ row1 → o ∈ row2 → k1 = k2).

End Model.

(** ** A host to run the widget in *)

(** Floats and decimals are whole numbers here, the locale is the C locale
    on unsigned decimal numerals, a domain is a list of keys whose value
    must be truthy, and the server knows no key. *)
#[export] Instance whole_numbers : PyNumbers := {|
  pyfloat := Z;
  pydecimal := Z;
  pyfloat_bool f := negb (f =? 0);
  pydecimal_bool d := negb (d =? 0);
|}.

Definition digit_of (a : Ascii.ascii) : option Z :=
  let n := Z.of_N (Ascii.N_of_ascii a) in
  if (48 <=? n) && (n <=? 57) then Some (n - 48) else None.

Fixpoint numeral (acc : Z) (s : string) : option Z :=
  match s with
  | EmptyString => Some acc
  | String a s' =>
      match digit_of a with
      | Some d => numeral (10 * acc + d) s'
      | None => None
      end
  end.

Definition parse_numeral (s : string) : option Z :=
  match s with
  | EmptyString => None
  | _ => numeral 0 s
  end.

Definition c_atoi (e : exn) (s : string) : result Z :=
  match parse_numeral s with
  | Some n => Ok n
  | None => Raise e
  end.

(** [float(v)]: numbers and numerals are converted, other texts raise
    [ValueError], [None] and dates raise [TypeError]. *)
Definition c_float (v : pyval) : result Z :=
  match v with
  | VBool b => Ok (if b then 1 else 0)
  | VInt n | VFloat n | VDecimal n => Ok n
  | VStr s => c_atoi ValueError s
  | VNone | VDate _ | VDateTime _ => Raise TypeError
  end.

(** [a == b]: numbers are equal when their values are, whatever their type,
    [True] being 1 and [False] 0; other values when they are the same. *)
Definition c_number (v : pyval) : option Z :=
  match v with
  | VBool b => Some (if b then 1 else 0)
  | VInt n | VFloat n | VDecimal n => Some n
  | _ => None
  end.

Definition c_eq (a b : pyval) : bool :=
  match c_number a, c_number b with
  | Some x, Some y => x =? y
  | None, None => bool_decide (a = b)
  | _, _ => false
  end.

#[export] Instance c_host : Host := {|
  pyson_domain := list string;
  locale_atoi := c_atoi ValueError;
  locale_atof := c_atoi ValueError;
  locale_atof_decimal := c_atoi InvalidOperation;
  locale_format_d v := match v with VInt n => Ok "0" | _ => Raise TypeError end;
  locale_format_f d v := match v with VInt n => Ok "0" | _ => Raise TypeError end;
  timezoned_date v := v;
  untimezoned_date v := v;
  str_lower s := s;
  decode s := if String.eqb s "[]" then [] else [s];
  eval_domain d value := forallb (λ k, truthy (default VNone (value !! k))) d;
  server_keys_by_name names := ∅;
  server_keys_by_id ids := [];
  states_readonly record_id := false;
  py_float := c_float;
  py_eq := c_eq;
|}.

(** A schema with a text key and a flag key whose domain asks for a colour;
    a key of an unknown type; a record with a colour and an unchecked flag. *)
Definition colour_schema : key_schema :=
  {| type_ := "char"; string_ := Some "Colour"; domain := None; selection := None;
     sorted := None; digits := None |}.

Definition flag_schema : key_schema :=
  {| type_ := "boolean"; string_ := Some "Flag"; domain := Some "flag";
     selection := None; sorted := None; digits := None |}.

Definition binary_schema : key_schema :=
  {| type_ := "binary"; string_ := Some "Blob"; domain := None; selection := None;
     sorted := None; digits := None |}.

Definition sample_field : Field :=
  {| keys := {[ "colour" := colour_schema; "flag" := flag_schema;
                "blob" := binary_schema ]} |}.

Definition sample_record : Record_ :=
  {| id := 7; rvalue := {[ "colour" := VStr "red"; "flag" := VBool false;
                           "weight" := VInt 3 ]} |}.

(** Alignment attributes that are numbers, and others whose first one is a
    word. *)
Definition plain_alignment : alignment :=
  {| xalign := VFloat 0; yalign := VStr "1"; xexpand := VFloat 1;
     yexpand := VFloat 1 |}.

Definition word_alignment : alignment :=
  {| xalign := VStr "left"; yalign := VStr "1"; xexpand := VFloat 1;
     yexpand := VFloat 1 |}.

Definition sample_widget : DictWidget :=
  with_record (Some sample_record)
    (with_field (Some sample_field) (new_widget true true plain_alignment)).

(** A selection key with three sizes, and its entry holding a text. *)
Definition size_schema : key_schema :=
  {| type_ := "selection"; string_ := Some "Size"; domain := None;
     selection := Some [(VStr "sm", "Smaller"); (VStr "s", "Small");
                        (VStr "l", "Large"); (VStr "", "Unknown")];
     sorted := None; digits := None |}.

Definition size_entry (txt : string) : entry :=
  match create_widget DictSelectionEntry size_schema with
  | Ok (g, sel, d) =>
      {| cls := DictSelectionEntry; name := "size"; definition := d;
         widget := set_text txt g; _selection := sel |}
  | Raise _ =>
      {| cls := DictSelectionEntry; name := "size"; definition := size_schema;
         widget := set_text txt new_gtk_widget; _selection := [] |}
  end.

(** A float key whose definition has no digits, in a record that holds a
    number for it. *)
Definition ratio_schema : key_schema :=
  {| type_ := "float"; string_ := Some "Ratio"; domain := None; selection := None;
     sorted := None; digits := None |}.

Definition ratio_widget : DictWidget :=
  with_record (Some {| id := 8; rvalue := {[ "ratio" := VFloat 2 ]} |})
    (with_field (Some {| keys := {[ "ratio" := ratio_schema ]} |})
       (new_widget true true plain_alignment)).

(** The sample widget with alignment attributes whose first one is a
    word. *)
Definition word_widget : DictWidget :=
  with_record (Some sample_record)
    (with_field (Some sample_field) (new_widget true true word_alignment)).

(** A field with one key for each of the eight types and one of the type
    [binary], each key named as its type, and a widget for it. *)
Definition typed_schema (t : string) : key_schema :=
  {| type_ := t; string_ := Some t; domain := None;
     selection := Some [(VStr "s", "Small")]; sorted := None; digits := None |}.

Definition typed_field : Field :=
  {| keys := list_to_map
       ((λ t, (t, typed_schema t)) <$>
        ["char"; "boolean"; "selection"; "datetime"; "date"; "integer"; "float";
         "numeric"; "binary"]) |}.

Definition typed_widget : DictWidget :=
  with_field (Some typed_field) (new_widget true true plain_alignment).

(** The sample widget once displayed: it has a row for the colour and one
    for the flag.  Then the same record comes back without its colour, or
    another record comes with a colour. *)
Definition shown_widget : DictWidget :=
  Eval vm_compute in (display sample_widget).2.

Definition later_record : Record_ :=
  {| id := 7; rvalue := {[ "flag" := VBool true ]} |}.

Definition later_widget : DictWidget :=
  with_record (Some later_record) shown_widget.

Definition other_record : Record_ :=
  {| id := 9; rvalue := {[ "colour" := VStr "blue" ]} |}.

Definition other_widget : DictWidget :=
  with_record (Some other_record) shown_widget.

(** The same host with a server that knows two keys by their ids: 1 is the
    size and 2 is the ratio. *)
Definition catalog_host : Host := {|
  pyson_domain := list string;
  locale_atoi := c_atoi ValueError;
  locale_atof := c_atoi ValueError;
  locale_atof_decimal := c_atoi InvalidOperation;
  locale_format_d v := match v with VInt n => Ok "0" | _ => Raise TypeError end;
  locale_format_f d v := match v with VInt n => Ok "0" | _ => Raise TypeError end;
  timezoned_date v := v;
  untimezoned_date v := v;
  str_lower s := s;
  decode s := if String.eqb s "[]" then [] else [s];
  eval_domain d value := forallb (λ k, truthy (default VNone (value !! k))) d;
  server_keys_by_name names := ∅;
  server_keys_by_id ids :=
    omap (λ i, if decide (i = 1) then Some ("size", size_schema)
               else if decide (i = 2) then Some ("ratio", ratio_schema)
               else None) ids;
  states_readonly record_id := false;
  py_float := c_float;
  py_eq := c_eq;
|}.

End Dictionary.

(** * trytond/tests/tools.py *)
Module Tools.

(** The calls [activate_modules] makes outside its module, in order. *)
Inductive event : Type :=
| RestoreDbCache (cache_name : string)
| DropCreate
| SetTrytond
| ModuleFind (names : list string)
| ModuleClickActivate (records : list Z)
| ActivateUpgrade
| SetupFunction (qualname : string)
| BackupDbCache (cache_name : string).

#[export] Instance event_eq_dec : EqDecision event.
Proof. solve_decision. Defined.

(** The first argument: one module name or a list of them. *)
Inductive modules_arg : Type :=
| Name (module : string)
| Names (modules : list string).

(** A value given as [setup_function]: a callable that has a
    [__qualname__], with the exception it raises when it does; a callable
    that has none, as a [functools.partial] or an instance with [__call__];
    or something that cannot be called. *)
Inductive py_object : Type :=
| Callable (__qualname__ : string) (raises : option exn)
| Unnamed (raises : option exn)
| NotCallable.

(** The configuration [pconfig.set_trytond()] returns: the number of calls
    made before it was created tells one configuration from another. *)
Record config : Type := { created_after : nat }.

(** [test_tryton] and [proteus] are not part of these sources: whether a
    cache can be restored, and the module records a search finds. *)
Class TestTryton : Type := {
  restore_db_cache : string → bool;
  module_find : list string → list Z;
}.

Section Tools.
Context `{TestTryton}.

(** State: the calls made so far. *)
Definition T (A : Type) : Type := list event → result A * list event.

#[export] Instance T_ret : MRet T := λ A a tr, (Ok a, tr).
#[export] Instance T_bind : MBind T := λ A B k m tr,
  match m tr with
  | (Ok a, tr') => k a tr'
  | (Raise e, tr') => (Raise e, tr')
  end.

Definition emit (e : event) : T unit := λ tr, (Ok tt, tr ++ [e]).
Definition throw {A} (e : exn) : T A := λ tr, (Raise e, tr).
Definition assert (b : bool) : T unit := if b then mret tt else throw AssertionError.

(** [callable(setup_function)] *)
Definition callable (setup_function : option py_object) : bool :=
  match setup_function with
  | Some (Callable _ _) | Some (Unnamed _) => true
  | _ => false
  end.

(** [setup_function] is [None] or a callable with a [__qualname__]: the
    values the first lines of [activate_modules] compute a cache name for. *)
Definition named (setup_function : option py_object) : Prop :=
  match setup_function with
  | None | Some (Callable _ _) => True
  | _ => False
  end.

(** [_get_config] *)
Definition _get_config : T config :=
  λ tr, (Ok {| created_after := List.length tr |}, tr ++ [SetTrytond]).

(** The name of the cache, as the first lines of [activate_modules] compute
    it; an empty [cache_file_name] is falsy.  For a callable without a
    [__qualname__] no name is computed: [activate_modules] raises where it
    reads the [__qualname__]. *)
Definition as_list (modules : modules_arg) : list string :=
  match modules with
  | Name m => [m]
  | Names l => l
  end.

Definition cache_name_of (modules : modules_arg)
    (setup_function : option py_object) (cache_file_name : option string) : string :=
  let modules := as_list modules in
  let cache_name :=
    match cache_file_name with
    | Some n => if String.eqb n "" then String.concat "-" modules else n
    | None => String.concat "-" modules
    end in
  match setup_function with
  | Some (Callable qualname _) => cache_name +:+ "-" +:+ qualname
  | _ => cache_name
  end.

(** [setup_function.__qualname__], read when the function is callable: a
    callable without one raises [AttributeError]. *)
Definition read_qualname (setup_function : option py_object) : T unit :=
  match setup_function with
  | Some (Unnamed _) => throw AttributeError
  | _ => mret tt
  end.

(** [setup_function(cfg)], when the function is callable; a callable
    without a [__qualname__] never gets here. *)
Definition call_setup (setup_function : option py_object) : T unit :=
  match setup_function with
  | Some (Callable qualname raises) =>
      emit (SetupFunction qualname);;
      match raises with
      | Some e => throw e
      | None => mret tt
      end
  | _ => mret tt
  end.

(** [activate_modules] *)
Definition activate_modules (modules : modules_arg)
    (setup_function : option py_object) (cache_file_name : option string) : T config :=
  let cache_name := cache_name_of modules setup_function cache_file_name in
  let modules := as_list modules in
  assert (bool_decide (setup_function = None) || callable setup_function);;
  read_qualname setup_function;;
  emit (RestoreDbCache cache_name);;
  if restore_db_cache cache_name then _get_config
  else
    emit DropCreate;;
    cfg ← _get_config;
    emit (ModuleFind modules);;
    let records := module_find modules in
    assert (List.length records =? List.length modules)%nat;;
    emit (ModuleClickActivate records);;
    emit ActivateUpgrade;;
    call_setup setup_function;;
    emit (BackupDbCache cache_name);;
    mret cfg.

(** The base of the cache name: [cache_file_name or '-'.join(modules)]. *)
Definition base_name (modules : modules_arg) (cache_file_name : option string) : string :=
  match cache_file_name with
  | Some n => if String.eqb n "" then String.concat "-" (as_list modules) else n
  | None => String.concat "-" (as_list modules)
  end.

(** The call of the setup function, when there is one. *)
Definition setup_events (setup_function : option py_object) : list event :=
  match setup_function with
  | Some (Callable qualname _) => [SetupFunction qualname]
  | _ => []
  end.

(** Whether the setup function, when there is one, returns. *)
Definition setup_returns (setup_function : option py_object) : bool :=
  match setup_function with
  | Some (Callable _ (Some _)) => false
  | _ => true
  end.

(** The calls that rebuild the database and fill the cache. *)
Definition rebuilds (e : event) : bool :=
  match e with
  | DropCreate | ModuleFind _ | ModuleClickActivate _ | ActivateUpgrade
  | SetupFunction _ | BackupDbCache _ => true
  | RestoreDbCache _ | SetTrytond => false
  end.

End Tools.

(** A test environment with one cache, that of module [ir] alone. *)
#[export] Instance one_cache : TestTryton := {|
  restore_db_cache n := String.eqb n "ir";
  module_find names := seqZ 1 (Z.of_nat (List.length names));
|}.

End Tools.



(** * Properties of product.py *)
Module ProductFacts.
Import Product.

Lemma strip5_account (k : account_kind) :
  strip5 (account_used_name k) =
  match k with Expense => "account_expense" | Revenue => "account_revenue" end.
Proof. by destruct k. Qed.

Lemma strip5_taxes (k : tax_kind) :
  strip5 (taxes_used_name k) =
  match k with Customer => "customer_taxes" | Supplier => "supplier_taxes" end.
Proof. by destruct k. Qed.

Lemma template_account_kind k p :
  template_account p (strip5 (account_used_name k)) = Ok (local_account k p).
Proof. by destruct k. Qed.

Lemma category_account_kind k p :
  category_account (category p) (strip5 (account_used_name k)) = Ok (parent_account k p).
Proof. by destruct k. Qed.

(** One turn of the loop: the local account when there is one, else the
    account of the category, else the error. *)
Lemma get_account_step_kind k p res :
  get_account_step (strip5 (account_used_name k)) p res =
  match local_account k p with
  | Some a => Ok (<[id p := a]> res)
  | None =>
      match parent_account k p with
      | Some a => Ok (<[id p := a]> res)
      | None => Raise (missing_account_error p)
      end
  end.
Proof.
  unfold get_account_step.
  rewrite template_account_kind, category_account_kind.
  destruct (local_account k p), (parent_account k p); done.
Qed.

Lemma get_account_step_missing k p res :
  get_account_step (strip5 (account_used_name k)) p res =
  if missing_account k p then Raise (missing_account_error p)
  else Ok (<[id p := default 0 (from_option Some (parent_account k p) (local_account k p))]> res).
Proof.
  rewrite get_account_step_kind. unfold missing_account.
  destruct (local_account k p), (parent_account k p); done.
Qed.

(** The loop raises exactly when some product misses the account, and then
    for the first such product. *)
Lemma get_account_loop_raises k products res :
  (∃ e, get_account_loop (strip5 (account_used_name k)) products res = Raise e)
  ↔ ∃ p, p ∈ products ∧ missing_account k p = true.
Proof.
  revert res. induction products as [|p ps IH]; intros res; simpl.
  - split; [intros [e ?]; done | intros (p & Hp & _); by apply elem_of_nil in Hp].
  - rewrite get_account_step_missing.
    destruct (missing_account k p) eqn:Hm.
    + split; [intros _; exists p; split; [left|done] | eauto].
    + rewrite IH. split.
      * intros (q & Hq & ?). exists q. split; [by right|done].
      * intros (q & Hq & Hq'). apply elem_of_cons in Hq as [->|Hq]; [congruence|eauto].
Qed.

Lemma get_account_loop_error k products res e :
  get_account_loop (strip5 (account_used_name k)) products res = Raise e →
  ∃ p, p ∈ products ∧ missing_account k p = true ∧ e = missing_account_error p.
Proof.
  revert res. induction products as [|p ps IH]; intros res; simpl; [done|].
  rewrite get_account_step_missing.
  destruct (missing_account k p) eqn:Hm.
  - intros [= <-]. exists p. split; [left|done].
  - intros (q & Hq & ?)%IH. exists q. split; [by right|done].
Qed.

Lemma get_taxes_step_kind k p res :
  get_taxes_step (strip5 (taxes_used_name k)) p res =
  Ok (<[id p := if taxes_category p then parent_taxes k p else local_taxes k p]> res).
Proof. unfold get_taxes_step. by destruct k, (taxes_category p). Qed.

Lemma get_taxes_loop_kind k products res :
  get_taxes_loop (strip5 (taxes_used_name k)) products res =
  Ok (foldl (λ res p, <[id p := if taxes_category p then parent_taxes k p
                                else local_taxes k p]> res) res products).
Proof.
  revert res. induction products as [|p ps IH]; intros res; simpl; [done|].
  by rewrite get_taxes_step_kind, IH.
Qed.

(** What [get_account] returns for any list of products: every product gets
    its own account when it has one and the account of its category when it
    has none, whatever its flag says. *)
Lemma get_account_loop_ok k products res res' :
  get_account_loop (strip5 (account_used_name k)) products res = Ok res' →
  res' = foldl (λ res p, <[id p := default 0 (from_option Some (parent_account k p)
                                                          (local_account k p))]> res)
               res products.
Proof.
  revert res. induction products as [|p ps IH]; intros res; simpl; [congruence|].
  rewrite get_account_step_missing. destruct (missing_account k p); [done|].
  apply IH.
Qed.

(** C1 (the code departs from the rule): for a template that has its own
    expense account 10 and is flagged to use the accounts of its category,
    whose expense account is 20, [get_account] resolves
    [account_expense_used] to 10, where the rule of the specification, and
    the help of the flag, give 20. *)
Theorem get_account_ignores_account_category :
  account_category flagged_template = true ∧
  local_account Expense flagged_template = Some 10 ∧
  parent_account Expense flagged_template = Some 20 ∧
  spec_account Expense flagged_template = Some 20 ∧
  get_account [flagged_template] (account_used_name Expense) = Ok {[ 1 := 10 ]}.
Proof. repeat split. Qed.

(** C2 (as stated, refuted): it is not the case that every template gets the
    taxes of its category whenever its own list is empty: a template that is
    not flagged and has no customer tax gets no customer tax, although its
    category has one. *)
Lemma get_taxes_no_fallback_on_empty :
  ¬ ∀ (k : tax_kind) (p : Template),
      get_taxes [p] (taxes_used_name k) = Ok {[ id p := spec_taxes k p ]}.
Proof.
  intros Hspec. specialize (Hspec Customer flagged_template).
  vm_compute in Hspec. discriminate Hspec.
Qed.

(** C2 (amended): [get_taxes] never raises on the two tax fields, and every
    template gets the tax list of its category when its flag
    [taxes_category] is set and its own tax list, empty or not, when the
    flag is not set. *)
Theorem get_taxes_follows_flag (k : tax_kind) (products : list Template) :
  get_taxes products (taxes_used_name k) =
    Ok (foldl (λ res p, <[id p := if taxes_category p then parent_taxes k p
                                  else local_taxes k p]> res) ∅ products)
  ∧ ∀ p : Template,
      get_taxes [p] (taxes_used_name k) =
        Ok {[ id p := if taxes_category p then parent_taxes k p
                      else local_taxes k p ]}.
Proof.
  unfold get_taxes. split; [apply get_taxes_loop_kind|].
  intros p. by rewrite get_taxes_loop_kind.
Qed.

(** C3: resolving [account_expense_used] or [account_revenue_used] raises
    exactly when some browsed product has neither an account of its own nor
    one on its category; what is raised is the user error with the message
    [missing_account], carrying the name and the id of such a product, and
    then no result at all is returned; for one product the call returns its
    account otherwise; and [missing_account] is the only message the model
    defines. *)
Theorem get_account_missing_account (k : account_kind) (products : list Template) :
  ((∃ e, get_account products (account_used_name k) = Raise e) ↔
   ∃ p, p ∈ products ∧ local_account k p = None ∧ parent_account k p = None)
  ∧ (∀ e, get_account products (account_used_name k) = Raise e →
       ∃ p, p ∈ products ∧ local_account k p = None ∧ parent_account k p = None ∧
            e = UserError
                  "There is no account expense/revenue defined on the product %s (%d)"
                  (name p, id p))
  ∧ (∀ p, get_account [p] (account_used_name k) =
          match local_account k p, parent_account k p with
          | Some a, _ => Ok {[ id p := a ]}
          | None, Some a => Ok {[ id p := a ]}
          | None, None => Raise (missing_account_error p)
          end)
  ∧ _error_messages.*1 = ["missing_account"].
Proof.
  assert (Hm : ∀ p, missing_account k p = true ↔
                    local_account k p = None ∧ parent_account k p = None).
  { intros p. unfold missing_account.
    destruct (local_account k p), (parent_account k p);
      (split; [done | by intros []]) || (split; done). }
  unfold get_account. split_and!.
  - split.
    + intros (p & ? & ?%Hm)%get_account_loop_raises. by exists p.
    + intros (p & ? & Hp). apply get_account_loop_raises. exists p.
      split; [done | by apply Hm].
  - intros e (p & ? & Hp%Hm & ->)%get_account_loop_error. exists p.
    destruct Hp. done.
  - intros p. simpl. rewrite get_account_step_kind.
    destruct (local_account k p), (parent_account k p); done.
  - done.
Qed.

(** A run of C3 on a list whose second product has no account at all. *)
Lemma get_account_missing_account_witness :
  get_account [flagged_template; bare_template] (account_used_name Revenue)
  = Raise (UserError
             "There is no account expense/revenue defined on the product %s (%d)"
             ("Bare", 2)).
Proof.
  destruct (get_account_missing_account Revenue [flagged_template; bare_template])
    as ([_ Hraise] & Herr & _).
  destruct Hraise as [e He].
  { exists bare_template. split; [set_solver|done]. }
  rewrite He. destruct (Herr e He) as (p & Hp & Hl & _ & ->).
  apply elem_of_cons in Hp as [->|Hp]; [done|].
  apply list_elem_of_singleton in Hp as ->. done.
Defined.

Section Migration.
Context `{TableHandler DB}.

Lemma calls_call (c : ddl) (cur : cursor DB) : calls (call c cur) = calls cur ++ [c].
Proof. done. Qed.

Lemma init_connect self module_name (db : DB) :
  init self module_name (connect db) =
  if column_exist db (_table self) "product" then
    {| database :=
         model_sql_init (_name self) module_name
           (column_rename (_table self) "product" "category"
              (drop_fk (_table self) "product"
                 (index_action_remove (_table self) "product" db)));
       calls := [IndexRemove (_table self) "product"; DropFk (_table self) "product";
                 ColumnRename (_table self) "product" "category";
                 SuperInit (_name self) module_name] |}
  else
    {| database := model_sql_init (_name self) module_name db;
       calls := [SuperInit (_name self) module_name] |}.
Proof. unfold init, connect. simpl. by destruct (column_exist db _ _). Qed.

(** C4: on either relation table, [init] removes the index of the column
    [product], drops its foreign key and renames it to [category], in this
    order and before the call of the parent class, exactly when the table
    has a column [product]; when it has none, the only call is that of the
    parent class; so a second run, on a database where the first run has
    left no column [product], makes the call of the parent class only. *)
Theorem init_renames_product_once (self : rel_model) (module_name : string) (db : DB) :
  let table := _table self in
  let cur := init self module_name (connect db) in
  calls cur =
    (if column_exist db table "product"
     then [IndexRemove table "product"; DropFk table "product";
           ColumnRename table "product" "category"]
     else []) ++ [SuperInit (_name self) module_name]
  ∧ database cur = foldl (λ db c, exec c db) db (calls cur)
  ∧ (ColumnRename table "product" "category" ∈ calls cur ↔
     column_exist db table "product" = true)
  ∧ (column_exist db table "product" = false →
     database cur = model_sql_init (_name self) module_name db)
  ∧ (column_exist (database cur) table "product" = false →
     let again := init self module_name (connect (database cur)) in
     calls again = [SuperInit (_name self) module_name] ∧
     database again = model_sql_init (_name self) module_name (database cur)).
Proof.
  intros table cur. subst cur table.
  split_and!.
  - rewrite init_connect. by destruct (column_exist db _ _).
  - rewrite init_connect. by destruct (column_exist db _ _).
  - rewrite init_connect. destruct (column_exist db _ _); simpl.
    + split; [done|]. intros _. do 2 right. left.
    + split; [|done]. intros Hin%list_elem_of_singleton. done.
  - intros Hno. by rewrite init_connect, Hno.
  - intros Hno again. subst again.
    rewrite (init_connect self module_name
               (database (init self module_name (connect db)))).
    by rewrite Hno.
Qed.

End Migration.

(** C4 on a database of version 1.6: the first run of the hook of the
    customer table renames the column, and the second run only makes the
    call of the parent class. *)
Lemma init_renames_product_once_witness :
  let cur := init CategoryCustomerTax "account_product" (connect legacy_db) in
  column_exist legacy_db "product_category_customer_taxes_rel" "product" = true ∧
  column_exist (database cur) "product_category_customer_taxes_rel" "product" = false ∧
  calls (init CategoryCustomerTax "account_product" (connect (database cur)))
  = [SuperInit "product.category-customer-account.tax" "account_product"].
Proof.
  intros cur.
  assert (Hgone : column_exist (database cur)
                    (_table CategoryCustomerTax) "product" = false)
    by (vm_compute; reflexivity).
  split; [vm_compute; reflexivity|]. split; [exact Hgone|].
  destruct (init_renames_product_once CategoryCustomerTax "account_product" legacy_db)
    as (_ & _ & _ & _ & Hagain).
  exact (proj1 (Hagain Hgone)).
Defined.

End ProductFacts.

(** * Properties of trytond/tests/tools.py *)
Module ToolsFacts.
Import Tools.

Section Facts.
Context `{TestTryton}.

Ltac run := unfold mbind, mret, T_bind, T_ret, emit, throw, _get_config; simpl.

Lemma activate_modules_not_callable modules cache_file_name tr :
  activate_modules modules (Some NotCallable) cache_file_name tr = (Raise AssertionError, tr).
Proof. done. Qed.

Lemma activate_modules_unnamed modules raises cache_file_name tr :
  activate_modules modules (Some (Unnamed raises)) cache_file_name tr
  = (Raise AttributeError, tr).
Proof. done. Qed.

Lemma activate_modules_hit modules setup_function cache_file_name :
  named setup_function →
  restore_db_cache (cache_name_of modules setup_function cache_file_name) = true →
  activate_modules modules setup_function cache_file_name [] =
    (Ok {| created_after := 1 |},
     [RestoreDbCache (cache_name_of modules setup_function cache_file_name); SetTrytond]).
Proof.
  intros Hc Hhit. unfold activate_modules. cbv zeta. rewrite Hhit.
  generalize (cache_name_of modules setup_function cache_file_name). intros cn.
  by destruct setup_function as [[q r|r|]|].
Qed.

Lemma activate_modules_miss modules setup_function cache_file_name :
  named setup_function →
  restore_db_cache (cache_name_of modules setup_function cache_file_name) = false →
  let cache_name := cache_name_of modules setup_function cache_file_name in
  let names := as_list modules in
  let records := module_find names in
  activate_modules modules setup_function cache_file_name [] =
    if (List.length records =? List.length names)%nat then
      match setup_function with
      | Some (Callable q (Some e)) =>
          (Raise e,
           [RestoreDbCache cache_name; DropCreate; SetTrytond; ModuleFind names;
            ModuleClickActivate records; ActivateUpgrade; SetupFunction q])
      | _ =>
          (Ok {| created_after := 2 |},
           [RestoreDbCache cache_name; DropCreate; SetTrytond; ModuleFind names;
            ModuleClickActivate records; ActivateUpgrade]
           ++ setup_events setup_function ++ [BackupDbCache cache_name])
      end
    else
      (Raise AssertionError,
       [RestoreDbCache cache_name; DropCreate; SetTrytond; ModuleFind names]).
Proof.
  intros Hc Hmiss cache_name names records. unfold activate_modules.
  cbv zeta. rewrite Hmiss. subst cache_name. fold names. fold records.
  generalize (cache_name_of modules setup_function cache_file_name). intros cn.
  destruct setup_function as [[q [e|]|r|]|]; [| | done | done |]; run; unfold assert;
    destruct (List.length records =? List.length names)%nat; done.
Qed.

(** C10: the cache name is [cache_file_name], or the module names joined by
    ['-'], with ['-'] and the qualified name of the setup function appended
    when there is one; when the cache of that name can be restored,
    [activate_modules] returns the configuration after these two calls only,
    so without dropping the database, activating a module, calling the setup
    function or backing the cache up; any of these calls is made on a miss
    only; and on a miss, when every module is found and the setup function
    returns, all of them are made, the backup of the cache last, and the
    configuration is returned.  The setup function is [None] or a callable
    with a qualified name there; for a callable without one no name is
    computed, and [activate_modules] raises before any call. *)
Theorem activate_modules_restores_cache (modules : modules_arg)
    (setup_function : option py_object) (cache_file_name : option string) :
  let cache_name := cache_name_of modules setup_function cache_file_name in
  let names := as_list modules in
  let records := module_find names in
  let run := activate_modules modules setup_function cache_file_name [] in
  cache_name =
    match setup_function with
    | Some (Callable qualname _) =>
        base_name modules cache_file_name +:+ "-" +:+ qualname
    | _ => base_name modules cache_file_name
    end
  ∧ (named setup_function →
     restore_db_cache cache_name = true →
     run = (Ok {| created_after := 1 |}, [RestoreDbCache cache_name; SetTrytond]))
  ∧ (∀ e, e ∈ run.2 → rebuilds e = true → restore_db_cache cache_name = false)
  ∧ (named setup_function →
     restore_db_cache cache_name = false →
     List.length records = List.length names →
     setup_returns setup_function = true →
     run = (Ok {| created_after := 2 |},
            [RestoreDbCache cache_name; DropCreate; SetTrytond; ModuleFind names;
             ModuleClickActivate records; ActivateUpgrade]
            ++ setup_events setup_function ++ [BackupDbCache cache_name]))
  ∧ (∀ raises, setup_function = Some (Unnamed raises) →
     run = (Raise AttributeError, [])).
Proof.
  intros cache_name names records run. split_and!.
  - subst cache_name. unfold cache_name_of, base_name.
    by destruct setup_function as [[q r|r|]|].
  - intros Hc Hhit. by apply activate_modules_hit.
  - intros e He Hre.
    destruct (restore_db_cache cache_name) eqn:Hhit; [|done].
    destruct setup_function as [[q r|r|]|].
    + subst run cache_name. rewrite activate_modules_hit in He by done.
      simpl in He. apply elem_of_cons in He as [->|He]; [done|].
      apply list_elem_of_singleton in He as ->. done.
    + subst run. rewrite activate_modules_unnamed in He. by apply elem_of_nil in He.
    + subst run. rewrite activate_modules_not_callable in He.
      by apply elem_of_nil in He.
    + subst run cache_name. rewrite activate_modules_hit in He by done.
      simpl in He. apply elem_of_cons in He as [->|He]; [done|].
      apply list_elem_of_singleton in He as ->. done.
  - intros Hc Hmiss Hlen Hret. subst run.
    rewrite activate_modules_miss by done. fold names records cache_name.
    rewrite Hlen, Nat.eqb_refl.
    by destruct setup_function as [[q [e|]|r|]|].
  - intros raises ->. subst run. apply activate_modules_unnamed.
Qed.

End Facts.

(** C10 in the test environment with the cache of [ir] alone: activating
    [ir] restores it, activating [party] with a setup function rebuilds the
    database and backs the cache up. *)
Lemma activate_modules_restores_cache_witness :
  activate_modules (Name "ir") None None []
    = (Ok {| created_after := 1 |}, [RestoreDbCache "ir"; SetTrytond])
  ∧ activate_modules (Names ["party"]) (Some (Callable "setup" None)) None []
    = (Ok {| created_after := 2 |},
       [RestoreDbCache "party-setup"; DropCreate; SetTrytond; ModuleFind ["party"];
        ModuleClickActivate [1]; ActivateUpgrade; SetupFunction "setup";
        BackupDbCache "party-setup"]).
Proof.
  split.
  - destruct (activate_modules_restores_cache (Name "ir") None None)
      as (_ & Hhit & _).
    apply Hhit; [exact I | reflexivity].
  - destruct (activate_modules_restores_cache (Names ["party"])
                (Some (Callable "setup" None)) None)
      as (_ & _ & _ & Hmiss & _).
    apply Hmiss; [exact I | reflexivity | reflexivity | reflexivity].
Defined.

End ToolsFacts.

(** * Properties of form_gtk/dictionary.py *)
Module DictionaryFacts.
Import Dictionary.

Section Entries.
Context `{PyNumbers} `{!Host}.

(** C9: when the parsers of the locale raise nothing but the error of an
    unparsable text ([ValueError] for [atoi] and [atof], and
    [decimal.InvalidOperation] for [atof] to [Decimal]), the three readers
    never raise on any text: they return [None] when the text is empty or
    the parser fails on it, and the number the parser returns otherwise. *)
Theorem numeric_get_value_total (txt_value : string) :
  (∀ e, locale_atoi txt_value = Raise e → e = ValueError) →
  (∀ e, locale_atof txt_value = Raise e → e = ValueError) →
  (∀ e, locale_atof_decimal txt_value = Raise e → e = InvalidOperation) →
  integer_get_value txt_value =
    Ok (if decide (txt_value = "") then None
        else match locale_atoi txt_value with Ok n => Some n | Raise _ => None end)
  ∧ float_get_value txt_value =
    Ok (if decide (txt_value = "") then None
        else match locale_atof txt_value with Ok f => Some f | Raise _ => None end)
  ∧ numeric_get_value txt_value =
    Ok (if decide (txt_value = "") then None
        else match locale_atof_decimal txt_value with Ok d => Some d | Raise _ => None end).
Proof.
  intros Hi Hf Hd.
  unfold integer_get_value, float_get_value, numeric_get_value.
  destruct (decide (txt_value = "")) as [->|Hne]; [done|].
  apply String.eqb_neq in Hne. rewrite Hne. simpl.
  split_and!.
  - destruct (locale_atoi txt_value) as [n|e] eqn:E; [done|]. by rewrite (Hi e).
  - destruct (locale_atof txt_value) as [n|e] eqn:E; [done|]. by rewrite (Hf e).
  - destruct (locale_atof_decimal txt_value) as [n|e] eqn:E; [done|]. by rewrite (Hd e).
Qed.

End Entries.

Lemma c_atoi_raises e s x : c_atoi e s = Raise x → x = e.
Proof. unfold c_atoi. destruct (parse_numeral s); congruence. Qed.

(** C9 in the C locale: a numeral is read, a word and the empty text give
    [None]. *)
Lemma numeric_get_value_total_witness :
  integer_get_value "42" = Ok (Some 42) ∧
  integer_get_value "" = Ok None ∧
  float_get_value "4x" = Ok None ∧
  numeric_get_value "forty" = Ok None.
Proof.
  pose proof (λ s, numeric_get_value_total s
                     (λ e, c_atoi_raises ValueError s e)
                     (λ e, c_atoi_raises ValueError s e)
                     (λ e, c_atoi_raises InvalidOperation s e)) as Hs.
  split_and!.
  - exact (proj1 (Hs "42")).
  - exact (proj1 (Hs "")).
  - exact (proj1 (proj2 (Hs "4x"))).
  - exact (proj2 (proj2 (Hs "forty"))).
Defined.

Section Widget.
Context `{PyNumbers} `{!Host}.

(** ** Running the monad *)

Lemma bind_run {A B} (m : M A) (k : A → M B) (w : DictWidget) :
  (m ≫= k) w =
  match m w with
  | (Ok a, w') => k a w'
  | (Raise e, w') => (Raise e, w')
  end.
Proof. done. Qed.

Lemma bind_ok {A B} (m : M A) (k : A → M B) (w w'' : DictWidget) (b : B) :
  (m ≫= k) w = (Ok b, w'') →
  ∃ a w', m w = (Ok a, w') ∧ k a w' = (Ok b, w'').
Proof.
  rewrite bind_run. destruct (m w) as [[a|e] w']; [eauto | done].
Qed.

(** An invariant of the body of a loop is an invariant of the loop. *)
Lemma for_each_invariant {B} (I : DictWidget → Prop) (l : list B)
    (body : B → M unit) (w : DictWidget) :
  I w → (∀ x w, x ∈ l → I w → I (body x w).2) → I (for_each l body w).2.
Proof.
  revert w. induction l as [|x l IH]; intros w Hw Hbody; simpl; [done|].
  rewrite bind_run. pose proof (Hbody x w (list_elem_of_here _ _) Hw) as Hx.
  destruct (body x w) as [[[]|e] w']; simpl in *; [|done].
  apply IH; [done|]. intros y w0 Hy. apply Hbody. by right.
Qed.

(** A loop that returns has run its body on every element, in order. *)
Lemma for_each_ok {B} (R : list B → DictWidget → Prop) (l : list B)
    (body : B → M unit) (w w' : DictWidget) :
  R [] w →
  (∀ done x rest w w',
     l = done ++ x :: rest → R done w → body x w = (Ok tt, w') → R (done ++ [x]) w') →
  for_each l body w = (Ok tt, w') → R l w'.
Proof.
  intros Hw Hbody.
  assert (Hgen : ∀ rest done w, l = done ++ rest → R done w →
                   for_each rest body w = (Ok tt, w') → R l w').
  { induction rest as [|x rest IH]; intros done w0 Hl Hdone; simpl.
    - intros [= <-]. by rewrite Hl, app_nil_r.
    - intros (u & w1 & Hx & Hrest)%bind_ok. destruct u.
      apply (IH (done ++ [x]) w1); [by rewrite <- app_assoc | by eauto | done]. }
  by apply (Hgen l []).
Qed.

(** A loop whose body returns on every state of an invariant returns. *)
Lemma for_each_total {B} (I : list B → DictWidget → Prop) (l : list B)
    (body : B → M unit) (w : DictWidget) :
  I l w →
  (∀ x l' w, I (x :: l') w → ∃ w', body x w = (Ok tt, w') ∧ I l' w') →
  ∃ w', for_each l body w = (Ok tt, w') ∧ I [] w'.
Proof.
  intros Hw Hbody. revert w Hw.
  induction l as [|x l IH]; intros w Hw; simpl; [eauto|].
  destruct (Hbody x l w Hw) as (w1 & Hx & Hw1).
  rewrite bind_run, Hx. by apply IH.
Qed.

(** ** The relations between states *)

Lemma same_view_refl (w : DictWidget) : same_view w w.
Proof. by repeat split. Qed.

Lemma same_view_trans (w1 w2 w3 : DictWidget) :
  same_view w1 w2 → same_view w2 w3 → same_view w1 w3.
Proof.
  unfold same_view. intros (?&?&?&?&?&?) (?&?&?&?&?&?).
  repeat split; congruence.
Qed.

Lemma removed_nil (w : DictWidget) : removed [] w w.
Proof.
  assert (Hk : ∀ {V} (m : gmap string V) k,
             m !! k = if decide (k ∈ @nil string) then None else m !! k).
  { intros V m k. case_decide as Hk; [by apply elem_of_nil in Hk | done]. }
  unfold removed. split_and!; [apply Hk | apply Hk | apply Hk | done |].
  apply same_view_refl.
Qed.

Lemma lookup_removed_app {V} (m1 m2 m3 : gmap string V) (l1 l2 : list string) :
  (∀ k, m2 !! k = if decide (k ∈ l1) then None else m1 !! k) →
  (∀ k, m3 !! k = if decide (k ∈ l2) then None else m2 !! k) →
  ∀ k, m3 !! k = if decide (k ∈ l1 ++ l2) then None else m1 !! k.
Proof.
  intros H1 H2 k. rewrite H2, H1.
  destruct (decide (k ∈ l2)) as [Hk2|Hk2], (decide (k ∈ l1)) as [Hk1|Hk1],
    (decide (k ∈ l1 ++ l2)) as [Hk|Hk]; try done;
    rewrite elem_of_app in Hk; tauto.
Qed.

Lemma dom_removed {V} (m m' : gmap string V) (l : list string) :
  (∀ k, m' !! k = if decide (k ∈ l) then None else m !! k) →
  dom m' = dom m ∖ list_to_set l.
Proof.
  intros Hm. apply set_eq. intros k.
  rewrite elem_of_difference, !elem_of_dom, elem_of_list_to_set, Hm.
  destruct (decide (k ∈ l)) as [Hk|Hk].
  - split; [by intros [? ?] | tauto].
  - tauto.
Qed.

Lemma removed_app (l1 l2 : list string) (w1 w2 w3 : DictWidget) :
  removed l1 w1 w2 → removed l2 w2 w3 → removed (l1 ++ l2) w1 w3.
Proof.
  intros (Hf1 & Hb1 & Hr1 & Hn1 & Hv1) (Hf2 & Hb2 & Hr2 & Hn2 & Hv2).
  unfold removed. split_and!.
  - by eapply lookup_removed_app.
  - by eapply lookup_removed_app.
  - by eapply lookup_removed_app.
  - congruence.
  - by eapply same_view_trans.
Qed.

Lemma removed_dom (l : list string) (w w' : DictWidget) :
  removed l w w' →
  dom (fields w') = dom (fields w) ∖ list_to_set l ∧
  dom (buttons w') = dom (buttons w) ∖ list_to_set l ∧
  dom (rows w') = dom (rows w) ∖ list_to_set l.
Proof.
  intros (Hf & Hb & Hr & _). split_and!; by apply dom_removed.
Qed.

Lemma removed_same_keys (l : list string) (w w' : DictWidget) :
  removed l w w' → same_keys w → same_keys w'.
Proof.
  intros (Hf & Hb & Hr)%removed_dom [Hfb Hfr].
  unfold same_keys. rewrite Hf, Hb, Hr. by rewrite <- Hfb, <- Hfr.
Qed.

Lemma for_each_table_remove (row : list nat) (w : DictWidget) :
  ∃ t, for_each row table_remove w = (Ok tt, with_table t w).
Proof.
  revert w. induction row as [|o row IH]; intros w; simpl.
  - exists (table w). by destruct w.
  - rewrite bind_run. unfold table_remove at 1, modify.
    destruct (IH (with_table
        {| n_rows := n_rows (table w);
           children := filter (λ c, c.1 ≠ o) (children (table w)) |} w)) as [t Ht].
    exists t. rewrite Ht. by destruct w.
Qed.

Lemma sig_remove_run (key : string) (modified : bool) (w : DictWidget) :
  ∃ t,
  _sig_remove key modified w =
  match fields w !! key with
  | None => (Raise (KeyError key), w)
  | Some _ =>
      let w1 := with_fields (delete key (fields w)) w in
      match buttons w !! key with
      | None => (Raise (KeyError key), w1)
      | Some _ =>
          let w2 := with_buttons (delete key (buttons w)) w1 in
          match rows w !! key with
          | None => (Raise (KeyError key), w2)
          | Some row =>
              let w4 := with_rows (delete key (rows w)) (with_table t w2) in
              if modified then set_value w4 else (Ok tt, w4)
          end
      end
  end.
Proof.
  unfold _sig_remove, del_fields, del_buttons, del_rows, getitem, get, modify,
    mbind, M_bind, bind, raise, ret. simpl.
  destruct (fields w !! key) as [e|]; simpl; [|by exists (table w)].
  destruct (buttons w !! key) as [b|]; simpl; [|by exists (table w)].
  destruct (rows w !! key) as [row|] eqn:Hrow; simpl; [|by exists (table w)].
  destruct (for_each_table_remove row
     (with_buttons (delete key (buttons w)) (with_fields (delete key (fields w)) w)))
    as [t Ht]. exists t. rewrite Ht. simpl. rewrite Hrow.
  destruct modified; reflexivity.
Qed.

Lemma get_value_run (w : DictWidget) : (get_value w).2 = w.
Proof. done. Qed.

Lemma set_value_run (w : DictWidget) :
  ∃ rc, (set_value w).2 = with_record rc w.
Proof.
  unfold set_value, get_value, lift, get, modify, raise, mbind, M_bind, bind. simpl.
  destruct (field w); simpl; [|exists (record w); by destruct w].
  destruct (get_value_items _); simpl; [|exists (record w); by destruct w].
  destruct (record w) as [r|] eqn:Hr; simpl; [by eexists|].
  exists None. destruct w; simpl in *. by rewrite Hr.
Qed.

Lemma lookup_removed_one {V} (m : gmap string V) (key : string) :
  ∀ k, delete key m !! k = if decide (k ∈ [key]) then None else m !! k.
Proof.
  intros k. case_decide as Hk.
  - apply list_elem_of_singleton in Hk as ->. apply lookup_delete_eq.
  - apply lookup_delete_ne. intros ->. apply Hk. left.
Qed.

(** A removal that returns has removed the row of the key from the three
    maps. *)
Lemma sig_remove_ok (key : string) (w w' : DictWidget) :
  _sig_remove key false w = (Ok tt, w') → removed [key] w w'.
Proof.
  destruct (sig_remove_run key false w) as [t ->].
  destruct (fields w !! key); [|done].
  destruct (buttons w !! key); [|done].
  destruct (rows w !! key); [|done].
  intros [= <-]. unfold removed. simpl.
  split_and!; try apply lookup_removed_one; done.
Qed.

(** On the three maps with the same keys, removing a key that has a row
    returns. *)
Lemma sig_remove_total (key : string) (w : DictWidget) :
  same_keys w → key ∈ dom (fields w) →
  ∃ w', _sig_remove key false w = (Ok tt, w').
Proof.
  intros [Hb Hr] Hkey.
  destruct (sig_remove_run key false w) as [t ->].
  pose proof Hkey as Hkb. rewrite Hb in Hkb.
  pose proof Hkey as Hkr. rewrite Hr in Hkr.
  apply elem_of_dom in Hkey as [? ->], Hkb as [? ->], Hkr as [? ->].
  eauto.
Qed.

(** Whatever it does, a removal leaves the three maps with the same keys. *)
Lemma sig_remove_same_keys (key : string) (modified : bool) (w : DictWidget) :
  same_keys w → same_keys (_sig_remove key modified w).2.
Proof.
  intros Hw. pose proof Hw as [Hb Hr].
  destruct (sig_remove_run key modified w) as [t ->].
  destruct (fields w !! key) as [e|] eqn:He; [|done].
  assert (key ∈ dom (fields w)) as Hkey by (apply elem_of_dom; eauto).
  pose proof Hkey as Hkb. rewrite Hb in Hkb.
  pose proof Hkey as Hkr. rewrite Hr in Hkr.
  apply elem_of_dom in Hkb as [? ->], Hkr as [? ->]. cbv zeta.
  assert (same_keys (with_rows (delete key (rows w))
            (with_table t (with_buttons (delete key (buttons w))
               (with_fields (delete key (fields w)) w))))) as Hsame.
  { unfold same_keys. simpl. rewrite !dom_delete_L. by rewrite <- Hb, <- Hr. }
  destruct modified; [|done].
  destruct (set_value_run (with_rows (delete key (rows w))
            (with_table t (with_buttons (delete key (buttons w))
               (with_fields (delete key (fields w)) w))))) as [rc ->].
  exact Hsame.
Qed.

Lemma remove_loop_ok (l : list string) (w w' : DictWidget) :
  for_each l (λ key, _sig_remove key false) w = (Ok tt, w') → removed l w w'.
Proof.
  apply (for_each_ok (λ done w', removed done w w')).
  - apply removed_nil.
  - intros done x rest w1 w2 _ Hdone Hx%sig_remove_ok. by eapply removed_app.
Qed.

Lemma remove_loop_same_keys (l : list string) (w : DictWidget) :
  same_keys w → same_keys (for_each l (λ key, _sig_remove key false) w).2.
Proof.
  intros Hw. apply for_each_invariant; [done|].
  intros x w0 _. apply sig_remove_same_keys.
Qed.

Lemma remove_loop_total (l : list string) (w : DictWidget) :
  same_keys w → NoDup l → (∀ k, k ∈ l → k ∈ dom (fields w)) →
  ∃ w', for_each l (λ key, _sig_remove key false) w = (Ok tt, w').
Proof.
  intros Hw Hl Hin.
  destruct (for_each_total
    (λ l w, same_keys w ∧ NoDup l ∧ ∀ k, k ∈ l → k ∈ dom (fields w))
    l (λ key, _sig_remove key false) w) as (w' & Hw' & _); [done| |eauto].
  intros x l' w0 (Hs & Hnd & Hdom).
  destruct (sig_remove_total x w0 Hs) as [w1 Hw1]; [apply Hdom; left|].
  exists w1. split; [done|]. pose proof (sig_remove_ok _ _ _ Hw1) as Hrem.
  apply NoDup_cons in Hnd as [Hx Hnd].
  split_and!; [by eapply removed_same_keys | done |].
  intros k Hk. destruct (removed_dom _ _ _ Hrem) as [-> _].
  apply elem_of_difference. split; [apply Hdom; by right|].
  rewrite elem_of_list_to_set. intros ->%list_elem_of_singleton. done.
Qed.

Lemma set_button_sensitive_run (w : DictWidget) :
  _set_button_sensitive w =
  (Ok tt,
   with_buttons
     ((λ b, {| but_id := but_id b;
               but_sensitive := negb (_readonly w) && attrs_delete w |})
      <$> buttons w)
     (with_but_add {| but_id := but_id (but_add w);
                      but_sensitive := negb (_readonly w) && attrs_create w |} w)).
Proof. done. Qed.

Lemma readonly_set_run (readonly : bool) (w : DictWidget) :
  ∃ w', _readonly_set readonly w = (Ok tt, w') ∧
    fields w' = entry_set_readonly readonly <$> fields w ∧
    dom (buttons w') = dom (buttons w) ∧
    rows w' = rows w ∧
    next_object w' = next_object w ∧
    field w' = field w ∧ record w' = record w ∧
    _record_id w' = _record_id w.
Proof.
  eexists. split; [reflexivity|]. simpl. split_and!; try done.
  apply dom_fmap_L.
Qed.

(** What [create_widget] leaves of a definition: everything but the order
    of its selection. *)
Lemma create_widget_definition (c : entry_class) (d d' : key_schema)
    (g : gtk_widget) (sel : list (string * pyval)) :
  create_widget c d = Ok (g, sel, d') →
  type_ d' = type_ d ∧ string_ d' = string_ d ∧ domain d' = domain d ∧
  sorted d' = sorted d ∧ digits d' = digits d ∧
  (c ≠ DictSelectionEntry → d' = d).
Proof.
  unfold create_widget. destruct c; try (by intros [= <- <- <-]).
  destruct (selection d); [|done]. by intros [= <- <- <-].
Qed.

Lemma new_entry_ok (c : entry_class) (key : string)
    (ks : gmap string key_schema) (e : entry) :
  new_entry c key ks = Ok e →
  cls e = c ∧ name e = key ∧
  ∃ d, ks !! key = Some d ∧
       create_widget c d = Ok (widget e, _selection e, definition e).
Proof.
  unfold new_entry. destruct (ks !! key) as [d|]; [|done].
  destruct (create_widget c d) as [[[g sel] d']|] eqn:Hc; [|done].
  intros [= <-]. simpl. eauto.
Qed.

Lemma add_line_spec (key : string) (w : DictWidget) :
  match field w with
  | None => add_line key w = (Raise AttributeError, w)
  | Some f =>
      match keys f !! key with
      | None => add_line key w = (Raise (KeyError key), w)
      | Some ks =>
          match dict_entries_getitem (type_ ks) with
          | Raise x => add_line key w = (Raise x, w)
          | Ok c =>
              match new_entry c key (keys f) with
              | Raise x => add_line key w = (Raise x, w)
              | Ok e =>
                  match gtk_alignment (attrs_align w) with
                  | Raise x =>
                      ∃ w', add_line key w = (Raise x, w') ∧ stored key e w w'
                  | Ok _ =>
                      match schema_string ks with
                      | Raise x =>
                          ∃ w', add_line key w = (Raise x, w') ∧ stored key e w w'
                      | Ok _ =>
                          ∃ w', add_line key w = (Ok tt, w') ∧ added key e w w'
                      end
                  end
              end
          end
      end
  end.
Proof.
  unfold add_line, field_keys, getitem, lift, new_object, table_attach, get,
    modify, raise, mbind, M_bind, bind, ret. simpl.
  destruct (field w) as [f|]; simpl; [|done].
  destruct (keys f !! key) as [ks|]; simpl; [|done].
  destruct (dict_entries_getitem (type_ ks)) as [c|x]; simpl; [|done].
  destruct (new_entry c key (keys f)) as [e|x]; simpl; [|done].
  destruct (gtk_alignment (attrs_align w)) as [[]|x]; simpl.
  - destruct (schema_string ks) as [s|x]; simpl.
    + eexists. split; [reflexivity|]. by repeat split.
    + eexists. split; [reflexivity|]. unfold stored. simpl.
      split_and!; first [done | lia | by repeat split].
  - eexists. split; [reflexivity|]. unfold stored. simpl.
    split_and!; first [done | lia | by repeat split].
Qed.

(** Adding a line fails and leaves the widget as it is, or fails with the
    entry stored and no row, or returns with a row for the key in each of
    the three maps. *)
Lemma add_line_cases (key : string) (w : DictWidget) :
  (∃ x, add_line key w = (Raise x, w)) ∨
  (∃ x e w', add_line key w = (Raise x, w') ∧ stored key e w w') ∨
  (∃ e w', add_line key w = (Ok tt, w') ∧ added key e w w').
Proof.
  pose proof (add_line_spec key w) as Hs.
  destruct (field w) as [f|]; [|eauto].
  destruct (keys f !! key) as [ks|]; [|eauto].
  destruct (dict_entries_getitem (type_ ks)) as [c|x]; [|eauto].
  destruct (new_entry c key (keys f)) as [e|x]; [|eauto].
  destruct (gtk_alignment (attrs_align w)) as [[]|x].
  - destruct (schema_string ks) as [s|x]; destruct Hs as (w' & ? & ?).
    + right. right. eauto.
    + right. left. eauto.
  - destruct Hs as (w' & ? & ?). right. left. eauto.
Qed.

(** A call of [add_line] that returns has added a row. *)
Lemma add_line_ok (key : string) (w w' : DictWidget) :
  add_line key w = (Ok tt, w') → ∃ e, added key e w w'.
Proof.
  destruct (add_line_cases key w)
    as [[x ->]|[(x & e & w1 & -> & _)|(e & w1 & -> & Hadd)]]; [done | done |].
  intros [= <-]. eauto.
Qed.

Lemma added_same_keys (key : string) (e : entry) (w w' : DictWidget) :
  added key e w w' → same_keys w → same_keys w'.
Proof.
  intros (Hf & Hb & Hr & _) [Hfb Hfr]. unfold same_keys.
  rewrite Hf, Hb, Hr, !dom_insert_L. by rewrite <- Hfb, <- Hfr.
Qed.

Lemma add_line_same_keys (key : string) (w w' : DictWidget) :
  add_line key w = (Ok tt, w') → same_keys w → same_keys w'.
Proof. intros [e Hadd]%add_line_ok. by eapply added_same_keys. Qed.

Lemma entry_set_readonly_style (readonly : bool) (e : entry) :
  style_classes (widget (entry_set_readonly readonly e)) = style_classes (widget e)
  ∧ cls (entry_set_readonly readonly e) = cls e
  ∧ definition (entry_set_readonly readonly e) = definition e.
Proof.
  unfold entry_set_readonly. destruct (cls e) eqn:Hc; simpl; by rewrite ?Hc.
Qed.

Lemma entry_set_value_cls (has_record : bool) (value : pyval) (e e' : entry) :
  entry_set_value has_record value e = Ok e' →
  cls e' = cls e ∧ definition e' = definition e ∧ name e' = name e.
Proof.
  unfold entry_set_value.
  destruct (cls e) eqn:Hc;
    repeat match goal with
    | |- context [match ?x with _ => _ end] => destruct x eqn:?
    end; try done; by intros [= <-].
Qed.

Lemma widget_class_invalid (g : gtk_widget) (cond : bool) :
  "invalid" ∈ style_classes (widget_class g "invalid" cond) ↔ cond = true.
Proof.
  unfold widget_class. simpl. destruct cond.
  - split; [done|]. intros _. apply elem_of_union_l. by apply elem_of_singleton.
  - split; [|done]. intros [_ Hn]%elem_of_difference. exfalso. apply Hn.
    by apply elem_of_singleton.
Qed.

(** The end of a turn of the first loop, for a key that has a row. *)
Lemma display_entry_spec (value : gmap string pyval) (key : string) (val : pyval)
    (w : DictWidget) (f : Field) (ks : key_schema) (e0 : entry) :
  field w = Some f → keys f !! key = Some ks → fields w !! key = Some e0 →
  (∃ x, display_entry value key val w = (Raise x, w)) ∨
  (∃ e w', display_entry value key val w = (Ok tt, w') ∧ updated key e w w' ∧
           cls e = cls e0 ∧
           (marked_invalid e ↔ eval_domain (key_domain ks) value = false)).
Proof.
  intros Hf Hks He0.
  unfold display_entry, field_keys, getitem, lift, get, modify, raise,
    mbind, M_bind, bind, ret. simpl. rewrite He0. simpl.
  destruct (entry_set_value _ val e0) as [e1|x] eqn:Hset; simpl; [|eauto].
  rewrite Hf. simpl. rewrite Hks. simpl.
  right. eexists _, _. split; [reflexivity|]. split_and!.
  - unfold updated. simpl. rewrite !insert_insert_eq. by repeat split.
  - simpl. destruct (entry_set_readonly_style (_readonly w) e1) as (_ & -> & _).
    by apply entry_set_value_cls in Hset as [-> _].
  - unfold marked_invalid. etransitivity; [apply widget_class_invalid|].
    unfold key_domain. by destruct (eval_domain _ value).
Qed.

Lemma updated_same_keys (key : string) (e : entry) (w w' : DictWidget) :
  updated key e w w' → is_Some (fields w !! key) → same_keys w → same_keys w'.
Proof.
  intros (Hf & Hb & Hr & _) Hkey%elem_of_dom [Hfb Hfr]. unfold same_keys.
  rewrite Hf, Hb, Hr, dom_insert_L.
  replace ({[key]} ∪ dom (fields w)) with (dom (fields w)); [done|].
  apply set_eq. intros k. rewrite elem_of_union, elem_of_singleton.
  split; [tauto | by intros [->|]].
Qed.

Lemma ensured_same_keys (key : string) (w w' : DictWidget) :
  ensured key w w' → same_keys w → same_keys w'.
Proof.
  intros [[_ ->]|(_ & e & Hadd)]; [done | by eapply added_same_keys].
Qed.

Lemma ensured_lookup (key : string) (w w' : DictWidget) :
  ensured key w w' → is_Some (fields w' !! key) ∧ same_view w w'.
Proof.
  intros [[? ->]|(_ & e & Hf & _ & _ & _ & Hv)].
  - split; [done | apply same_view_refl].
  - split; [|done]. rewrite Hf, lookup_insert_eq. eauto.
Qed.

Lemma display_item_run (value : gmap string pyval) (key : string) (val : pyval)
    (w : DictWidget) (f : Field) :
  field w = Some f →
  display_item value (key, val) w =
  match keys f !! key with
  | None => (Ok tt, w)
  | Some _ =>
      match (match fields w !! key with
             | Some _ => (Ok tt, w)
             | None => add_line key w
             end) with
      | (Ok _, w1) => display_entry value key val w1
      | (Raise x, w1) => (Raise x, w1)
      end
  end.
Proof.
  intros Hf. unfold display_item, field_keys, get, mbind, M_bind, bind, ret.
  rewrite Hf. destruct (keys f !! key); [|done].
  by destruct (fields w !! key).
Qed.

(** What one turn of the first loop of [display] does, for a key of the
    schema: it makes sure the key has a row, then sets the value, the
    read-only state and the style class of its entry; when it raises, the
    widget is left with the row it may have added. *)
Lemma display_item_spec (value : gmap string pyval) (key : string) (val : pyval)
    (w : DictWidget) (f : Field) :
  field w = Some f →
  match keys f !! key with
  | None => display_item value (key, val) w = (Ok tt, w)
  | Some ks =>
      (∃ x w1, display_item value (key, val) w = (Raise x, w1) ∧
               (w1 = w ∨ ensured key w w1 ∨ ∃ e, stored key e w w1))
      ∨
      (∃ w1 e w', display_item value (key, val) w = (Ok tt, w') ∧
                  ensured key w w1 ∧ updated key e w1 w' ∧
                  (marked_invalid e ↔ eval_domain (key_domain ks) value = false))
  end.
Proof.
  intros Hf. rewrite (display_item_run value key val w f Hf).
  destruct (keys f !! key) as [ks|] eqn:Hks; [|done].
  destruct (fields w !! key) as [e0|] eqn:He0.
  - destruct (display_entry_spec value key val w f ks e0 Hf Hks He0)
      as [[x ->]|(e & w' & -> & Hup & _ & Hinv)].
    + left. eauto.
    + right. exists w, e, w'. split_and!; try done. left. eauto.
  - destruct (add_line_cases key w)
      as [[x ->]|[(x & e0 & w1 & -> & Hst)|(e0 & w1 & -> & Hadd)]].
    + left. eauto.
    + left. exists x, w1. split; [done|]. right. right. eauto.
    + assert (ensured key w w1) as Hens by (right; eauto).
      destruct Hadd as (Hf1 & _ & _ & _ & Hv1 & _).
      destruct (display_entry_spec value key val w1 f ks e0)
        as [[x ->]|(e & w' & -> & Hup & _ & Hinv)].
      * congruence.
      * done.
      * rewrite Hf1. apply lookup_insert_eq.
      * left. exists x, w1. split; [done|]. right. by left.
      * right. by exists w1, e, w'.
Qed.

(** A turn of the first loop that returns leaves the three maps with the
    same keys. *)
Lemma display_item_same_keys (value : gmap string pyval) (item : string * pyval)
    (w w' : DictWidget) :
  display_item value item w = (Ok tt, w') → same_keys w → same_keys w'.
Proof.
  intros Hrun Hw. destruct item as [key val].
  destruct (field w) as [f|] eqn:Hf.
  - pose proof (display_item_spec value key val w f Hf) as Hs.
    destruct (keys f !! key) as [ks|]; [|by replace w' with w by congruence].
    destruct Hs as [(x & w1 & Hx & _)|(w1 & e & w2 & Hok & Hens & Hup & _)];
      [congruence|].
    replace w' with w2 by congruence.
    eapply updated_same_keys; [done | |by eapply ensured_same_keys].
    by apply ensured_lookup in Hens as [? _].
  - revert Hrun. unfold display_item, field_keys, get, mbind, M_bind, bind, raise.
    by rewrite Hf.
Qed.

Lemma ensured_effect (key : string) (w w' : DictWidget) :
  ensured key w w' →
  same_view w w' ∧
  (next_object w ≤ next_object w')%nat ∧
  is_Some (fields w' !! key) ∧
  dom (fields w') = {[key]} ∪ dom (fields w) ∧
  (∀ k, k ≠ key → fields w' !! k = fields w !! k ∧ rows w' !! k = rows w !! k) ∧
  (is_Some (fields w !! key) → rows w' !! key = rows w !! key) ∧
  (rows w' !! key = rows w !! key ∨ rows w' !! key = Some (new_row (next_object w))).
Proof.
  intros [[Hk ->]|(Hk & e & Hf & Hb & Hr & Hn & Hv)].
  - split_and!; [apply same_view_refl | done | done | | done | done | by left].
    apply elem_of_dom in Hk. apply set_eq. intros k.
    rewrite elem_of_union, elem_of_singleton. split; [tauto | by intros [->|]].
  - split_and!.
    + done.
    + lia.
    + rewrite Hf, lookup_insert_eq. eauto.
    + by rewrite Hf, dom_insert_L.
    + intros k Hne. by rewrite Hf, Hr, !lookup_insert_ne.
    + intros [? ?]. congruence.
    + right. by rewrite Hr, lookup_insert_eq.
Qed.

Lemma shown_nil (value : gmap string pyval) (ks : gmap string key_schema)
    (w : DictWidget) :
  shown value ks [] w w.
Proof.
  unfold shown. split_and!.
  - apply same_view_refl.
  - done.
  - apply set_eq. intros k.
    rewrite elem_of_union, elem_of_intersection, elem_of_list_to_set, elem_of_nil.
    tauto.
  - intros key d Hkey. by apply elem_of_nil in Hkey.
  - done.
  - intros key row Hrow. by left.
Qed.

Lemma shown_step (value : gmap string pyval) (f : Field) (done : list string)
    (key : string) (val : pyval) (w0 w w' : DictWidget) :
  field w0 = Some f → key ∉ done →
  shown value (keys f) done w0 w →
  display_item value (key, val) w = (Ok tt, w') →
  shown value (keys f) (done ++ [key]) w0 w'.
Proof.
  intros Hf0 Hnew (Hv & Hn & Hdom & Hinv & Hkept & Hrows) Hrun.
  assert (field w = Some f) as Hf by (destruct Hv as [-> _]; done).
  pose proof (display_item_spec value key val w f Hf) as Hs.
  destruct (keys f !! key) as [d|] eqn:Hd.
  - destruct Hs as [(x & w1 & Hx & _)|(w1 & e & w2 & Hok & Hens & Hup & Hmark)];
      [congruence|].
    assert (w2 = w') as -> by congruence.
    apply ensured_effect in Hens as (Hv1 & Hn1 & Hk1 & Hdom1 & Hother & Hold & Hrow1).
    destruct Hup as (Hf2 & _ & Hr2 & Hn2 & Hv2).
    unfold shown. split_and!.
    + eapply same_view_trans; [done|]. by eapply same_view_trans.
    + lia.
    + assert (key ∈ dom (keys f)) as Hkd by (apply elem_of_dom; eauto).
      rewrite Hf2, dom_insert_L, Hdom1, Hdom. apply set_eq. intros k.
      rewrite !elem_of_union, !elem_of_intersection, !elem_of_list_to_set,
        elem_of_app, list_elem_of_singleton, elem_of_singleton.
      split; [|tauto]. intros [->|[->|[?|[? ?]]]]; tauto.
    + intros k dk [Hk| ->%list_elem_of_singleton]%elem_of_app Hdk.
      * assert (k ≠ key) as Hne by (intros ->; done).
        rewrite Hf2, lookup_insert_ne by done.
        destruct (Hother k Hne) as [-> _]. by apply Hinv.
      * exists e. rewrite Hf2, lookup_insert_eq. split; [done|].
        by replace dk with d by congruence.
    + intros k Hk. rewrite Hr2.
      destruct (decide (k = key)) as [->|Hne].
      * rewrite <- (Hkept key Hk). apply Hold. apply elem_of_dom. rewrite Hdom.
        by apply elem_of_union_l.
      * destruct (Hother k Hne) as [_ ->]. by apply Hkept.
    + intros k row. rewrite Hr2. intros Hrow.
      destruct (decide (k = key)) as [->|Hne].
      * destruct Hrow1 as [Hsame|Hfresh].
        -- apply Hrows. by rewrite <- Hsame.
        -- right. exists (next_object w). split; [done|]. congruence.
      * destruct (Hother k Hne) as [_ Hk]. apply Hrows. by rewrite <- Hk.
  - assert (w' = w) as -> by congruence.
    unfold shown. split_and!; [done | done | | | done | done].
    + assert (key ∉ dom (keys f)) as Hkd by (by apply not_elem_of_dom).
      rewrite Hdom. f_equal. apply set_eq. intros k.
      rewrite !elem_of_intersection, !elem_of_list_to_set, elem_of_app,
        list_elem_of_singleton.
      split; [tauto|]. intros [[?| ->] ?]; [tauto | done].
    + intros k dk [Hk| ->%list_elem_of_singleton]%elem_of_app Hdk;
        [by apply Hinv | congruence].
Qed.

Lemma sorted_items_perm (value : gmap string pyval) :
  sorted_items value ≡ₚ map_to_list value.
Proof. apply merge_sort_Permutation. Qed.

Lemma sorted_items_NoDup (value : gmap string pyval) :
  NoDup (sorted_items value).*1.
Proof. rewrite sorted_items_perm. apply NoDup_fst_map_to_list. Qed.

Lemma sorted_items_keys (value : gmap string pyval) (key : string) :
  key ∈ (sorted_items value).*1 ↔ key ∈ dom value.
Proof.
  rewrite sorted_items_perm, elem_of_dom, list_elem_of_fmap. split.
  - intros ([k v] & -> & Hkv%elem_of_map_to_list). eauto.
  - intros [v Hv]. exists (key, v). split; [done|]. by apply elem_of_map_to_list.
Qed.

(** The first loop of [display], when it returns. *)
Lemma first_loop_ok (value : gmap string pyval) (f : Field) (w w' : DictWidget) :
  field w = Some f →
  for_each (sorted_items value) (display_item value) w = (Ok tt, w') →
  shown value (keys f) (sorted_items value).*1 w w'.
Proof.
  intros Hf.
  apply (for_each_ok (λ done w', shown value (keys f) done.*1 w w')).
  - apply shown_nil.
  - intros done [key val] rest w1 w2 Hl Hdone Hrun.
    rewrite fmap_app. simpl. eapply shown_step; [done| |done|done].
    pose proof (sorted_items_NoDup value) as Hnd.
    rewrite Hl, fmap_app in Hnd. apply NoDup_app in Hnd as (_ & Hnd & _).
    intros Hin. apply (Hnd key Hin). left.
Qed.

(** A loop that raises has raised in one of its turns, the turns before it
    having returned. *)
Lemma for_each_raise {B} (l : list B) (body : B → M unit) (w w' : DictWidget)
    (x : exn) :
  for_each l body w = (Raise x, w') →
  ∃ done item rest wa,
    l = done ++ item :: rest ∧ for_each done body w = (Ok tt, wa) ∧
    body item wa = (Raise x, w').
Proof.
  revert w. induction l as [|item l IH]; intros w; simpl; [done|].
  rewrite bind_run. destruct (body item w) as [[[]|e] w1] eqn:Hitem.
  - intros (done & item' & rest & wa & -> & Hdone & Hraise)%IH.
    exists (item :: done), item', rest, wa. split_and!; [done| |done].
    simpl. by rewrite bind_run, Hitem.
  - intros [= <- <-]. by exists [], item, l, w.
Qed.

Lemma bind_get_run {B} (k : DictWidget → M B) (w : DictWidget) :
  (get ≫= k) w = k w w.
Proof. done. Qed.

(** The first loop of [display], when it returns, leaves the three maps with
    the same keys. *)
Lemma first_loop_same_keys (value : gmap string pyval) (l : list (string * pyval))
    (w w' : DictWidget) :
  for_each l (display_item value) w = (Ok tt, w') → same_keys w → same_keys w'.
Proof.
  intros Hrun Hw. revert Hrun.
  apply (for_each_ok (λ _ w', same_keys w')); [done|].
  intros done x rest w1 w2 _ Hdone Hx. by eapply display_item_same_keys.
Qed.

Lemma with_field_id (w : DictWidget) (f : Field) :
  field w = Some f → with_field (Some {| keys := keys f |}) w = w.
Proof. intros Hf. destruct w, f. simpl in *. by rewrite Hf. Qed.

(** The steps of [display] on a widget with a field: the read-only state,
    the removal of every row when the id of the record has changed, the
    value and the schema, the first loop, the removal of the rows that the
    value no longer has, and the buttons. *)
Lemma display_run (w : DictWidget) (f : Field) :
  field w = Some f →
  ∃ w0, _readonly_set (states_readonly (id <$> record w)) w = (Ok tt, w0) ∧
  display w =
  match (if decide (id <$> record w ≠ _record_id w)
         then (for_each (map_to_list (fields w0)).*1 (λ key, _sig_remove key false) ≫=
               λ _, modify (with_record_id (id <$> record w))) w0
         else (Ok tt, w0)) with
  | (Raise x, w1) => (Raise x, w1)
  | (Ok _, w1) =>
      match record w with
      | None => (Raise AttributeError, w1)
      | Some r =>
          match for_each (sorted_items (rvalue r)) (display_item (rvalue r))
                  (with_field (Some {| keys := schema_after (rvalue r) (keys f) |}) w1)
          with
          | (Raise x, w2) => (Raise x, w2)
          | (Ok _, w2) =>
              match for_each (elements (dom (fields w2) ∖ dom (rvalue r)))
                      (λ key, _sig_remove key false) w2 with
              | (Raise x, w3) => (Raise x, w3)
              | (Ok _, w3) => _set_button_sensitive w3
              end
          end
      end
  end.
Proof.
  intros Hf.
  destruct (readonly_set_run (states_readonly (id <$> record w)) w)
    as (w0 & Hro & _ & _ & _ & _ & Hf0 & Hr0 & Hid0).
  exists w0. split; [done|].
  unfold display. rewrite bind_run. unfold super_display. rewrite bind_get_run, Hro.
  rewrite bind_get_run, Hf0, Hf, bind_run, Hr0, Hid0.
  assert (∀ w1, field w1 = Some f → record w1 = record w →
    (field_get_client ≫= λ value, field_keys ≫= λ ks,
       (if decide (dom value ∖ dom ks ≠ ∅)
        then field_add_keys (elements (dom value ∖ dom ks)) else ret tt) ≫= λ _,
       for_each (sorted_items value) (display_item value) ≫= λ _,
       get ≫= λ w, for_each (elements (dom (fields w) ∖ dom value))
                     (λ key, _sig_remove key false) ≫= λ _,
       _set_button_sensitive) w1 =
    match record w with
    | None => (Raise AttributeError, w1)
    | Some r =>
        match for_each (sorted_items (rvalue r)) (display_item (rvalue r))
                (with_field (Some {| keys := schema_after (rvalue r) (keys f) |}) w1)
        with
        | (Raise x, w2) => (Raise x, w2)
        | (Ok _, w2) =>
            match for_each (elements (dom (fields w2) ∖ dom (rvalue r)))
                    (λ key, _sig_remove key false) w2 with
            | (Raise x, w3) => (Raise x, w3)
            | (Ok _, w3) => _set_button_sensitive w3
            end
        end
    end) as Hrest.
  { intros w1 Hf1 Hr1. rewrite bind_run. unfold field_get_client at 1.
    rewrite bind_get_run, Hr1. destruct (record w) as [r|]; [|done].
    unfold ret at 1. rewrite bind_run. unfold field_keys at 1.
    rewrite bind_get_run, Hf1. unfold ret at 1. rewrite bind_run.
    assert ((if decide (dom (rvalue r) ∖ dom (keys f) ≠ ∅)
             then field_add_keys (elements (dom (rvalue r) ∖ dom (keys f)))
             else ret tt) w1 =
            (Ok tt, with_field (Some {| keys := schema_after (rvalue r) (keys f) |}) w1))
      as ->.
    { unfold schema_after. destruct (decide _).
      - unfold field_add_keys. by rewrite bind_get_run, Hf1.
      - unfold ret. by rewrite with_field_id. }
    rewrite bind_run.
    destruct (for_each (sorted_items (rvalue r)) _ _) as [[[]|x] w2]; [|done].
    rewrite bind_get_run, bind_run.
    by destruct (for_each (elements _) _ w2) as [[[]|x] w3]. }
  destruct (decide (id <$> record w ≠ _record_id w)) as [Hne|Heq].
  - rewrite (bind_run (for_each _ _)).
    destruct (for_each (map_to_list (fields w0)).*1 _ w0) as [[[]|x] wr] eqn:Hloop;
      [|done].
    unfold modify at 1.
    pose proof (remove_loop_ok _ _ _ Hloop) as (_ & _ & _ & _ & Hfr & Hrr & _).
    apply Hrest; simpl; congruence.
  - unfold ret at 1. apply Hrest; congruence.
Qed.

(** The steps of a call of [display] that returns. *)
Lemma display_ok (w w' : DictWidget) (f : Field) :
  field w = Some f → display w = (Ok tt, w') →
  ∃ w0 w1 w2 w3 r,
    _readonly_set (states_readonly (id <$> record w)) w = (Ok tt, w0) ∧
    record w = Some r ∧
    ((Some (id r) = _record_id w ∧ w1 = w0) ∨
     (Some (id r) ≠ _record_id w ∧
      ∃ wr, for_each (map_to_list (fields w0)).*1 (λ key, _sig_remove key false) w0
              = (Ok tt, wr) ∧
            w1 = with_record_id (Some (id r)) wr)) ∧
    for_each (sorted_items (rvalue r)) (display_item (rvalue r))
      (with_field (Some {| keys := schema_after (rvalue r) (keys f) |}) w1)
      = (Ok tt, w2) ∧
    for_each (elements (dom (fields w2) ∖ dom (rvalue r)))
      (λ key, _sig_remove key false) w2 = (Ok tt, w3) ∧
    _set_button_sensitive w3 = (Ok tt, w').
Proof.
  intros Hf. destruct (display_run w f Hf) as (w0 & Hro & ->).
  destruct (decide (id <$> record w ≠ _record_id w)) as [Hne|Heq%dec_stable].
  - rewrite bind_run.
    destruct (for_each (map_to_list (fields w0)).*1 _ w0) as [[[]|x] wr] eqn:Hloop;
      [|done].
    unfold modify. destruct (record w) as [r|] eqn:Hr; [|done].
    destruct (for_each (sorted_items (rvalue r)) _ _) as [[[]|x] w2] eqn:Hfirst; [|done].
    destruct (for_each (elements _) _ w2) as [[[]|x] w3] eqn:Hlast; [|done].
    intros Hbut. exists w0, (with_record_id (Some (id r)) wr), w2, w3, r.
    split_and!; try done. right. eauto.
  - destruct (record w) as [r|] eqn:Hr; [|done].
    destruct (for_each (sorted_items (rvalue r)) _ _) as [[[]|x] w2] eqn:Hfirst; [|done].
    destruct (for_each (elements _) _ w2) as [[[]|x] w3] eqn:Hlast; [|done].
    intros Hbut. exists w0, w0, w2, w3, r. split_and!; try done. by left.
Qed.

(** On a widget without a field [display] sets the read-only state and
    returns. *)
Lemma display_no_field (w : DictWidget) :
  field w = None →
  display w = _readonly_set (states_readonly (id <$> record w)) w.
Proof.
  intros Hf.
  destruct (readonly_set_run (states_readonly (id <$> record w)) w)
    as (w0 & Hro & _ & _ & _ & _ & Hf0 & _).
  unfold display. rewrite bind_run. unfold super_display.
  rewrite bind_get_run, Hro, bind_get_run, Hf0, Hf. done.
Qed.

(** ** The three maps keep the same keys *)

Lemma bind_preserves {A B} (P : DictWidget → Prop) (m : M A) (k : A → M B)
    (w : DictWidget) :
  P (m w).2 → (∀ a w', P w' → P (k a w').2) → P ((m ≫= k) w).2.
Proof.
  intros Hm Hk. rewrite bind_run. destruct (m w) as [[a|e] w']; simpl in *; auto.
Qed.

Lemma readonly_set_same_keys (readonly : bool) (w : DictWidget) :
  same_keys w → same_keys (_readonly_set readonly w).2.
Proof.
  intros [Hb Hr].
  destruct (readonly_set_run readonly w) as (w' & -> & Hf' & Hb' & Hr' & _).
  unfold same_keys. simpl. rewrite Hf', Hb', Hr', dom_fmap_L. done.
Qed.

Lemma set_button_sensitive_same_keys (w : DictWidget) :
  same_keys w → same_keys (_set_button_sensitive w).2.
Proof.
  intros [Hb Hr]. rewrite set_button_sensitive_run. unfold same_keys. simpl.
  by rewrite dom_fmap_L.
Qed.

(** A call of [display] that returns leaves the three maps with the same
    keys. *)
Lemma display_same_keys (w w' : DictWidget) :
  display w = (Ok tt, w') → same_keys w → same_keys w'.
Proof.
  intros Hrun Hw.
  assert (∀ ro w0, _readonly_set ro w = (Ok tt, w0) → same_keys w0) as Hro.
  { intros ro w0 Hw0. replace w0 with (_readonly_set ro w).2 by (by rewrite Hw0).
    by apply readonly_set_same_keys. }
  destruct (field w) as [f|] eqn:Hf.
  - destruct (display_ok w w' f Hf Hrun)
      as (w0 & w1 & w2 & w3 & r & Hw0%Hro & Hr & Hreset & Hfirst & Hlast & Hbut).
    assert (same_keys w1) as Hw1.
    { destruct Hreset as [[_ ->]|(_ & wr & Hloop%remove_loop_ok & ->)]; [done|].
      change (same_keys wr). by eapply removed_same_keys. }
    assert (same_keys w2) as Hw2 by (by eapply first_loop_same_keys).
    assert (same_keys w3) as Hw3
      by (apply remove_loop_ok in Hlast; by eapply removed_same_keys).
    replace w' with (_set_button_sensitive w3).2 by (by rewrite Hbut).
    by apply set_button_sensitive_same_keys.
  - rewrite (display_no_field w Hf) in Hrun. by eapply Hro.
Qed.

Lemma add_new_keys_loop_same_keys (new_keys : list string) (focus : bool)
    (w w' : DictWidget) :
  add_new_keys_loop new_keys focus w = (Ok tt, w') → same_keys w → same_keys w'.
Proof.
  revert focus w. induction new_keys as [|key rest IH]; intros focus w; simpl.
  { by intros [= <-]. }
  rewrite bind_get_run. destruct (fields w !! key); [by apply IH|].
  intros ([] & w1 & Hadd & Hrest)%bind_ok Hw.
  pose proof (add_line_same_keys key w w1 Hadd Hw) as Hw1.
  destruct focus; simpl in Hrest; [by eapply IH|].
  rewrite bind_get_run in Hrest.
  apply bind_ok in Hrest as (e & w2 & Hget & Hrest).
  unfold getitem in Hget. destruct (fields w1 !! key); [|done].
  injection Hget as <- <-.
  apply bind_ok in Hrest as ([] & w2 & Hmod & Hrest).
  unfold modify in Hmod. injection Hmod as <-.
  by eapply IH.
Qed.

Lemma add_new_keys_same_keys (ids : list Z) (w w' : DictWidget) :
  add_new_keys ids w = (Ok tt, w') → same_keys w → same_keys w'.
Proof.
  unfold add_new_keys.
  intros (new_keys & w1 & Hfield & Hrun)%bind_ok Hw.
  apply bind_ok in Hrun as ([] & w2 & Hsend & Hrun).
  unfold send_modified, ret in Hsend. injection Hsend as <-.
  eapply add_new_keys_loop_same_keys; [done|].
  unfold field_add_new_keys in Hfield. rewrite bind_get_run in Hfield.
  destruct (field w); [|done].
  rewrite bind_run in Hfield. unfold modify at 1, ret in Hfield.
  by injection Hfield as <- <-.
Qed.

(** ** What every call keeps, whether it returns or raises *)

(** A property that the steps of [display] keep is kept by [display], and
    likewise for the loop of its items and for [add_new_keys]. *)
Lemma display_item_preserves (P : DictWidget → Prop) (value : gmap string pyval)
    (item : string * pyval) (w : DictWidget) :
  (∀ key w, fields w !! key = None → P w → P (add_line key w).2) →
  (∀ key val w, P w → P (display_entry value key val w).2) →
  P w → P (display_item value item w).2.
Proof.
  intros Hadd Hentry Hw. destruct item as [key val].
  destruct (field w) as [f|] eqn:Hf.
  - rewrite (display_item_run value key val w f Hf).
    destruct (keys f !! key); [|done].
    destruct (fields w !! key) eqn:Hkey; [by apply Hentry|].
    pose proof (Hadd key w Hkey Hw) as Hw1.
    destruct (add_line key w) as [[[]|x] w1]; [by apply Hentry | done].
  - unfold display_item, field_keys, get, mbind, M_bind, bind, raise.
    by rewrite Hf.
Qed.

Lemma display_preserves (P : DictWidget → Prop) (w : DictWidget) :
  (∀ readonly w, P w → P (_readonly_set readonly w).2) →
  (∀ key w, P w → P (_sig_remove key false w).2) →
  (∀ x w, P w → P (with_record_id x w)) →
  (∀ x w, P w → P (with_field x w)) →
  (∀ value item w, P w → P (display_item value item w).2) →
  (∀ w, P w → P (_set_button_sensitive w).2) →
  P w → P (display w).2.
Proof.
  intros Hro Hrem Hid Hfield Hitem Hbut Hw. unfold display.
  apply bind_preserves.
  { unfold super_display. apply bind_preserves; [done|]. intros a w'. apply Hro. }
  clear w Hw. intros _ w Hw.
  apply bind_preserves; [done|]. clear w Hw. intros w0 w Hw.
  destruct (field w0); [|done].
  apply bind_preserves.
  { destruct (decide _); [|done].
    apply bind_preserves.
    - apply for_each_invariant; [done|]. intros x w1 _. apply Hrem.
    - intros _ w'. apply Hid. }
  clear w Hw. intros _ w Hw.
  apply bind_preserves.
  { unfold field_get_client, get, raise, ret, mbind, M_bind, bind.
    by destruct (record w). }
  clear w Hw. intros value w Hw.
  apply bind_preserves.
  { unfold field_keys, get, raise, ret, mbind, M_bind, bind. by destruct (field w). }
  clear w Hw. intros ks w Hw.
  apply bind_preserves.
  { destruct (decide _); [|done].
    unfold field_add_keys, get, modify, raise, mbind, M_bind, bind.
    destruct (field w); [by apply Hfield | done]. }
  clear w Hw. intros _ w Hw.
  apply bind_preserves.
  { apply for_each_invariant; [done|]. intros x w1 _. apply Hitem. }
  clear w Hw. intros _ w Hw.
  apply bind_preserves; [done|]. clear w Hw. intros w1 w Hw.
  apply bind_preserves.
  { apply for_each_invariant; [done|]. intros x w2 _. apply Hrem. }
  clear w Hw. intros _ w Hw. by apply Hbut.
Qed.

Lemma add_new_keys_loop_preserves (P : DictWidget → Prop) (new_keys : list string)
    (focus : bool) (w : DictWidget) :
  (∀ x w, P w → P (with_idle_focus x w)) →
  (∀ key w, fields w !! key = None → P w → P (add_line key w).2) →
  P w → P (add_new_keys_loop new_keys focus w).2.
Proof.
  intros Hidle Hadd.
  revert focus w. induction new_keys as [|key rest IH]; intros focus w Hw; [done|].
  simpl. rewrite bind_get_run.
  destruct (fields w !! key) eqn:Hkey; [by apply IH|].
  apply bind_preserves; [by apply Hadd|].
  clear w Hw Hkey. intros _ w Hw.
  destruct focus; simpl; [by apply IH|].
  apply bind_preserves; [done|]. clear w Hw. intros w1 w Hw.
  apply bind_preserves.
  { unfold getitem. by destruct (fields w1 !! key). }
  clear w Hw. intros _ w Hw.
  apply bind_preserves; [by apply Hidle|]. intros _ w'. apply IH.
Qed.

Lemma add_new_keys_preserves (P : DictWidget → Prop) (ids : list Z) (w : DictWidget) :
  (∀ x w, P w → P (with_field x w)) →
  (∀ x w, P w → P (with_idle_focus x w)) →
  (∀ key w, fields w !! key = None → P w → P (add_line key w).2) →
  P w → P (add_new_keys ids w).2.
Proof.
  intros Hfield Hidle Hadd Hw. unfold add_new_keys.
  apply bind_preserves.
  { unfold field_add_new_keys, get, modify, raise, ret, mbind, M_bind, bind.
    destruct (field w); [by apply Hfield | done]. }
  clear w Hw. intros new_keys w Hw.
  apply bind_preserves; [done|]. intros _ w'.
  by apply add_new_keys_loop_preserves.
Qed.

(** The end of a turn of the first loop changes entries, not keys. *)
Lemma display_entry_dom (value : gmap string pyval) (key : string) (val : pyval)
    (w : DictWidget) :
  ∃ m, (display_entry value key val w).2 = with_fields m w ∧
       dom m = dom (fields w).
Proof.
  assert (∀ (e : entry) (m : gmap string entry),
            dom m = dom (fields w) → is_Some (m !! key) →
                 dom (<[key := e]> m) = dom (fields w)) as Hins.
  { intros e m <- Hk%elem_of_dom. rewrite dom_insert_L. apply set_eq. intros k.
    rewrite elem_of_union, elem_of_singleton. split; [by intros [->|] | tauto]. }
  assert (with_fields (fields w) w = w) as Hid by (by destruct w).
  unfold display_entry, field_keys, getitem, lift, get, modify, raise,
    mbind, M_bind, bind, ret. simpl.
  destruct (fields w !! key) as [e0|] eqn:He0; simpl;
    [|exists (fields w); by rewrite Hid].
  destruct (entry_set_value _ val e0) as [e1|x]; simpl;
    [|exists (fields w); by rewrite Hid].
  destruct (field w) as [f|]; simpl.
  - destruct (keys f !! key) as [ks|]; simpl.
    + eexists. split; [reflexivity|]. rewrite !insert_insert_eq.
      apply Hins; [done | eauto].
    + eexists. split; [reflexivity|]. rewrite !insert_insert_eq.
      apply Hins; [done | eauto].
  - eexists. split; [reflexivity|]. rewrite !insert_insert_eq.
    apply Hins; [done | eauto].
Qed.

(** *** Every row has an entry *)

Lemma same_keys_rows_have_entries (w : DictWidget) :
  same_keys w → rows_have_entries w.
Proof. intros [Hb Hr]. split; [congruence | by rewrite Hr]. Qed.

Lemma lookup_None_dom {V W} (m : gmap string V) (m' : gmap string W) (k : string) :
  dom m = dom m' → m !! k = None → m' !! k = None.
Proof. intros Hd Hk. apply not_elem_of_dom. rewrite <- Hd. by apply not_elem_of_dom. Qed.

Lemma rows_have_entries_no_row (key : string) (w : DictWidget) :
  rows_have_entries w → fields w !! key = None → rows w !! key = None.
Proof.
  intros [_ Hsub] Hkey. apply not_elem_of_dom. intros Hin%Hsub.
  by apply not_elem_of_dom in Hkey.
Qed.

Lemma sig_remove_rows_have_entries (key : string) (modified : bool) (w : DictWidget) :
  rows_have_entries w → rows_have_entries (_sig_remove key modified w).2.
Proof.
  intros [Hbr Hsub]. destruct (sig_remove_run key modified w) as [t ->].
  destruct (fields w !! key) as [e|] eqn:He; [|done].
  destruct (buttons w !! key) as [b|] eqn:Hb.
  - assert (is_Some (rows w !! key)) as [row ->].
    { apply elem_of_dom. rewrite <- Hbr. apply elem_of_dom. eauto. }
    cbv zeta.
    match goal with
    | |- rows_have_entries (if modified then set_value ?w4 else _).2 =>
        assert (rows_have_entries w4) as H4;
        [|destruct modified; [destruct (set_value_run w4) as [rc ->]|]; exact H4]
    end.
    unfold rows_have_entries. simpl. rewrite !dom_delete_L, Hbr. split; [done|].
    intros k [Hk Hne]%elem_of_difference. apply elem_of_difference. auto.
  - simpl. unfold rows_have_entries. simpl. split; [done|].
    assert (key ∉ dom (rows w)) as Hkey.
    { rewrite <- Hbr. by apply not_elem_of_dom. }
    rewrite dom_delete_L. intros k Hk. apply elem_of_difference.
    split; [by apply Hsub|]. intros ->%elem_of_singleton. done.
Qed.

Lemma add_line_rows_have_entries (key : string) (w : DictWidget) :
  rows_have_entries w → rows_have_entries (add_line key w).2.
Proof.
  intros [Hbr Hsub].
  destruct (add_line_cases key w)
    as [[x ->]|[(x & e & w1 & -> & Hst)|(e & w1 & -> & Hadd)]]; [done| |].
  - destruct Hst as (Hf & Hb & Hr & _). unfold rows_have_entries. simpl.
    rewrite Hf, Hb, Hr, dom_insert_L. split; [done|].
    etransitivity; [done | apply union_subseteq_r].
  - destruct Hadd as (Hf & Hb & Hr & _). unfold rows_have_entries. simpl.
    rewrite Hf, Hb, Hr, !dom_insert_L. split; [by rewrite Hbr|].
    by apply union_mono_l.
Qed.

Lemma display_entry_rows_have_entries (value : gmap string pyval) (key : string)
    (val : pyval) (w : DictWidget) :
  rows_have_entries w → rows_have_entries (display_entry value key val w).2.
Proof.
  intros [Hbr Hsub]. destruct (display_entry_dom value key val w) as (m & -> & Hm).
  unfold rows_have_entries. simpl. by rewrite Hm.
Qed.

Lemma readonly_set_rows_have_entries (readonly : bool) (w : DictWidget) :
  rows_have_entries w → rows_have_entries (_readonly_set readonly w).2.
Proof.
  intros [Hbr Hsub].
  destruct (readonly_set_run readonly w) as (w' & -> & Hf' & Hb' & Hr' & _).
  unfold rows_have_entries. simpl. by rewrite Hf', Hb', Hr', dom_fmap_L.
Qed.

Lemma set_button_sensitive_rows_have_entries (w : DictWidget) :
  rows_have_entries w → rows_have_entries (_set_button_sensitive w).2.
Proof.
  intros [Hbr Hsub]. rewrite set_button_sensitive_run. unfold rows_have_entries.
  simpl. by rewrite dom_fmap_L.
Qed.

Lemma display_item_rows_have_entries (value : gmap string pyval)
    (item : string * pyval) (w : DictWidget) :
  rows_have_entries w → rows_have_entries (display_item value item w).2.
Proof.
  apply display_item_preserves.
  - intros key w0 _. apply add_line_rows_have_entries.
  - intros key val w0. apply display_entry_rows_have_entries.
Qed.

Lemma display_rows_have_entries (w : DictWidget) :
  rows_have_entries w → rows_have_entries (display w).2.
Proof.
  apply display_preserves; try done.
  - apply readonly_set_rows_have_entries.
  - intros key w0. apply sig_remove_rows_have_entries.
  - apply display_item_rows_have_entries.
  - apply set_button_sensitive_rows_have_entries.
Qed.

Lemma add_new_keys_rows_have_entries (ids : list Z) (w : DictWidget) :
  rows_have_entries w → rows_have_entries (add_new_keys ids w).2.
Proof.
  apply add_new_keys_preserves; try done.
  intros key w0 _. apply add_line_rows_have_entries.
Qed.

(** *** The objects of the table *)

Lemma filter_remove_cons (o : nat) (row : list nat) (l : list (nat * Z)) :
  filter (λ c, c.1 ∉ row) (filter (λ c, c.1 ≠ o) l) = filter (λ c, c.1 ∉ o :: row) l.
Proof.
  induction l as [|c l IH]; [done|].
  destruct (decide (c.1 = o)) as [Ho|Ho].
  - rewrite (filter_cons_False (λ c, c.1 ≠ o)) by (intros Hn; by apply Hn).
    rewrite (filter_cons_False (λ c, c.1 ∉ o :: row)); [done|].
    intros Hn. apply Hn. rewrite Ho. left.
  - rewrite (filter_cons_True (λ c, c.1 ≠ o)) by done.
    destruct (decide (c.1 ∈ row)) as [Hr|Hr].
    + rewrite (filter_cons_False (λ c, c.1 ∉ row)) by (intros Hn; by apply Hn).
      rewrite (filter_cons_False (λ c, c.1 ∉ o :: row)); [done|].
      intros Hn. apply Hn. by right.
    + rewrite (filter_cons_True (λ c, c.1 ∉ row)) by done.
      rewrite (filter_cons_True (λ c, c.1 ∉ o :: row)); [by rewrite IH|].
      intros [?|?]%elem_of_cons; done.
Qed.

Lemma filter_remove_nil (l : list (nat * Z)) :
  filter (λ c, c.1 ∉ @nil nat) l = l.
Proof.
  induction l as [|c l IH]; [done|].
  rewrite filter_cons_True by apply not_elem_of_nil. by rewrite IH.
Qed.

(** The loop of [_sig_remove] detaches the objects of the row. *)
Lemma for_each_table_remove_run (row : list nat) (w : DictWidget) :
  for_each row table_remove w =
  (Ok tt, with_table {| n_rows := n_rows (table w);
                        children := filter (λ c, c.1 ∉ row) (children (table w)) |} w).
Proof.
  revert w. induction row as [|o row IH]; intros w; simpl.
  - unfold ret. rewrite filter_remove_nil. by destruct w as [? ? ? ? ? ? ? ? []].
  - rewrite bind_run. unfold table_remove at 1, modify. rewrite IH. simpl.
    by rewrite filter_remove_cons.
Qed.

Lemma sig_remove_states (key : string) (modified : bool) (w : DictWidget) :
  (_sig_remove key modified w).2 = w ∨
  (∃ x, rows (_sig_remove key modified w).2 = rows w ∧
        table (_sig_remove key modified w).2 = table w ∧
        next_object (_sig_remove key modified w).2 = next_object w ∧
        (_sig_remove key modified w).1 = Raise x) ∨
  (∃ row, rows w !! key = Some row ∧
          rows (_sig_remove key modified w).2 = delete key (rows w) ∧
          children (table (_sig_remove key modified w).2) =
            filter (λ c, c.1 ∉ row) (children (table w)) ∧
          next_object (_sig_remove key modified w).2 = next_object w).
Proof.
  unfold _sig_remove, del_fields, del_buttons, del_rows, getitem, get, modify,
    mbind, M_bind, bind, raise, ret. simpl.
  destruct (fields w !! key) as [e|]; simpl; [|by left].
  destruct (buttons w !! key) as [b|]; simpl; [|right; left; by eexists].
  destruct (rows w !! key) as [row|] eqn:Hrow; simpl; [|right; left; by eexists].
  rewrite for_each_table_remove_run. simpl. rewrite Hrow. simpl.
  right. right. exists row. split; [done|].
  destruct modified; [|done].
  match goal with
  | |- context [set_value ?w4] => destruct (set_value_run w4) as [rc ->]
  end. done.
Qed.

Lemma table_ok_remove (key : string) (row : list nat) (w w' : DictWidget) :
  table_ok w → rows w !! key = Some row →
  rows w' = delete key (rows w) →
  children (table w') = filter (λ c, c.1 ∉ row) (children (table w)) →
  next_object w' = next_object w →
  table_ok w'.
Proof.
  intros (Hatt & Hbound & Hdisj) Hrow Hr' Hc' Hn'. unfold table_ok.
  rewrite Hr', Hc', Hn'. split_and!.
  - intros o. split.
    + intros ([o' top] & -> & [Hnot Hin]%list_elem_of_filter)%list_elem_of_fmap.
      simpl in *.
      assert (o' ∈ (children (table w)).*1) as Ho
        by (apply list_elem_of_fmap; by exists (o', top)).
      apply Hatt in Ho as (k & r & Hk & Hor). exists k, r. split; [|done].
      rewrite lookup_delete_ne; [done|]. intros <-. congruence.
    + intros (k & r & Hk & Hor).
      destruct (decide (k = key)) as [->|Hne]; [by rewrite lookup_delete_eq in Hk|].
      rewrite lookup_delete_ne in Hk by done.
      assert (o ∈ (children (table w)).*1) as Ho by (apply Hatt; eauto).
      apply list_elem_of_fmap in Ho as ([o' top] & -> & Hin).
      apply list_elem_of_fmap. exists (o', top). split; [done|].
      apply list_elem_of_filter. split; [|done]. simpl in *.
      intros Hkey. apply Hne. by eapply Hdisj.
  - intros k r o Hk. apply (Hbound k).
    destruct (decide (k = key)) as [->|Hne]; [by rewrite lookup_delete_eq in Hk|].
    by rewrite lookup_delete_ne in Hk.
  - intros k1 k2 r1 r2 o Hk1 Hk2. apply Hdisj.
    + destruct (decide (k1 = key)) as [->|Hne]; [by rewrite lookup_delete_eq in Hk1|].
      by rewrite lookup_delete_ne in Hk1.
    + destruct (decide (k2 = key)) as [->|Hne]; [by rewrite lookup_delete_eq in Hk2|].
      by rewrite lookup_delete_ne in Hk2.
Qed.

(** Numbering new objects without attaching them leaves the table in
    order. *)
Lemma table_ok_same (w w' : DictWidget) :
  rows w' = rows w → children (table w') = children (table w) →
  (next_object w ≤ next_object w')%nat →
  table_ok w → table_ok w'.
Proof.
  unfold table_ok. intros -> -> Hn (Hatt & Hbound & Hdisj). split_and!; [done| |done].
  intros key row o Hrow Ho. pose proof (Hbound key row o Hrow Ho). lia.
Qed.

Lemma sig_remove_table_ok (key : string) (modified : bool) (w : DictWidget) :
  table_ok w → table_ok (_sig_remove key modified w).2.
Proof.
  intros Hw.
  destruct (sig_remove_states key modified w)
    as [->|[(x & Hr & Ht & Hn & _)|(row & Hrow & Hr & Hc & Hn)]]; [done| |].
  - eapply table_ok_same; [done | by rewrite Ht | lia | done].
  - by eapply table_ok_remove.
Qed.

Lemma table_ok_add (key : string) (t1 t2 t3 : Z) (w w' : DictWidget) :
  table_ok w → rows w !! key = None →
  rows w' = <[key := new_row (next_object w)]> (rows w) →
  children (table w') =
    children (table w) ++
    [(S (next_object w), t1); (next_object w, t2); (S (S (next_object w)), t3)] →
  next_object w' = (3 + next_object w)%nat →
  table_ok w'.
Proof.
  intros (Hatt & Hbound & Hdisj) Hrow Hr' Hc' Hn'. unfold table_ok.
  rewrite Hr', Hc', Hn'. set (n := next_object w) in *.
  assert (∀ o, o ∈ new_row n → (n ≤ o)%nat) as Hnew.
  { intros o Ho. unfold new_row in Ho.
    repeat (apply elem_of_cons in Ho as [->|Ho]; [lia|]). by apply elem_of_nil in Ho. }
  split_and!.
  - intros o. rewrite fmap_app, elem_of_app, Hatt. simpl. split.
    + intros [(k & r & Hk & Hor)|Hin].
      * exists k, r. split; [|done]. rewrite lookup_insert_ne; [done|]. congruence.
      * exists key, (new_row n). by rewrite lookup_insert_eq.
    + intros (k & r & Hk & Hor). destruct (decide (k = key)) as [->|Hne].
      * rewrite lookup_insert_eq in Hk. injection Hk as <-. by right.
      * rewrite lookup_insert_ne in Hk by done. left. eauto.
  - intros k r o Hk Hor. destruct (decide (k = key)) as [->|Hne].
    + rewrite lookup_insert_eq in Hk. injection Hk as <-. unfold new_row in Hor.
      repeat (apply elem_of_cons in Hor as [->|Hor]; [lia|]).
      by apply elem_of_nil in Hor.
    + rewrite lookup_insert_ne in Hk by done.
      pose proof (Hbound k r o Hk Hor). lia.
  - intros k1 k2 r1 r2 o Hk1 Hk2 Ho1 Ho2.
    destruct (decide (k1 = key)) as [->|Hne1], (decide (k2 = key)) as [->|Hne2];
      [done | | |].
    + rewrite lookup_insert_eq in Hk1. injection Hk1 as <-.
      rewrite lookup_insert_ne in Hk2 by done.
      pose proof (Hbound k2 r2 o Hk2 Ho2). pose proof (Hnew o Ho1). lia.
    + rewrite lookup_insert_eq in Hk2. injection Hk2 as <-.
      rewrite lookup_insert_ne in Hk1 by done.
      pose proof (Hbound k1 r1 o Hk1 Ho1). pose proof (Hnew o Ho2). lia.
    + rewrite lookup_insert_ne in Hk1, Hk2 by done. by eapply Hdisj.
Qed.

(** Whether it returns or raises, [add_line] on a key without a row leaves
    the table in order: the objects it attaches are those of the new row, and
    when it raises it has attached none. *)
Lemma add_line_table_ok (key : string) (w : DictWidget) :
  table_ok w → rows w !! key = None → table_ok (add_line key w).2.
Proof.
  intros Hw Hrow.
  unfold add_line, field_keys, getitem, lift, new_object, table_attach, get,
    modify, raise, mbind, M_bind, bind, ret. simpl.
  destruct (field w) as [f|]; simpl; [|done].
  destruct (keys f !! key) as [ks|]; simpl; [|done].
  destruct (dict_entries_getitem (type_ ks)) as [c|x]; simpl; [|done].
  destruct (new_entry c key (keys f)) as [e|x]; simpl; [|done].
  destruct (gtk_alignment (attrs_align w)) as [[]|x]; simpl;
    [|by eapply table_ok_same; [| | |exact Hw]].
  destruct (schema_string ks) as [s|x]; simpl;
    [|eapply table_ok_same; [| | |exact Hw]; simpl; first [done | lia]].
  eapply (table_ok_add key); [exact Hw | exact Hrow | done | simpl | done].
  by rewrite <- !app_assoc.
Qed.

Lemma display_entry_frame (value : gmap string pyval) (key : string) (val : pyval)
    (w : DictWidget) :
  rows (display_entry value key val w).2 = rows w ∧
  table (display_entry value key val w).2 = table w ∧
  next_object (display_entry value key val w).2 = next_object w ∧
  dom (buttons (display_entry value key val w).2) = dom (buttons w) ∧
  (is_Some (fields w !! key) →
   dom (fields (display_entry value key val w).2) = dom (fields w)).
Proof.
  unfold display_entry, field_keys, getitem, lift, get, modify, raise,
    mbind, M_bind, bind, ret. simpl.
  destruct (fields w !! key) as [e0|] eqn:He0; simpl; [|done].
  assert (∀ e : entry, dom (<[key := e]> (fields w)) = dom (fields w)) as Hdom.
  { intros e. rewrite dom_insert_L. apply set_eq. intros k.
    rewrite elem_of_union, elem_of_singleton. split; [|tauto].
    intros [->|?]; [|done]. apply elem_of_dom. eauto. }
  destruct (entry_set_value _ val e0) as [e1|x]; simpl; [|done].
  destruct (field w) as [f|]; simpl; [|by rewrite insert_insert_eq, Hdom].
  destruct (keys f !! key) as [ks|]; simpl; [|by rewrite insert_insert_eq, Hdom].
  by rewrite !insert_insert_eq, Hdom.
Qed.

Lemma display_entry_table_ok (value : gmap string pyval) (key : string) (val : pyval)
    (w : DictWidget) :
  table_ok w → table_ok (display_entry value key val w).2.
Proof.
  destruct (display_entry_frame value key val w) as (Hr & Ht & Hn & _).
  apply table_ok_same; [done | by rewrite Ht | lia].
Qed.

Lemma readonly_set_table_ok (readonly : bool) (w : DictWidget) :
  table_ok w → table_ok (_readonly_set readonly w).2.
Proof. by apply table_ok_same. Qed.

Lemma set_button_sensitive_table_ok (w : DictWidget) :
  table_ok w → table_ok (_set_button_sensitive w).2.
Proof. intros Hw. by rewrite set_button_sensitive_run. Qed.

(** With every row having an entry, the table stays in order through
    [display] and [add_new_keys], whether they return or raise. *)
Lemma add_line_rows_and_table (key : string) (w : DictWidget) :
  fields w !! key = None →
  rows_have_entries w ∧ table_ok w →
  rows_have_entries (add_line key w).2 ∧ table_ok (add_line key w).2.
Proof.
  intros Hkey [Hw Ht]. split; [by apply add_line_rows_have_entries|].
  apply add_line_table_ok; [done|]. by apply rows_have_entries_no_row.
Qed.

Lemma display_rows_and_table (w : DictWidget) :
  rows_have_entries w ∧ table_ok w →
  rows_have_entries (display w).2 ∧ table_ok (display w).2.
Proof.
  apply (display_preserves (λ w, rows_have_entries w ∧ table_ok w)); try done.
  - intros readonly w0 [? ?].
    split; [by apply readonly_set_rows_have_entries | by apply readonly_set_table_ok].
  - intros key w0 [? ?].
    split; [by apply sig_remove_rows_have_entries | by apply sig_remove_table_ok].
  - intros value item w0.
    apply (display_item_preserves (λ w, rows_have_entries w ∧ table_ok w)).
    + apply add_line_rows_and_table.
    + intros key val w1 [? ?].
      split; [by apply display_entry_rows_have_entries | by apply display_entry_table_ok].
  - intros w0 [? ?].
    split; [by apply set_button_sensitive_rows_have_entries
           | by apply set_button_sensitive_table_ok].
Qed.

Lemma add_new_keys_rows_and_table (ids : list Z) (w : DictWidget) :
  rows_have_entries w ∧ table_ok w →
  rows_have_entries (add_new_keys ids w).2 ∧ table_ok (add_new_keys ids w).2.
Proof.
  apply (add_new_keys_preserves (λ w, rows_have_entries w ∧ table_ok w)); try done.
  apply add_line_rows_and_table.
Qed.

(** ** The classes of the entries *)

Lemma DICT_ENTRIES_NoDup : NoDup DICT_ENTRIES.*1.
Proof. apply (bool_decide_unpack _). by vm_compute. Qed.

Lemma dict_entries_getitem_ok (t : string) (c : entry_class) :
  dict_entries_getitem t = Ok c ↔ (t, c) ∈ DICT_ENTRIES.
Proof.
  unfold dict_entries_getitem.
  rewrite (elem_of_list_to_map (M := gmap string)) by apply DICT_ENTRIES_NoDup.
  destruct (list_to_map DICT_ENTRIES !! t) as [c'|]; split; congruence.
Qed.

Lemma dict_entries_getitem_raise (t : string) :
  t ∉ DICT_ENTRIES.*1 → dict_entries_getitem t = Raise (KeyError t).
Proof.
  intros Ht. unfold dict_entries_getitem.
  by rewrite (proj1 (not_elem_of_list_to_map (M := gmap string) _ _) Ht).
Qed.

(** Every class but the selection makes its entry from any definition; the
    selection needs the definition to hold one. *)
Lemma new_entry_total (c : entry_class) (key : string)
    (ks : gmap string key_schema) (d : key_schema) :
  ks !! key = Some d →
  (c = DictSelectionEntry → is_Some (selection d)) →
  ∃ e, new_entry c key ks = Ok e.
Proof.
  intros Hd Hsel. unfold new_entry. rewrite Hd.
  assert (∃ r, create_widget c d = Ok r) as [[[g sel] d'] ->]; [|eauto].
  unfold create_widget. destruct c; eauto.
  destruct (Hsel eq_refl) as [s ->]. eauto.
Qed.

(** C7: the class of the entry that [add_line] makes for a key is the one
    that the type of the key has in the mapping of the eight types.  For
    each of the eight pairs, on a key of that type [add_line] returns and
    the key has an entry of that class, a row and a button, as long as the
    alignment attributes are numbers, the definition has a label and, for a
    selection, the choices; a call of [add_line] that returns has made an
    entry of the class of one of the eight pairs; and for a type that is not
    among the eight, [add_line] raises [KeyError] and leaves the widget as
    it was, and so does the turn of the loop of [display] for a key that has
    no row: the key gets no row. *)
Theorem add_line_selects_by_type (key : string) (w : DictWidget) (f : Field)
    (ks : key_schema) :
  field w = Some f → keys f !! key = Some ks →
  let mapping :=
    [ ("char", DictEntry); ("boolean", DictBooleanEntry);
      ("selection", DictSelectionEntry); ("datetime", DictDateTimeEntry);
      ("date", DictDateEntry); ("integer", DictIntegerEntry);
      ("float", DictFloatEntry); ("numeric", DictNumericEntry) ] in
  (∀ c, (type_ ks, c) ∈ mapping →
     gtk_alignment (attrs_align w) = Ok tt → is_Some (string_ ks) →
     (c = DictSelectionEntry → is_Some (selection ks)) →
     ∃ w' e, add_line key w = (Ok tt, w') ∧
             fields w' !! key = Some e ∧ cls e = c ∧
             is_Some (rows w' !! key) ∧ is_Some (buttons w' !! key))
  ∧ (∀ w', add_line key w = (Ok tt, w') →
       ∃ e, fields w' !! key = Some e ∧ (type_ ks, cls e) ∈ mapping ∧
            ∀ c, (type_ ks, c) ∈ mapping → cls e = c)
  ∧ (type_ ks ∉ mapping.*1 →
       add_line key w = (Raise (KeyError (type_ ks)), w) ∧
       ∀ value val, fields w !! key = None →
         display_item value (key, val) w = (Raise (KeyError (type_ ks)), w)).
Proof.
  intros Hf Hks mapping. change mapping with DICT_ENTRIES. clear mapping.
  pose proof (add_line_spec key w) as Hs. rewrite Hf, Hks in Hs.
  split_and!.
  - intros c Hc%dict_entries_getitem_ok Halign [s Hstring] Hsel.
    destruct (new_entry_total c key (keys f) ks Hks Hsel) as [e He].
    rewrite Hc, He, Halign in Hs. unfold schema_string in Hs. rewrite Hstring in Hs.
    destruct Hs as (w' & Hrun & Hfields & Hbuttons & Hrows & _).
    apply new_entry_ok in He as (Hcls & _).
    exists w', e. rewrite Hfields, Hbuttons, Hrows, !lookup_insert_eq.
    split_and!; eauto.
  - intros w' Hok.
    destruct (dict_entries_getitem (type_ ks)) as [c|x] eqn:Hc; [|congruence].
    destruct (new_entry c key (keys f)) as [e|x] eqn:He; [|congruence].
    assert (∃ w1, add_line key w = (Ok tt, w1) ∧ added key e w w1)
      as (w1 & Hrun & Hfields & _).
    { destruct (gtk_alignment (attrs_align w)) as [[]|x];
        [|destruct Hs as (w1 & Hrun & _); congruence].
      destruct (schema_string ks) as [s|x];
        [done | destruct Hs as (w1 & Hrun & _); congruence]. }
    assert (w1 = w') as -> by congruence.
    apply new_entry_ok in He as (Hcls & _). apply dict_entries_getitem_ok in Hc.
    exists e. rewrite Hfields, lookup_insert_eq, Hcls. split_and!; [done|done|].
    intros c' Hc'. apply dict_entries_getitem_ok in Hc, Hc'. congruence.
  - intros Hout. rewrite (dict_entries_getitem_raise _ Hout) in Hs.
    split; [done|]. intros value val Hnone.
    by rewrite (display_item_run value key val w f Hf), Hks, Hnone, Hs.
Qed.

(** C8, amended.  The three maps are empty in a new widget.  When they have
    the same keys, they still have after a call of [add_line], of [display]
    or of [add_new_keys] that returns, and after [_sig_remove] whether it
    returns or raises.  A call of [add_line] that raises may have stored the
    entry of the key and made no row for it: after a call that raises, of
    [add_line], of [display] or of [add_new_keys], the buttons and the rows
    have the same keys and each of these keys has an entry. *)
Theorem same_keys_preserved (w : DictWidget) :
  same_keys w →
  (∀ key w', add_line key w = (Ok tt, w') → same_keys w') ∧
  (∀ key modified, same_keys (_sig_remove key modified w).2) ∧
  (∀ w', display w = (Ok tt, w') → same_keys w') ∧
  (∀ ids w', add_new_keys ids w = (Ok tt, w') → same_keys w') ∧
  (∀ attrs_create attrs_delete attrs_align,
     same_keys (new_widget attrs_create attrs_delete attrs_align)) ∧
  (∀ key, rows_have_entries (add_line key w).2) ∧
  rows_have_entries (display w).2 ∧
  (∀ ids, rows_have_entries (add_new_keys ids w).2).
Proof.
  intros Hw. pose proof (same_keys_rows_have_entries w Hw) as Hj. split_and!.
  - intros key w' Hrun. by eapply add_line_same_keys.
  - intros key modified. by apply sig_remove_same_keys.
  - intros w' Hrun. by eapply display_same_keys.
  - intros ids w' Hrun. by eapply add_new_keys_same_keys.
  - done.
  - intros key. by apply add_line_rows_have_entries.
  - by apply display_rows_have_entries.
  - intros ids. by apply add_new_keys_rows_have_entries.
Qed.

(** ** The rows after [display] *)

Lemma schema_after_dom (value : gmap string pyval) (ks : gmap string key_schema) :
  dom ks ⊆ dom (schema_after value ks).
Proof.
  unfold schema_after. destruct (decide _); [|done].
  rewrite dom_union_L. apply union_subseteq_r.
Qed.

(** The states of a call of [display] that returns: [wk] when the first
    loop starts and [w2] when it ends. *)
Lemma display_states (w w' : DictWidget) (f : Field) :
  field w = Some f → same_keys w → display w = (Ok tt, w') →
  ∃ r wk w2,
    record w = Some r ∧
    field wk = Some {| keys := schema_after (rvalue r) (keys f) |} ∧
    next_object wk = next_object w ∧
    ((Some (id r) = _record_id w ∧ dom (fields wk) = dom (fields w) ∧
      rows wk = rows w) ∨
     (Some (id r) ≠ _record_id w ∧ fields wk = ∅ ∧ rows wk = ∅)) ∧
    shown (rvalue r) (schema_after (rvalue r) (keys f))
          (sorted_items (rvalue r)).*1 wk w2 ∧
    same_keys w2 ∧
    (∀ k, fields w' !! k = if decide (k ∈ dom (rvalue r)) then fields w2 !! k else None) ∧
    (∀ k, rows w' !! k = if decide (k ∈ dom (rvalue r)) then rows w2 !! k else None) ∧
    field w' = field wk ∧ record w' = Some r ∧ _record_id w' = Some (id r).
Proof.
  intros Hf Hw Hrun.
  destruct (display_ok w w' f Hf Hrun)
    as (w0 & w1 & w2 & w3 & r & Hro & Hr & Hreset & Hfirst & Hlast & Hbut).
  destruct (readonly_set_run (states_readonly (id <$> record w)) w)
    as (w0' & Hro' & Hf0 & Hb0 & Hr0 & Hn0 & Hfd0 & Hrc0 & Hid0).
  assert (w0' = w0) as -> by congruence.
  assert (same_keys w0) as Hw0.
  { replace w0 with (_readonly_set (states_readonly (id <$> record w)) w).2
      by (by rewrite Hro). by apply readonly_set_same_keys. }
  set (K := schema_after (rvalue r) (keys f)) in *.
  set (wk := with_field (Some {| keys := K |}) w1) in *.
  assert (next_object w1 = next_object w ∧ record w1 = Some r ∧
          _record_id w1 = Some (id r) ∧ same_keys w1 ∧
          ((Some (id r) = _record_id w ∧ dom (fields w1) = dom (fields w) ∧
            rows w1 = rows w) ∨
           (Some (id r) ≠ _record_id w ∧ fields w1 = ∅ ∧ rows w1 = ∅)))
    as (Hn1 & Hr1 & Hid1 & Hw1 & Hcase).
  { destruct Hreset as [[Heq ->]|(Hne & wr & Hloop & ->)].
    - split_and!; [done | congruence | congruence | done |]. left.
      split_and!; [done | | done]. by rewrite Hf0, dom_fmap_L.
    - pose proof (remove_loop_ok _ _ _ Hloop) as Hrem.
      pose proof Hrem as (Hfr & _ & Hrr & Hnr & _ & Hrcr & _).
      assert (∀ k, k ∈ (map_to_list (fields w0)).*1 ↔ is_Some (fields w0 !! k))
        as Hkeys.
      { intros k. rewrite list_elem_of_fmap. split.
        - intros ([k' e] & -> & He%elem_of_map_to_list). simpl. eauto.
        - intros [e He]. exists (k, e). split; [done|]. by apply elem_of_map_to_list. }
      simpl. split_and!; [congruence | congruence | done | |].
      + change (same_keys wr). by eapply removed_same_keys.
      + right. split_and!; [done | |].
        * apply map_empty. intros k. rewrite Hfr. case_decide as Hk; [done|].
          rewrite Hkeys in Hk. by apply eq_None_not_Some.
        * apply map_empty. intros k. rewrite Hrr. case_decide as Hk; [done|].
          rewrite Hkeys in Hk. apply eq_None_not_Some in Hk.
          destruct Hw0 as [_ Hd]. by eapply lookup_None_dom. }
  assert (field wk = Some {| keys := K |}) as Hfk by done.
  pose proof (first_loop_ok (rvalue r) {| keys := K |} wk w2 Hfk Hfirst) as Hshown.
  simpl in Hshown.
  assert (same_keys w2) as Hw2 by (by eapply first_loop_same_keys).
  pose proof (remove_loop_ok _ _ _ Hlast) as (Hf3 & _ & Hr3 & _ & Hfd3 & Hrc3 & _ & _ & _ & Hid3).
  rewrite set_button_sensitive_run in Hbut. injection Hbut as <-.
  destruct Hshown as (Hv2 & Hrest). pose proof Hv2 as (Hfd2 & Hrc2 & _ & _ & _ & Hid2).
  assert (∀ {V} (m : gmap string V) k, dom m = dom (fields w2) →
            (if decide (k ∈ elements (dom (fields w2) ∖ dom (rvalue r)))
             then None else m !! k) =
            (if decide (k ∈ dom (rvalue r)) then m !! k else None)) as Hsel.
  { intros V m k Hd. repeat case_decide; try done.
    - rewrite elem_of_elements, elem_of_difference in *. tauto.
    - apply not_elem_of_dom. rewrite Hd.
      rewrite elem_of_elements, elem_of_difference in *. tauto. }
  exists r, wk, w2. split_and!; try done.
  - intros k. simpl. rewrite Hf3. by apply Hsel.
  - intros k. simpl. rewrite Hr3. apply Hsel. by destruct Hw2.
  - simpl. congruence.
  - simpl. rewrite Hrc3, Hrc2. done.
  - simpl. rewrite Hid3, Hid2. done.
Qed.

Lemma rows_in_schema_start (w wk : DictWidget) (f : Field) (r : Record_) :
  field w = Some f → rows_in_schema w →
  (Some (id r) = _record_id w ∧ dom (fields wk) = dom (fields w) ∧ rows wk = rows w) ∨
  (Some (id r) ≠ _record_id w ∧ fields wk = ∅ ∧ rows wk = ∅) →
  dom (fields wk) ⊆ dom (schema_after (rvalue r) (keys f)).
Proof.
  intros Hf Hin [(_ & -> & _)|(_ & -> & _)].
  - etransitivity; [by apply Hin | apply schema_after_dom].
  - rewrite dom_empty_L. apply empty_subseteq.
Qed.

(** A turn of the first loop that returns leaves the view as it was. *)
Lemma display_item_view (value : gmap string pyval) (item : string * pyval)
    (w w' : DictWidget) :
  display_item value item w = (Ok tt, w') → same_view w w'.
Proof.
  intros Hrun. destruct item as [key val].
  destruct (field w) as [f|] eqn:Hf.
  - pose proof (display_item_spec value key val w f Hf) as Hs.
    destruct (keys f !! key) as [ks|].
    + destruct Hs as [(x & w1 & Hx & _)|(w1 & e & w2 & Hok & Hens & Hup & _)];
        [congruence|].
      replace w' with w2 by congruence.
      apply ensured_lookup in Hens as [_ Hv1]. destruct Hup as (_ & _ & _ & _ & Hv2).
      by eapply same_view_trans.
    + replace w' with w by congruence. apply same_view_refl.
  - revert Hrun. unfold display_item, field_keys, get, mbind, M_bind, bind, raise.
    by rewrite Hf.
Qed.

(** On a widget whose three maps have the same keys, the removals of
    [display] return: when [display] raises, it has no record to read the
    value from, or a turn of its first loop has raised, on a key of the
    value that is in the schema. *)
Lemma display_raise (w w' : DictWidget) (f : Field) (x : exn) :
  field w = Some f → same_keys w → display w = (Raise x, w') →
  (record w = None ∧ x = AttributeError) ∨
  ∃ r key val wa,
    record w = Some r ∧ rvalue r !! key = Some val ∧
    is_Some (schema_after (rvalue r) (keys f) !! key) ∧
    display_item (rvalue r) (key, val) wa = (Raise x, w').
Proof.
  intros Hf Hw. destruct (display_run w f Hf) as (w0 & Hro & ->).
  assert (same_keys w0) as Hw0.
  { replace w0 with (_readonly_set (states_readonly (id <$> record w)) w).2
      by (by rewrite Hro). by apply readonly_set_same_keys. }
  assert (∃ w1, (if decide (id <$> record w ≠ _record_id w)
                 then (for_each (map_to_list (fields w0)).*1
                         (λ key, _sig_remove key false) ≫=
                       λ _, modify (with_record_id (id <$> record w))) w0
                 else (Ok tt, w0)) = (Ok tt, w1) ∧ same_keys w1) as (w1 & -> & Hw1).
  { destruct (decide _); [|eauto].
    destruct (remove_loop_total (map_to_list (fields w0)).*1 w0) as [wr Hloop];
      [done | apply NoDup_fst_map_to_list | |].
    { intros k ([k' e] & -> & He%elem_of_map_to_list)%list_elem_of_fmap.
      apply elem_of_dom. eauto. }
    rewrite bind_run, Hloop. eexists. split; [reflexivity|].
    apply remove_loop_ok in Hloop. change (same_keys wr). by eapply removed_same_keys. }
  destruct (record w) as [r|]; [|intros [= <- <-]; by left].
  set (K := schema_after (rvalue r) (keys f)).
  set (wk := with_field (Some {| keys := K |}) w1).
  destruct (for_each (sorted_items (rvalue r)) (display_item (rvalue r)) wk)
    as [[[]|x'] w2] eqn:Hfirst.
  - assert (same_keys w2) as Hw2 by (by eapply first_loop_same_keys).
    destruct (remove_loop_total (elements (dom (fields w2) ∖ dom (rvalue r))) w2)
      as [w3 ->]; [done | apply NoDup_elements | |].
    { intros k [Hk _]%elem_of_elements%elem_of_difference. done. }
    by rewrite set_button_sensitive_run.
  - intros [= <- <-]. right.
    apply for_each_raise in Hfirst
      as (done & [key val] & rest & wa & Hl & Hdone & Hraise).
    assert (rvalue r !! key = Some val) as Hval.
    { apply elem_of_map_to_list. rewrite <- sorted_items_perm, Hl.
      apply elem_of_app. right. left. }
    assert (field wa = Some {| keys := K |}) as Hfa.
    { revert Hdone. apply (for_each_ok (λ _ w', field w' = Some {| keys := K |}));
        [done|].
      intros d y rest' wb wc _ Hwb (Hv & _)%display_item_view. congruence. }
    exists r, key, val, wa. split_and!; [done | done | | done].
    rewrite (display_item_run _ key val wa _ Hfa) in Hraise. simpl in Hraise.
    change (is_Some (K !! key)). destruct (K !! key); [by eexists | done].
Qed.

(** C5: on a widget with a field, whose three maps have the same keys and
    whose rows belong to keys of the schema.  A call of [display] that
    returns leaves a row exactly for the keys of the value of the field that
    are in its schema, the keys of the schema being those it had and those
    [display] has asked the server for; a key among them that had no row has
    a new one, the rows of the other keys are gone, and when the id of the
    record has not changed the rows that stay are the rows that were there;
    when the id of the record has changed, every row is a new one; and the
    table holds the objects of these rows and no other, when it held those
    of the rows before.  The removals return: a call of [display] that
    raises had no record to read the value from, or has raised in a turn of
    its first loop, on a key of the value that is in the schema. *)
Theorem display_rows_follow_value (w : DictWidget) (f : Field) :
  field w = Some f → same_keys w → rows_in_schema w →
  (∀ w', display w = (Ok tt, w') →
   ∃ r f',
    record w = Some r ∧ record w' = Some r ∧
    field w' = Some f' ∧
    dom (keys f') = dom (schema_after (rvalue r) (keys f)) ∧
    _record_id w' = Some (id r) ∧
    dom (fields w') = dom (rvalue r) ∩ dom (keys f') ∧
    dom (rows w') = dom (rvalue r) ∩ dom (keys f') ∧
    dom (buttons w') = dom (rvalue r) ∩ dom (keys f') ∧
    (∀ key, key ∈ dom (rvalue r) ∩ dom (keys f') → key ∉ dom (fields w) →
       ∃ n, (next_object w ≤ n)%nat ∧ rows w' !! key = Some (new_row n)) ∧
    (Some (id r) = _record_id w →
     ∀ key, key ∈ dom (fields w) → key ∈ dom (rvalue r) →
       rows w' !! key = rows w !! key) ∧
    (Some (id r) ≠ _record_id w →
     ∀ key row, rows w' !! key = Some row →
       ∃ n, (next_object w ≤ n)%nat ∧ row = new_row n) ∧
    (table_ok w → table_ok w')) ∧
  (∀ x w', display w = (Raise x, w') →
     (record w = None ∧ x = AttributeError) ∨
     ∃ r key val wa,
       record w = Some r ∧ rvalue r !! key = Some val ∧
       is_Some (schema_after (rvalue r) (keys f) !! key) ∧
       display_item (rvalue r) (key, val) wa = (Raise x, w')).
Proof.
  intros Hf Hw Hin. split; [|intros x w'; by apply display_raise].
  intros w' Hrun.
  destruct (display_states w w' f Hf Hw Hrun)
    as (r & wk & w2 & Hr & Hfk & Hnk & Hcase & Hshown & Hw2 & Hf' & Hr' & Hfd' & Hrc' & Hid').
  pose proof (rows_in_schema_start w wk f r Hf Hin Hcase) as Hsub.
  destruct Hshown as (_ & _ & Hdom2 & _ & Hkept & Hnew).
  set (K := schema_after (rvalue r) (keys f)) in *.
  assert (list_to_set (sorted_items (rvalue r)).*1 = dom (rvalue r)) as Hset.
  { apply set_eq. intros k. by rewrite elem_of_list_to_set, sorted_items_keys. }
  rewrite Hset in Hdom2.
  assert (dom (fields w') = dom (rvalue r) ∩ dom K) as Hdom'.
  { apply set_eq. intros k. rewrite elem_of_dom, Hf', elem_of_intersection.
    case_decide as Hk.
    - rewrite <- elem_of_dom, Hdom2, elem_of_union, elem_of_intersection.
      split; [intros [?%Hsub|[? ?]]; tauto | tauto].
    - split; [by intros [? ?] | tauto]. }
  assert (same_keys w') as [Hb' Hrw'] by (by eapply display_same_keys).
  assert (∀ key, key ∉ dom (fields w) → rows wk !! key = None) as Hnone.
  { intros key Hkey. destruct Hcase as [(_ & _ & ->)|(_ & _ & ->)]; [|done].
    destruct Hw as [_ Hd]. apply not_elem_of_dom. by rewrite <- Hd. }
  exists r, {| keys := K |}. split_and!; try done.
  - congruence.
  - by rewrite <- Hrw'.
  - by rewrite <- Hb'.
  - intros key Hkey Hfresh. simpl in Hkey.
    assert (is_Some (rows w' !! key)) as [row Hrow].
    { apply elem_of_dom. by rewrite <- Hrw', Hdom'. }
    rewrite Hrow. pose proof Hrow as Hrow2. rewrite Hr' in Hrow2.
    case_decide; [|done].
    destruct (Hnew key row Hrow2) as [Hold|(n & Hn & ->)].
    + rewrite (Hnone key Hfresh) in Hold. done.
    + exists n. split; [lia | done].
  - intros Heq key Hkey Hval. rewrite Hr'. case_decide; [|done].
    destruct Hcase as [(_ & Hd & <-)|(Hne & _)]; [|done].
    apply Hkept. by rewrite Hd.
  - intros Hne key row Hrow. rewrite Hr' in Hrow. case_decide; [|done].
    destruct Hcase as [(Heq & _)|(_ & _ & Hrk)]; [done|].
    destruct (Hnew key row Hrow) as [Hold|(n & Hn & ->)].
    + by rewrite Hrk in Hold.
    + exists n. split; [lia | done].
  - intros Ht. replace w' with (display w).2 by (by rewrite Hrun).
    apply display_rows_and_table. split; [by apply same_keys_rows_have_entries | done].
Qed.

(** C6: under the same conditions, after a call of [display] that returns,
    the entry of every key with a row carries the style class [invalid]
    exactly when the domain of the key, decoded from its definition in the
    schema, ['[]'] when the definition has none, does not evaluate to true
    on the whole value of the field. *)
Theorem display_marks_invalid (w w' : DictWidget) (f : Field) :
  field w = Some f → same_keys w → rows_in_schema w →
  display w = (Ok tt, w') →
  ∃ r f',
    record w' = Some r ∧ field w' = Some f' ∧
    (∀ key e, fields w' !! key = Some e →
       ∃ ks, keys f' !! key = Some ks ∧
             (marked_invalid e ↔ eval_domain (key_domain ks) (rvalue r) = false)) ∧
    (∀ ks, domain ks = None → key_domain ks = decode "[]").
Proof.
  intros Hf Hw Hin Hrun.
  destruct (display_states w w' f Hf Hw Hrun)
    as (r & wk & w2 & Hr & Hfk & Hnk & Hcase & Hshown & Hw2 & Hf' & Hr' & Hfd' & Hrc' & Hid').
  pose proof (rows_in_schema_start w wk f r Hf Hin Hcase) as Hsub.
  destruct Hshown as (_ & _ & Hdom2 & Hmark & _ & _).
  set (K := schema_after (rvalue r) (keys f)) in *.
  exists r, {| keys := K |}. split_and!; [done | congruence | | ].
  - intros key e He. rewrite Hf' in He. case_decide as Hval; [|done].
    assert (key ∈ dom K) as [ks Hks]%elem_of_dom.
    { assert (key ∈ dom (fields w2)) as Hk2 by (apply elem_of_dom; eauto).
      rewrite Hdom2, elem_of_union, elem_of_intersection in Hk2.
      destruct Hk2 as [?%Hsub|[_ ?]]; done. }
    exists ks. split; [done|].
    destruct (Hmark key ks) as (e' & He' & Hflag); [by apply sorted_items_keys | done |].
    by replace e with e' by congruence.
  - intros ks Hnone. unfold key_domain. by rewrite Hnone.
Qed.

(** ** Every row belongs to a key of the schema *)

Lemma sig_remove_rows_in_schema (key : string) (modified : bool) (w : DictWidget) :
  rows_in_schema w → rows_in_schema (_sig_remove key modified w).2.
Proof.
  intros Hw. destruct (sig_remove_run key modified w) as [t ->].
  destruct (fields w !! key); [|done].
  assert (rows_in_schema (with_fields (delete key (fields w)) w)) as Hdel.
  { intros f Hf. simpl. rewrite dom_delete_L. etransitivity; [|by apply Hw].
    by apply subseteq_difference_l. }
  destruct (buttons w !! key); [|done].
  destruct (rows w !! key); [|done]. cbv zeta.
  destruct modified; [|done].
  destruct (set_value_run (with_rows (delete key (rows w))
            (with_table t (with_buttons (delete key (buttons w))
               (with_fields (delete key (fields w)) w))))) as [rc ->].
  exact Hdel.
Qed.

Lemma add_line_rows_in_schema (key : string) (w : DictWidget) :
  rows_in_schema w → rows_in_schema (add_line key w).2.
Proof.
  intros Hw. pose proof (add_line_spec key w) as Hs.
  destruct (field w) as [f|] eqn:Hf; [|by rewrite Hs].
  destruct (keys f !! key) as [ks|] eqn:Hks; [|by rewrite Hs].
  destruct (dict_entries_getitem (type_ ks)) as [c|x]; [|by rewrite Hs].
  destruct (new_entry c key (keys f)) as [e|x]; [|by rewrite Hs].
  assert (∃ w', (add_line key w).2 = w' ∧ fields w' = <[key := e]> (fields w) ∧
                field w' = field w) as (w' & -> & Hfields & Hfield).
  { destruct (gtk_alignment (attrs_align w)) as [[]|x];
      [destruct (schema_string ks) as [s|x]|].
    - destruct Hs as (w' & -> & Hfields & _ & _ & _ & Hfield & _). eauto.
    - destruct Hs as (w' & -> & Hfields & _ & _ & _ & _ & Hfield & _). eauto.
    - destruct Hs as (w' & -> & Hfields & _ & _ & _ & _ & Hfield & _). eauto. }
  intros f' Hf'. rewrite Hfields, dom_insert_L.
  assert (f' = f) as -> by congruence.
  apply union_least; [|by apply Hw].
  apply singleton_subseteq_l, elem_of_dom. eauto.
Qed.

Lemma display_item_rows_in_schema (value : gmap string pyval)
    (item : string * pyval) (w : DictWidget) :
  rows_in_schema w → rows_in_schema (display_item value item w).2.
Proof.
  apply display_item_preserves.
  - intros key w0 _. apply add_line_rows_in_schema.
  - intros key val w1 Hw1. destruct (display_entry_dom value key val w1) as (m & -> & Hm).
    intros f Hf. simpl in *. rewrite Hm. by apply Hw1.
Qed.

Lemma field_add_keys_rows_in_schema (names : list string) (w : DictWidget) :
  rows_in_schema w → rows_in_schema (field_add_keys names w).2.
Proof.
  intros Hw. unfold field_add_keys, get, modify, raise, mbind, M_bind, bind.
  destruct (field w) as [f|] eqn:Hf; [|done]. simpl.
  intros f' [= <-]. simpl. rewrite dom_union_L.
  etransitivity; [by apply Hw | apply union_subseteq_r].
Qed.

Lemma dom_foldl_insert (new_fields : list (string * key_schema))
    (ks : gmap string key_schema) :
  dom ks ⊆ dom (foldl (λ ks '(n, d), <[n := d]> ks) ks new_fields).
Proof.
  revert ks. induction new_fields as [|[n d] l IH]; intros ks; simpl; [done|].
  etransitivity; [|apply IH]. rewrite dom_insert_L. apply union_subseteq_r.
Qed.

Lemma field_add_new_keys_rows_in_schema (ids : list Z) (w : DictWidget) :
  rows_in_schema w → rows_in_schema (field_add_new_keys ids w).2.
Proof.
  intros Hw. unfold field_add_new_keys, get, modify, raise, ret, mbind, M_bind, bind.
  destruct (field w) as [f|] eqn:Hf; [|done]. simpl.
  intros f' [= <-]. simpl.
  etransitivity; [by apply Hw | apply dom_foldl_insert].
Qed.

Lemma readonly_set_rows_in_schema (readonly : bool) (w : DictWidget) :
  rows_in_schema w → rows_in_schema (_readonly_set readonly w).2.
Proof.
  intros Hw.
  destruct (readonly_set_run readonly w) as (w' & -> & Hf' & _ & _ & _ & Hfd & _).
  intros f Hf. simpl in *. rewrite Hf', dom_fmap_L. apply Hw. congruence.
Qed.

Lemma display_rows_in_schema (w : DictWidget) :
  rows_in_schema w → rows_in_schema (display w).2.
Proof.
  intros Hw. unfold display.
  apply bind_preserves.
  { unfold super_display. apply bind_preserves; [done|].
    intros a w'. apply readonly_set_rows_in_schema. }
  clear w Hw. intros _ w Hw.
  apply bind_preserves; [done|]. clear w Hw. intros w0 w Hw.
  destruct (field w0); [|done].
  apply bind_preserves.
  { destruct (decide _); [|done].
    apply bind_preserves.
    - apply for_each_invariant; [done|]. intros x w1 _.
      apply sig_remove_rows_in_schema.
    - by intros _ w'. }
  clear w Hw. intros _ w Hw.
  apply bind_preserves.
  { unfold field_get_client, get, raise, ret, mbind, M_bind, bind.
    by destruct (record w). }
  clear w Hw. intros value w Hw.
  apply bind_preserves.
  { unfold field_keys, get, raise, ret, mbind, M_bind, bind. by destruct (field w). }
  clear w Hw. intros ks w Hw.
  apply bind_preserves.
  { destruct (decide _); [|done]. by apply field_add_keys_rows_in_schema. }
  clear w Hw. intros _ w Hw.
  apply bind_preserves.
  { apply for_each_invariant; [done|]. intros x w1 _.
    apply display_item_rows_in_schema. }
  clear w Hw. intros _ w Hw.
  apply bind_preserves; [done|]. clear w Hw. intros w1 w Hw.
  apply bind_preserves.
  { apply for_each_invariant; [done|]. intros x w2 _.
    apply sig_remove_rows_in_schema. }
  clear w Hw. intros _ w Hw.
  rewrite set_button_sensitive_run. exact Hw.
Qed.

(** That every row belongs to a key of the schema is an invariant of the
    widget: [add_line], [_sig_remove], [display] and [add_new_keys] keep it,
    whether they return or raise. *)
Lemma rows_in_schema_preserved (w : DictWidget) :
  rows_in_schema w →
  (∀ key, rows_in_schema (add_line key w).2) ∧
  (∀ key modified, rows_in_schema (_sig_remove key modified w).2) ∧
  rows_in_schema (display w).2 ∧
  (∀ ids, rows_in_schema (add_new_keys ids w).2).
Proof.
  intros Hw. split_and!.
  - intros key. by apply add_line_rows_in_schema.
  - intros key modified. by apply sig_remove_rows_in_schema.
  - by apply display_rows_in_schema.
  - intros ids. unfold add_new_keys.
    apply bind_preserves; [by apply field_add_new_keys_rows_in_schema|].
    clear w Hw. intros new_keys w Hw.
    apply bind_preserves; [done|]. intros _ w'.
    apply add_new_keys_loop_preserves; [done|].
    intros key w0 _. apply add_line_rows_in_schema.
Qed.

End Widget.

(** ** The theorems on the sample widgets *)

Lemma sample_same_keys : same_keys sample_widget.
Proof. by split. Qed.

Lemma sample_rows_in_schema : rows_in_schema sample_widget.
Proof. intros f _. simpl. rewrite dom_empty_L. apply empty_subseteq. Qed.

Lemma sample_display_returns :
  display sample_widget = (Ok tt, (display sample_widget).2).
Proof. by vm_compute. Qed.

Lemma shown_widget_eq : shown_widget = (display sample_widget).2.
Proof. by vm_compute. Qed.

Lemma shown_same_keys : same_keys shown_widget.
Proof. split; by vm_compute. Qed.

Lemma shown_rows_in_schema : rows_in_schema shown_widget.
Proof.
  rewrite shown_widget_eq.
  by destruct (rows_in_schema_preserved sample_widget sample_rows_in_schema)
    as (_ & _ & ? & _).
Qed.

Lemma shown_field : field shown_widget = Some sample_field.
Proof. by vm_compute. Qed.

Lemma later_display_returns :
  display later_widget = (Ok tt, (display later_widget).2).
Proof. by vm_compute. Qed.

Lemma later_keys :
  dom (rvalue later_record) ∩
  dom (schema_after (rvalue later_record) (keys sample_field)) = {[ "flag" ]}.
Proof. by vm_compute. Qed.

Lemma later_has_colour : "colour" ∈ dom (rows later_widget).
Proof. apply (bool_decide_unpack _). by vm_compute. Qed.

Lemma other_display_returns :
  display other_widget = (Ok tt, (display other_widget).2).
Proof. by vm_compute. Qed.

Lemma other_has_colour :
  rows other_widget !! "colour" = Some (new_row 1) ∧
  is_Some (rows (display other_widget).2 !! "colour").
Proof. split; [by vm_compute|]. vm_compute. by eexists. Qed.

(** C5 on the sample widget once displayed.  When its record comes back
    without its colour, [display] returns and the row of the colour, which
    was there, is gone: the flag alone has a row.  When another record
    comes, with a colour, [display] returns and the row of the colour is a
    new one. *)
Lemma display_rows_follow_value_witness :
  (∃ w', display later_widget = (Ok tt, w') ∧
         "colour" ∈ dom (rows later_widget) ∧ dom (rows w') = {[ "flag" ]}) ∧
  (∃ w' n, display other_widget = (Ok tt, w') ∧
           rows other_widget !! "colour" = Some (new_row 1) ∧
           (next_object other_widget ≤ n)%nat ∧
           rows w' !! "colour" = Some (new_row n)).
Proof.
  split.
  - destruct (display_rows_follow_value later_widget sample_field shown_field
                shown_same_keys shown_rows_in_schema) as [Hok _].
    destruct (Hok _ later_display_returns)
      as (r & f' & Hr & _ & _ & Hk & _ & _ & Hrows & _).
    exists (display later_widget).2.
    split_and!; [exact later_display_returns | exact later_has_colour |].
    injection Hr as <-. rewrite Hrows, Hk. exact later_keys.
  - destruct (display_rows_follow_value other_widget sample_field shown_field
                shown_same_keys shown_rows_in_schema) as [Hok _].
    destruct (Hok _ other_display_returns)
      as (r & f' & Hr & _ & _ & _ & _ & _ & _ & _ & _ & _ & Hnew & _).
    injection Hr as <-.
    destruct other_has_colour as [Hold [row Hrow]].
    destruct (Hnew ltac:(discriminate) "colour" row Hrow) as (n & Hn & ->).
    exists (display other_widget).2, n.
    split_and!; [exact other_display_returns | exact Hold | exact Hn | exact Hrow].
Defined.

(** C6 on the sample widget: the entry of the flag, which is not checked,
    is marked, its domain asking for a checked flag. *)
Lemma display_marks_invalid_witness :
  ∃ e, fields (display sample_widget).2 !! "flag" = Some e ∧ marked_invalid e.
Proof.
  destruct (display_marks_invalid sample_widget (display sample_widget).2
              sample_field eq_refl sample_same_keys sample_rows_in_schema
              sample_display_returns)
    as (r & f' & Hr & Hf' & Hmark & _).
  destruct (fields (display sample_widget).2 !! "flag") as [e|] eqn:He;
    [|by vm_compute in He].
  exists e. split; [done|].
  destruct (Hmark "flag" e He) as (ks & Hks & Hflag). apply Hflag.
  assert (r = sample_record) as -> by (by vm_compute in Hr; injection Hr).
  assert (f' = {| keys := keys sample_field |}) as ->
    by (by vm_compute in Hf'; injection Hf').
  assert (ks = flag_schema) as -> by (by vm_compute in Hks; injection Hks).
  by vm_compute.
Defined.

(** C7 on the widget that has a key of each type: for each of the eight
    types [add_line] returns and the key has an entry of the class of the
    type, and the key of type [binary] gets no row. *)
Lemma add_line_selects_by_type_witness :
  (∃ w' e, add_line "char" typed_widget = (Ok tt, w') ∧
           fields w' !! "char" = Some e ∧ cls e = DictEntry) ∧
  (∃ w' e, add_line "boolean" typed_widget = (Ok tt, w') ∧
           fields w' !! "boolean" = Some e ∧ cls e = DictBooleanEntry) ∧
  (∃ w' e, add_line "selection" typed_widget = (Ok tt, w') ∧
           fields w' !! "selection" = Some e ∧ cls e = DictSelectionEntry) ∧
  (∃ w' e, add_line "datetime" typed_widget = (Ok tt, w') ∧
           fields w' !! "datetime" = Some e ∧ cls e = DictDateTimeEntry) ∧
  (∃ w' e, add_line "date" typed_widget = (Ok tt, w') ∧
           fields w' !! "date" = Some e ∧ cls e = DictDateEntry) ∧
  (∃ w' e, add_line "integer" typed_widget = (Ok tt, w') ∧
           fields w' !! "integer" = Some e ∧ cls e = DictIntegerEntry) ∧
  (∃ w' e, add_line "float" typed_widget = (Ok tt, w') ∧
           fields w' !! "float" = Some e ∧ cls e = DictFloatEntry) ∧
  (∃ w' e, add_line "numeric" typed_widget = (Ok tt, w') ∧
           fields w' !! "numeric" = Some e ∧ cls e = DictNumericEntry) ∧
  add_line "binary" typed_widget = (Raise (KeyError "binary"), typed_widget).
Proof.
  assert (∀ t c,
    keys typed_field !! t = Some (typed_schema t) →
    (t, c) ∈ [ ("char", DictEntry); ("boolean", DictBooleanEntry);
               ("selection", DictSelectionEntry); ("datetime", DictDateTimeEntry);
               ("date", DictDateEntry); ("integer", DictIntegerEntry);
               ("float", DictFloatEntry); ("numeric", DictNumericEntry) ] →
    ∃ w' e, add_line t typed_widget = (Ok tt, w') ∧
            fields w' !! t = Some e ∧ cls e = c) as Hrow.
  { intros t c Ht Hc.
    destruct (add_line_selects_by_type t typed_widget typed_field (typed_schema t)
                eq_refl Ht) as (Hin & _ & _).
    destruct (Hin c Hc eq_refl) as (w' & e & Hrun & He & Hcls & _);
      [by eexists | intros _; by eexists |].
    by exists w', e. }
  split_and!; try (apply Hrow; [reflexivity | repeat constructor]).
  destruct (add_line_selects_by_type "binary" typed_widget typed_field
              (typed_schema "binary") eq_refl eq_refl) as (_ & _ & Hout).
  apply Hout. by apply (bool_decide_unpack _).
Defined.

(** C8 as stated, refuted: with alignment attributes whose first one is a
    word, [add_line] on the colour raises [ValueError] once the entry of the
    colour is in [fields], and [buttons] and [rows] do not have the key; and
    [display], which calls it, raises the same way. *)
Lemma add_line_breaks_same_keys :
  (¬ ∀ (w : DictWidget) (key : string),
       same_keys w → same_keys (add_line key w).2) ∧
  (¬ ∀ w : DictWidget, same_keys w → same_keys (display w).2).
Proof.
  assert (same_keys word_widget) as Hw by (by split).
  split; intros Hall.
  - destruct (Hall word_widget "colour" Hw) as [Hb _].
    vm_compute in Hb. discriminate Hb.
  - destruct (Hall word_widget Hw) as [Hb _].
    vm_compute in Hb. discriminate Hb.
Qed.

(** C8, amended, on the sample widgets: the three maps have the same keys
    after [display] has returned, and after a removal then; and after
    [add_line] has raised for the alignment attributes, the buttons and the
    rows still have the same keys. *)
Lemma same_keys_preserved_witness :
  same_keys (display sample_widget).2 ∧
  same_keys (_sig_remove "colour" true (display sample_widget).2).2 ∧
  (add_line "colour" word_widget).1 = Raise ValueError ∧
  rows_have_entries (add_line "colour" word_widget).2.
Proof.
  destruct (same_keys_preserved sample_widget sample_same_keys)
    as (_ & _ & Hdisplay & _).
  pose proof (Hdisplay _ sample_display_returns) as Hshown.
  split_and!; [exact Hshown | | by vm_compute |].
  - destruct (same_keys_preserved _ Hshown) as (_ & Hremove & _).
    apply Hremove.
  - assert (same_keys word_widget) as Hw by (by split).
    destruct (same_keys_preserved word_widget Hw) as (_ & _ & _ & _ & _ & Hadd & _).
    apply Hadd.
Defined.

End DictionaryFacts.


(** * More on product.py *)

Module ProductProperties.
Import Product ProductFacts.

(** The dictionary a loop over the products fills in. *)
Lemma foldl_insert_dom {V} (f : Template → V) (ps : list Template) (res : gmap Z V) :
  dom (foldl (λ res p, <[id p := f p]> res) res ps) = dom res ∪ list_to_set (id <$> ps).
Proof.
  revert res. induction ps as [|p ps IH]; intros res; simpl.
  - by rewrite union_empty_r_L.
  - rewrite IH, dom_insert_L. apply set_eq. intros k.
    rewrite !elem_of_union, elem_of_singleton. tauto.
Qed.

Lemma foldl_insert_notin {V} (f : Template → V) (ps : list Template) (res : gmap Z V)
    (k : Z) :
  k ∉ id <$> ps → foldl (λ res p, <[id p := f p]> res) res ps !! k = res !! k.
Proof.
  revert res. induction ps as [|p ps IH]; intros res Hk; simpl; [done|].
  rewrite fmap_cons, not_elem_of_cons in Hk. destruct Hk as [Hne Hk].
  rewrite IH by done. by apply lookup_insert_ne.
Qed.

Lemma foldl_insert_lookup {V} (f : Template → V) (ps : list Template) (res : gmap Z V)
    (p : Template) :
  NoDup (id <$> ps) → p ∈ ps →
  foldl (λ res p, <[id p := f p]> res) res ps !! id p = Some (f p).
Proof.
  revert res. induction ps as [|q ps IH]; intros res Hnd Hp; simpl.
  - by apply elem_of_nil in Hp.
  - rewrite fmap_cons in Hnd. apply NoDup_cons in Hnd as [Hq Hnd].
    apply elem_of_cons in Hp as [->|Hp].
    + rewrite foldl_insert_notin by done. apply lookup_insert_eq.
    + by apply IH.
Qed.

(** X1: when [get_account] returns on a list of products, the keys of the
    dictionary it returns are the ids of the products, and, the ids being
    distinct, every product finds under its id its own account, or, when it
    has none, the account of its category. *)
Theorem get_account_lookup (k : account_kind) (products : list Template)
    (res : gmap Z Z) :
  get_account products (account_used_name k) = Ok res →
  dom res = list_to_set (id <$> products) ∧
  (NoDup (id <$> products) →
   ∀ p, p ∈ products →
     ∃ a, res !! id p = Some a ∧
          (local_account k p = Some a ∨
           local_account k p = None ∧ parent_account k p = Some a)).
Proof.
  unfold get_account. intros Hok.
  assert (∀ p, p ∈ products → missing_account k p = false) as Hall.
  { intros p Hp. destruct (missing_account k p) eqn:Hm; [|done].
    assert (∃ e, get_account_loop (strip5 (account_used_name k)) products ∅ = Raise e)
      as [e He] by (apply get_account_loop_raises; eauto).
    cbv zeta in Hok. congruence. }
  apply get_account_loop_ok in Hok as ->. split.
  - by rewrite foldl_insert_dom, dom_empty_L, union_empty_l_L.
  - intros Hnd p Hp. rewrite (foldl_insert_lookup _ _ _ p Hnd Hp).
    specialize (Hall p Hp). unfold missing_account in Hall.
    destruct (local_account k p) as [a|]; [eauto|].
    destruct (parent_account k p) as [a|]; [eauto | done].
Qed.

(** X1 on two templates of the sample category: the first has no revenue
    account of its own and gets that of the category. *)
Lemma get_account_lookup_witness :
  ∃ a, ({[ 1 := 21; 3 := 21 ]} : gmap Z Z) !! 1 = Some a ∧
       (local_account Revenue flagged_template = Some a ∨
        local_account Revenue flagged_template = None ∧
        parent_account Revenue flagged_template = Some a).
Proof.
  pose (other := {| id := 3; name := "Other"; category := sample_category;
                    account_category := false; account_expense := None;
                    account_revenue := None; taxes_category := false;
                    customer_taxes := []; supplier_taxes := [] |}).
  destruct (get_account_lookup Revenue [flagged_template; other]
              {[ 1 := 21; 3 := 21 ]} eq_refl) as [_ Hlook].
  apply (Hlook ltac:(by apply (bool_decide_unpack _)) flagged_template). left.
Defined.

(** X2: [get_account] stops at the first product, in the order of the
    list, that has neither an account of its own nor one on its category:
    the error it raises names that product, whatever comes after it. *)
Theorem get_account_first_missing (k : account_kind) (before after : list Template)
    (p : Template) :
  (∀ q, q ∈ before → missing_account k q = false) →
  missing_account k p = true →
  get_account (before ++ p :: after) (account_used_name k)
  = Raise (missing_account_error p).
Proof.
  unfold get_account. cbv zeta. generalize (∅ : gmap Z Z).
  induction before as [|q before IH]; intros res Hbefore Hp; simpl.
  - by rewrite get_account_step_missing, Hp.
  - rewrite get_account_step_missing, (Hbefore q) by left.
    apply IH; [|done]. intros q' Hq'. apply Hbefore. by right.
Qed.

(** X2 on a template with an account followed by two without. *)
Lemma get_account_first_missing_witness :
  get_account [flagged_template; bare_template; bare_template]
    (account_used_name Expense)
  = Raise (missing_account_error bare_template).
Proof.
  apply (get_account_first_missing Expense [flagged_template] [bare_template]).
  - intros q ->%list_elem_of_singleton. reflexivity.
  - reflexivity.
Defined.

Section Cursor.
Context `{TableHandler DB}.

Lemma init_run (self : rel_model) (module_name : string) (cur : cursor DB) :
  init self module_name cur =
  let new :=
    (if column_exist (database cur) (_table self) "product"
     then [IndexRemove (_table self) "product"; DropFk (_table self) "product";
           ColumnRename (_table self) "product" "category"]
     else []) ++ [SuperInit (_name self) module_name] in
  {| database := foldl (λ db c, exec c db) (database cur) new;
     calls := calls cur ++ new |}.
Proof.
  unfold init, call. destruct (column_exist _ _ _); simpl; [|done].
  by rewrite <- !app_assoc.
Qed.

(** X3: on a cursor that has been used already, [init] of a relation model
    keeps the calls made before it and adds its own; the last one is the
    call of the parent class, every other one is made on the table of the
    model itself, and the two models have different tables, so that the
    migration of one never touches the table of the other. *)
Theorem init_appends (self : rel_model) (module_name : string) (cur : cursor DB) :
  ∃ new,
    calls (init self module_name cur) = calls cur ++ new ∧
    database (init self module_name cur) = foldl (λ db c, exec c db) (database cur) new ∧
    last new = Some (SuperInit (_name self) module_name) ∧
    (∀ c, c ∈ new →
       c = SuperInit (_name self) module_name ∨ ddl_table c = Some (_table self)) ∧
    (∀ other, _table other = _table self → other = self).
Proof.
  rewrite init_run. cbv zeta. eexists. split_and!; [done | done | | |].
  - by destruct (column_exist _ _ _).
  - intros c Hc. destruct (column_exist _ _ _); simpl in Hc.
    + repeat (apply elem_of_cons in Hc as [->|Hc]; [by eauto|]).
      by apply elem_of_nil in Hc.
    + apply list_elem_of_singleton in Hc as ->. by left.
  - by intros [] Heq; destruct self.
Qed.

End Cursor.

End ProductProperties.


(** * More on trytond/tests/tools.py *)

Module ToolsProperties.
Import Tools ToolsFacts.

Section Runs.
Context `{TestTryton}.

Lemma setup_function_cases (sf : option py_object) :
  named sf ∨ sf = Some NotCallable ∨ ∃ raises, sf = Some (Unnamed raises).
Proof. destruct sf as [[q r|r|]|]; [by left | eauto | eauto | by left]. Qed.

(** X4: a [cache_file_name] that is not empty hides the modules: two calls
    with the same file name and the same setup function use the same cache
    whatever their modules are, so that, when this cache can be restored,
    the second call does what the first does and activates none of its own
    modules. *)
Theorem cache_file_name_hides_modules (n : string) (ms1 ms2 : modules_arg)
    (sf : option py_object) :
  n ≠ "" → sf ≠ Some NotCallable →
  cache_name_of ms1 sf (Some n) = cache_name_of ms2 sf (Some n) ∧
  (restore_db_cache (cache_name_of ms1 sf (Some n)) = true →
   activate_modules ms1 sf (Some n) [] = activate_modules ms2 sf (Some n) [] ∧
   ∀ records, ModuleClickActivate records ∉ (activate_modules ms2 sf (Some n) []).2).
Proof.
  intros Hn Hsf.
  assert (cache_name_of ms1 sf (Some n) = cache_name_of ms2 sf (Some n)) as Hname.
  { unfold cache_name_of. apply String.eqb_neq in Hn. by rewrite Hn. }
  split; [done|]. intros Hhit.
  destruct (setup_function_cases sf) as [Hnamed|[->|[raises ->]]]; [|done|].
  - rewrite !activate_modules_hit; try done; try (by rewrite <- Hname).
    split; [by rewrite Hname|]. simpl. intros records Hin.
    apply elem_of_cons in Hin as [?|Hin]; [done|].
    by apply list_elem_of_singleton in Hin.
  - rewrite !activate_modules_unnamed. split; [done|].
    intros records Hin. by apply elem_of_nil in Hin.
Qed.

Lemma backup_cases (modules : modules_arg)
    (sf : option py_object) (cfn : option string) (name : string) :
  let cache_name := cache_name_of modules sf cfn in
  let run := activate_modules modules sf cfn [] in
  BackupDbCache name ∈ run.2 →
  name = cache_name ∧
  restore_db_cache cache_name = false ∧
  run.1 = Ok {| created_after := 2 |} ∧
  head run.2 = Some (RestoreDbCache cache_name) ∧
  last run.2 = Some (BackupDbCache cache_name).
Proof.
  intros cache_name run Hin. subst run.
  destruct (setup_function_cases sf) as [Hsf|[->|[r ->]]].
  2: { rewrite activate_modules_not_callable in Hin. by apply elem_of_nil in Hin. }
  2: { rewrite activate_modules_unnamed in Hin. by apply elem_of_nil in Hin. }
  destruct (restore_db_cache cache_name) eqn:Hhit.
  { subst cache_name. rewrite activate_modules_hit in Hin by done. simpl in Hin.
    apply elem_of_cons in Hin as [?|Hin]; [done|].
    by apply list_elem_of_singleton in Hin. }
  subst cache_name. rewrite activate_modules_miss in * by done.
  set (cn := cache_name_of modules sf cfn) in *.
  destruct (_ =? _)%nat.
  - destruct sf as [[q [e|]|r|]|]; simpl in *.
    + repeat (apply elem_of_cons in Hin as [?|Hin]; [done|]).
      by apply elem_of_nil in Hin.
    + repeat (apply elem_of_cons in Hin as [Heq|Hin]; [by (done || injection Heq as ->)|]).
      by apply elem_of_nil in Hin.
    + done.
    + done.
    + repeat (apply elem_of_cons in Hin as [Heq|Hin]; [by (done || injection Heq as ->)|]).
      by apply elem_of_nil in Hin.
  - simpl in Hin.
    repeat (apply elem_of_cons in Hin as [?|Hin]; [done|]).
    by apply elem_of_nil in Hin.
Qed.

(** X5: the cache is backed up only by a call that returns: when
    [backup_db_cache] is called, it is called on the name of the cache that
    could not be restored, as the last call, and [activate_modules] returns
    the configuration; a call that raises backs nothing up. *)
Theorem backup_only_after_success (modules : modules_arg)
    (sf : option py_object) (cfn : option string) (name : string) :
  let cache_name := cache_name_of modules sf cfn in
  let run := activate_modules modules sf cfn [] in
  BackupDbCache name ∈ run.2 →
  name = cache_name ∧
  restore_db_cache cache_name = false ∧
  run.1 = Ok {| created_after := 2 |} ∧
  head run.2 = Some (RestoreDbCache cache_name) ∧
  last run.2 = Some (BackupDbCache cache_name).
Proof. apply backup_cases. Qed.

(** X6: the ways [activate_modules] fails.  Either the setup function is
    not callable and the assertion fails, or it is a callable without a
    qualified name and reading that name raises [AttributeError]: in both
    cases nothing has been called.  Or the cache could not be restored and
    the database has been dropped and created again, no cache is backed up,
    and the error is the failed assertion on the modules found, raised
    before any module is activated, or the error of the setup function,
    which was the last call. *)
Theorem failure_after_drop (modules : modules_arg)
    (sf : option py_object) (cfn : option string) (e : exn) :
  let run := activate_modules modules sf cfn [] in
  run.1 = Raise e →
  (sf = Some NotCallable ∧ e = AssertionError ∧ run.2 = []) ∨
  ((∃ raises, sf = Some (Unnamed raises)) ∧ e = AttributeError ∧ run.2 = []) ∨
  (named sf ∧
   restore_db_cache (cache_name_of modules sf cfn) = false ∧
   DropCreate ∈ run.2 ∧
   (∀ name, BackupDbCache name ∉ run.2) ∧
   (e = AssertionError ∧
    List.length (module_find (as_list modules)) ≠ List.length (as_list modules) ∧
    (∀ records, ModuleClickActivate records ∉ run.2)
    ∨ ∃ q, sf = Some (Callable q (Some e)) ∧ last run.2 = Some (SetupFunction q))).
Proof.
  intros run Hraise. subst run.
  destruct (setup_function_cases sf) as [Hsf|[->|[r ->]]].
  2: { left. rewrite activate_modules_not_callable in *. simpl in *.
       by injection Hraise as <-. }
  2: { right. left. rewrite activate_modules_unnamed in *. simpl in *.
       injection Hraise as <-. eauto. }
  right. right. split; [done|].
  destruct (restore_db_cache (cache_name_of modules sf cfn)) eqn:Hhit.
  { by rewrite activate_modules_hit in Hraise. }
  split; [done|]. rewrite activate_modules_miss in * by done.
  set (cn := cache_name_of modules sf cfn) in *.
  destruct (_ =? _)%nat eqn:Hlen.
  - destruct sf as [[q [e'|]|r|]|]; simpl in *; try done.
    injection Hraise as ->. split_and!.
    + do 1 right. left.
    + intros name Hin.
      repeat (apply elem_of_cons in Hin as [?|Hin]; [done|]).
      by apply elem_of_nil in Hin.
    + right. eauto.
  - simpl in *. injection Hraise as <-. split_and!.
    + right. left.
    + intros name Hin.
      repeat (apply elem_of_cons in Hin as [?|Hin]; [done|]).
      by apply elem_of_nil in Hin.
    + left. split_and!; [done | by apply Nat.eqb_neq |].
      intros records Hin.
      repeat (apply elem_of_cons in Hin as [?|Hin]; [done|]).
      by apply elem_of_nil in Hin.
Qed.

Lemma append_assoc (a b c : string) : (a +:+ b) +:+ c = a +:+ (b +:+ c).
Proof.
  induction a as [|x a IH]; [done|].
  change (String x ((a +:+ b) +:+ c) = String x (a +:+ (b +:+ c))). by rewrite IH.
Qed.

Lemma concat_snoc (ms : list string) (q : string) :
  ms ≠ [] → String.concat "-" (ms ++ [q]) = String.concat "-" ms +:+ "-" +:+ q.
Proof.
  induction ms as [|m ms IH]; [done|]. intros _.
  destruct ms as [|m' ms]; [done|].
  change (String.concat "-" ((m :: m' :: ms) ++ [q]))
    with (m +:+ "-" +:+ String.concat "-" ((m' :: ms) ++ [q])).
  rewrite IH by done.
  change (String.concat "-" (m :: m' :: ms))
    with (m +:+ "-" +:+ String.concat "-" (m' :: ms)).
  by rewrite !append_assoc.
Qed.

(** X7: a setup function named as a module shares its cache.  Without a
    [cache_file_name], the cache of some modules with a setup function is
    the cache of these modules followed by a module of the name of the
    function: the first call backs up no other cache, and when this cache
    can be restored the second call restores it and activates no module. *)
Theorem setup_function_named_as_module (ms : list string) (q : string)
    (raises : option exn) :
  ms ≠ [] →
  let cache_name := cache_name_of (Names ms) (Some (Callable q raises)) None in
  cache_name_of (Names (ms ++ [q])) None None = cache_name ∧
  (∀ name, BackupDbCache name ∈
             (activate_modules (Names ms) (Some (Callable q raises)) None []).2 →
           name = cache_name) ∧
  (restore_db_cache cache_name = true →
   activate_modules (Names (ms ++ [q])) None None []
   = (Ok {| created_after := 1 |}, [RestoreDbCache cache_name; SetTrytond])).
Proof.
  intros Hms cache_name.
  assert (cache_name_of (Names (ms ++ [q])) None None = cache_name) as Hname.
  { subst cache_name. unfold cache_name_of. simpl. by apply concat_snoc. }
  split_and!; [done | |].
  - intros name Hin. by apply backup_cases in Hin as [-> _].
  - intros Hhit. rewrite <- Hname in *. by apply activate_modules_hit.
Qed.

End Runs.

(** X4 in the test environment with the cache of [ir] alone: with the file
    name [ir], activating [party] or activating [stock] and [sale] restores
    the cache of [ir]. *)
Lemma cache_file_name_hides_modules_witness :
  activate_modules (Name "party") None (Some "ir") []
  = activate_modules (Names ["stock"; "sale"]) None (Some "ir") [].
Proof.
  destruct (cache_file_name_hides_modules "ir" (Name "party")
              (Names ["stock"; "sale"]) None) as [_ Hsame];
    [discriminate | discriminate |].
  apply Hsame. reflexivity.
Defined.

(** X5 in the same environment: activating [party] with a setup function
    that returns backs the cache [party-setup] up. *)
Lemma backup_only_after_success_witness :
  (activate_modules (Names ["party"]) (Some (Callable "setup" None)) None []).1
  = Ok {| created_after := 2 |}.
Proof.
  destruct (backup_only_after_success (Names ["party"])
              (Some (Callable "setup" None)) None "party-setup")
    as (_ & _ & Hok & _); [|exact Hok].
  apply (bool_decide_unpack _). vm_compute. exact I.
Defined.

(** X6 in the same environment: a setup function that raises [ValueError]
    makes the call fail after the database has been dropped, and no cache is
    backed up. *)
Lemma failure_after_drop_witness :
  let run := activate_modules (Name "party")
               (Some (Callable "setup" (Some ValueError))) None [] in
  DropCreate ∈ run.2 ∧ ∀ name, BackupDbCache name ∉ run.2.
Proof.
  destruct (failure_after_drop (Name "party")
              (Some (Callable "setup" (Some ValueError))) None ValueError)
    as [(Hsf & _)|[([r Hsf] & _)|(_ & _ & Hdrop & Hback & _)]];
    [reflexivity | discriminate Hsf | discriminate Hsf |].
  split; [exact Hdrop | exact Hback].
Defined.

(** X7 in the same environment: the cache of [party] with the setup
    function [company] is the cache of [party] and [company]. *)
Lemma setup_function_named_as_module_witness :
  cache_name_of (Names ["party"; "company"]) None None
  = cache_name_of (Names ["party"]) (Some (Callable "company" None)) None.
Proof.
  destruct (setup_function_named_as_module ["party"] "company" None) as [Hname _];
    [discriminate | exact Hname].
Defined.

End ToolsProperties.


(** * More on dictionary.py *)

Module DictionaryProperties.
Import Dictionary DictionaryFacts.

Section Entries_and_widget.
Context `{PyNumbers} `{!Host}.

(** ** Reading and setting an entry *)

Lemma substring_all (s : string) : String.substring 0 (String.length s) s = s.
Proof. induction s as [|a s IH]; simpl; [done | by rewrite IH]. Qed.

(** The loop of [DictSelectionEntry.get_value] returns the value it starts
    from or a truthy value of an item whose key starts with the text. *)
Lemma selection_lookup_result (text : string) (items : list (string * pyval))
    (v0 : pyval) :
  selection_lookup text items v0 = v0 ∨
  (truthy (selection_lookup text items v0) = true ∧
   ∃ txt, (txt, selection_lookup text items v0) ∈ items ∧
          str_lower (String.substring 0 (String.length text) txt) = str_lower text).
Proof.
  revert v0. induction items as [|[txt val] items IH]; intros v0; simpl; [by left|].
  destruct (truthy val) eqn:Hval; simpl.
  - destruct (String.eqb _ _) eqn:Hmatch.
    + apply String.eqb_eq in Hmatch.
      destruct (_ =? _)%nat.
      * right. split; [done|]. exists txt. split; [left | done].
      * destruct (IH val) as [->|(Ht & txt' & Hin & Hpre)].
        -- right. split; [done|]. exists txt. split; [left | done].
        -- right. split; [done|]. exists txt'. split; [by right | done].
    + destruct (IH v0) as [->|(Ht & txt' & Hin & Hpre)]; [by left|].
      right. split; [done|]. exists txt'. split; [by right | done].
  - destruct (IH v0) as [->|(Ht & txt' & Hin & Hpre)]; [by left|].
    right. split; [done|]. exists txt'. split; [by right | done].
Qed.

(** X8: a selection entry never raises when it is read; what it returns is
    [None], or a truthy value of [_selection] under a key that starts with
    the text of the entry, the case of the letters apart; so a choice whose
    value is falsy, an empty string or a zero, cannot be read back, and an
    empty text gives [None]. *)
Theorem selection_get_value_result (e : entry) :
  cls e = DictSelectionEntry →
  ∃ v, entry_get_value e = Ok v ∧
       (v = VNone ∨
        (truthy v = true ∧ text (widget e) ≠ "" ∧
         ∃ txt, (txt, v) ∈ _selection e ∧
                str_lower (String.substring 0 (String.length (text (widget e))) txt)
                = str_lower (text (widget e)))).
Proof.
  intros Hcls. unfold entry_get_value. rewrite Hcls.
  destruct (String.eqb (text (widget e)) "") eqn:Hempty; simpl; [eauto|].
  apply String.eqb_neq in Hempty.
  eexists. split; [done|].
  destruct (selection_lookup_result (text (widget e)) (_selection e) VNone)
    as [->|(Ht & txt & Hin & Hpre)]; [by left|].
  right. eauto.
Qed.

(** The loop of [get_value] finds an exact match. *)
Lemma selection_lookup_exact (text : string) (items : list (string * pyval))
    (txt : string) (val v0 : pyval) :
  (txt, val) ∈ items → truthy val = true →
  String.length txt = String.length text →
  str_lower txt = str_lower text →
  (∀ txt' val', (txt', val') ∈ items → truthy val' = true →
     String.length txt' = String.length text →
     str_lower txt' = str_lower text → val' = val) →
  selection_lookup text items v0 = val.
Proof.
  intros Hin Hval Hlen Hlow. revert v0 Hin.
  induction items as [|[t v] items IH]; intros v0 Hin Huniq.
  { by apply elem_of_nil in Hin. }
  assert (∀ t' v', truthy v' = true → String.length t' = String.length text →
            str_lower t' = str_lower text →
            String.eqb (str_lower (String.substring 0 (String.length text) t'))
                       (str_lower text) = true ∧
            (String.length t' =? String.length text)%nat = true) as Hexact.
  { intros t' v' _ Hl Hs. rewrite <- Hl, substring_all, Hs.
    split; [apply String.eqb_refl | apply Nat.eqb_refl]. }
  assert (∀ v1, (t, v) ≠ (txt, val) → selection_lookup text items v1 = val) as Htail.
  { intros v1 Hhead. apply IH.
    - apply elem_of_cons in Hin as [?|?]; [congruence | done].
    - intros t' v' Hin'. apply Huniq. by right. }
  simpl. destruct (truthy v) eqn:Hv; simpl.
  - destruct (String.eqb _ _) eqn:Hmatch.
    + destruct (_ =? _)%nat eqn:Hsame.
      * apply (Huniq t v); [left | done | by apply Nat.eqb_eq |].
        apply Nat.eqb_eq in Hsame. apply String.eqb_eq in Hmatch.
        by rewrite <- Hsame, substring_all in Hmatch.
      * apply Htail. intros [= -> ->].
        destruct (Hexact txt val Hval Hlen Hlow) as [_ Hs]. congruence.
    + apply Htail. intros [= -> ->].
      destruct (Hexact txt val Hval Hlen Hlow) as [Hs _]. congruence.
  - apply Htail. intros [= -> ->]. congruence.
Qed.


(** X9: an item of [_selection] whose key is the text of the entry, the
    case of the letters apart, and whose value is truthy wins over the items
    the text is only the beginning of, wherever they are in the dictionary:
    when all such items have the same value, this value is what the entry
    returns. *)
Theorem selection_exact_match (e : entry) (txt : string) (val : pyval) :
  cls e = DictSelectionEntry →
  text (widget e) ≠ "" →
  (txt, val) ∈ _selection e → truthy val = true →
  String.length txt = String.length (text (widget e)) →
  str_lower txt = str_lower (text (widget e)) →
  (∀ txt' val', (txt', val') ∈ _selection e → truthy val' = true →
     String.length txt' = String.length (text (widget e)) →
     str_lower txt' = str_lower (text (widget e)) → val' = val) →
  entry_get_value e = Ok val.
Proof.
  intros Hcls Hne Hin Hval Hlen Hlow Huniq.
  unfold entry_get_value. rewrite Hcls.
  apply String.eqb_neq in Hne. rewrite Hne. simpl. f_equal.
  by apply (selection_lookup_exact _ _ txt).
Qed.

(** X10: what an entry returns once a value has been set, by class.  A
    text entry gives back a string, and the empty string for [None] or any
    other falsy value; a check box gives back the truth of the value; a date
    gives back the value, a date and time the value moved to the time zone
    and back; an entry of numbers gives back [None] for [None]. *)
Theorem entry_round_trip (has_record : bool) (v : pyval) (e e' : entry) :
  entry_set_value has_record v e = Ok e' →
  match cls e with
  | DictEntry =>
      entry_get_value e' = Ok (match v with VStr s => VStr s | _ => VStr "" end)
  | DictBooleanEntry => entry_get_value e' = Ok (VBool (truthy v))
  | DictDateEntry => entry_get_value e' = Ok v
  | DictDateTimeEntry =>
      entry_get_value e' = Ok (untimezoned_date (timezoned_date v))
  | DictIntegerEntry | DictFloatEntry | DictNumericEntry =>
      v = VNone → entry_get_value e' = Ok VNone
  | DictSelectionEntry => True
  end.
Proof.
  intros Hset. pose proof (entry_set_value_cls _ _ _ _ Hset) as (Hcls & _).
  unfold entry_set_value in Hset. unfold entry_get_value. rewrite Hcls.
  destruct (cls e) eqn:Hc.
  - unfold py_or in Hset. destruct v; simpl in Hset;
      repeat match type of Hset with
      | context [if ?b then _ else _] => destruct b eqn:?; simpl in Hset
      end; try done; injection Hset as <-; simpl; try done.
    f_equal. f_equal. symmetry. apply String.eqb_eq.
    by destruct (String.eqb s "").
  - by injection Hset as <-.
  - done.
  - by injection Hset as <-.
  - by injection Hset as <-.
  - intros ->. simpl in Hset. injection Hset as <-. simpl.
    unfold integer_get_value. done.
  - intros ->. simpl in Hset. injection Hset as <-. simpl.
    unfold float_get_value. done.
  - intros ->. simpl in Hset. injection Hset as <-. simpl.
    unfold numeric_get_value. done.
Qed.

(** ** A selection, set and read back *)

(** [d[k] = n] on a dictionary whose keys are values. *)
Lemma values_setitem_elem (k : pyval) (n : string) (d : list (pyval * string))
    (k' : pyval) (n' : string) :
  (k', n') ∈ values_setitem k n d →
  (k', n') ∈ d ∨ (n' = n ∧ (k' = k ∨ (py_eq k' k = true ∧ k' ∈ d.*1))).
Proof.
  induction d as [|[k0 n0] d IH]; simpl.
  - intros [= -> ->]%list_elem_of_singleton. right. split; [done | by left].
  - destruct (py_eq k0 k) eqn:Heq.
    + intros [[= -> ->]|Hin]%elem_of_cons.
      * right. split; [done|]. right. split; [done | left].
      * left. by right.
    + intros [[= -> ->]|Hin]%elem_of_cons; [left; left|].
      destruct (IH Hin) as [?|(-> & [->|[? ?]])].
      * left. by right.
      * right. split; [done | by left].
      * right. split; [done|]. right. split; [done | by right].
Qed.

Lemma values_setitem_keys (k : pyval) (n : string) (d : list (pyval * string))
    (k' : pyval) :
  k' ∈ d.*1 → k' ∈ (values_setitem k n d).*1.
Proof.
  induction d as [|[k0 n0] d IH]; simpl; [by intros ?%elem_of_nil|].
  destruct (py_eq k0 k); simpl; [done|].
  intros [->|Hin]%elem_of_cons; [left | right; by apply IH].
Qed.

Lemma values_setitem_key (k : pyval) (n : string) (d : list (pyval * string)) :
  k ∈ (values_setitem k n d).*1 ∨ ∃ k', k' ∈ d.*1 ∧ py_eq k' k = true.
Proof.
  induction d as [|[k0 n0] d IH]; simpl; [left; left|].
  destruct (py_eq k0 k) eqn:Heq.
  - right. exists k0. split; [left | done].
  - destruct IH as [Hin|(k' & Hin & Hk')].
    + left. simpl. by right.
    + right. exists k'. split; [by right | done].
Qed.

(** [d.get(k, default)] gives the name of [k] when [k] is a key and is the
    only key that equals it. *)
Lemma values_get_elem (k : pyval) (default : string) (d : list (pyval * string)) :
  k ∈ d.*1 → py_eq k k = true →
  (∀ k', k' ∈ d.*1 → py_eq k' k = true → k' = k) →
  (k, values_get k default d) ∈ d.
Proof.
  induction d as [|[k0 n0] d IH]; simpl; [by intros ?%elem_of_nil|].
  intros Hin Hself Honly. destruct (py_eq k0 k) eqn:Heq.
  - rewrite (Honly k0); [left | left | done].
  - right. apply IH; [|done|].
    + apply elem_of_cons in Hin as [->|Hin]; [congruence | done].
    + intros k' Hk'. apply Honly. by right.
Qed.

(** The name that [set_value] writes for a value of the choices that
    equals itself and no other value of the choices is one of its names
    there. *)
Lemma selection_name_in (sel : list (pyval * string)) (v : pyval) :
  v ∈ sel.*1 → py_eq v v = true →
  (∀ v', v' ∈ sel.*1 → py_eq v' v = true ∨ py_eq v v' = true → v' = v) →
  (v, selection_name sel v) ∈ sel.
Proof.
  intros Hv Hself Hsep. unfold selection_name.
  set (build := foldl (λ d '(v, n), values_setitem v n d) []).
  assert (∀ l, (∀ k, k ∈ l.*1 → k ∈ sel.*1) →
            (∀ k, k ∈ (build l).*1 → k ∈ l.*1) ∧
            (∀ n, (v, n) ∈ build l → (v, n) ∈ l) ∧
            (v ∈ l.*1 → v ∈ (build l).*1)) as Hbuild.
  { induction l as [|[k n] l IH] using rev_ind; intros Hsub.
    { split_and!; done. }
    destruct IH as (IHkeys & IHnames & IHkey).
    { intros k' Hk'. apply Hsub. rewrite fmap_app. apply elem_of_app. by left. }
    assert (k ∈ sel.*1) as Hk.
    { apply Hsub. rewrite fmap_app. apply elem_of_app. right. left. }
    unfold build in *. rewrite foldl_app, fmap_app. simpl.
    split_and!.
    - intros k' ([k1 n1] & -> & [Hin|(-> & [->|[_ Hin]])]%values_setitem_elem)
        %list_elem_of_fmap; simpl; apply elem_of_app.
      + left. apply IHkeys. apply list_elem_of_fmap. by exists (k1, n1).
      + right. left.
      + left. by apply IHkeys.
    - intros n' [Hin|(-> & [->|[Heq Hin]])]%values_setitem_elem; apply elem_of_app.
      + left. by apply IHnames.
      + right. left.
      + right. rewrite (Hsep k Hk) by (by right). left.
    - intros [Hin|Hin%list_elem_of_singleton]%elem_of_app.
      + apply values_setitem_keys. by apply IHkey.
      + simpl in Hin. subst k.
        destruct (values_setitem_key v n
                    (foldl (λ d '(v, n), values_setitem v n d) [] l))
          as [?|(k' & Hk' & Heq)]; [done|].
        apply values_setitem_keys.
        rewrite <- (Hsep k'); [done | | by left].
        apply Hsub. rewrite fmap_app. apply elem_of_app. left. by apply IHkeys. }
  destruct (Hbuild sel) as (Hkeys & Hnames & Hkey); [done|].
  apply Hnames. apply values_get_elem; [by apply Hkey | done |].
  intros k' Hk'%Hkeys Heq. apply Hsep; [done | by left].
Qed.

Lemma dict_setitem_spec {V} (k : string) (v : V) (d : list (string * V)) :
  NoDup d.*1 →
  NoDup (dict_setitem k v d).*1 ∧
  ∀ k' v', (k', v') ∈ dict_setitem k v d ↔
           (k' = k ∧ v' = v) ∨ (k' ≠ k ∧ (k', v') ∈ d).
Proof.
  induction d as [|[k0 v0] d IH]; simpl.
  - intros _. split; [apply NoDup_singleton|]. intros k' v'.
    rewrite list_elem_of_singleton, elem_of_nil. split.
    + intros [= -> ->]. by left.
    + intros [[-> ->]|[_ []]]. done.
  - intros [Hk0 Hnd]%NoDup_cons. destruct (IH Hnd) as [IHnd IHin].
    destruct (decide (k0 = k)) as [->|Hne]; simpl.
    + split; [by apply NoDup_cons|]. intros k' v'. rewrite !elem_of_cons. split.
      * intros [[= -> ->]|Hin]; [by left|]. right. split; [|by right].
        intros ->. apply Hk0. apply list_elem_of_fmap. by exists (k, v').
      * intros [[-> ->]|[Hne [[= ? ?]|Hin]]]; [by left | done | by right].
    + split.
      * apply NoDup_cons. split; [|done].
        intros ([k1 v1] & Hk1 & Hin)%list_elem_of_fmap. simpl in Hk1. subst k1.
        apply IHin in Hin as [[? _]|[_ Hin]]; [done|].
        apply Hk0. apply list_elem_of_fmap. by exists (k0, v1).
      * intros k' v'. rewrite !elem_of_cons, IHin. split.
        -- intros [[= -> ->]|[?|[? ?]]]; [|by left|].
           ++ right. split; [done | by left].
           ++ right. split; [done | by right].
        -- intros [?|[? [[= -> ->]|?]]]; [by right; left | by left | right; right].
           done.
Qed.

(** The dictionary [_selection] that [create_widget] fills in from the
    choices, starting from [acc]. *)
Lemma selection_dict_spec (sel : list (pyval * string)) (acc : list (string * pyval)) :
  NoDup acc.*1 →
  let d := foldl (λ d '(value, name), dict_setitem name value d) acc sel in
  NoDup d.*1 ∧
  (∀ n v, (n, v) ∈ d → (v, n) ∈ sel ∨ (n, v) ∈ acc) ∧
  (∀ n v, (n, v) ∈ acc → n ∉ sel.*2 → (n, v) ∈ d) ∧
  (∀ n v, (v, n) ∈ sel → (∀ v', (v', n) ∈ sel → v' = v) → (n, v) ∈ d).
Proof.
  revert acc. induction sel as [|[v0 n0] sel IH]; intros acc Hnd; simpl.
  - split_and!; [done | by right | done |]. intros n v Hin. by apply elem_of_nil in Hin.
  - destruct (dict_setitem_spec n0 v0 acc Hnd) as [Hnd' Hin'].
    destruct (IH _ Hnd') as (IHnd & IHsound & IHkeep & IHcomplete).
    split_and!; [done | | |].
    + intros n v [Hin|Hin]%IHsound; [left; by right|].
      apply Hin' in Hin as [[-> ->]|[_ Hin]]; [left; left | by right].
    + intros n v Hin Hn. rewrite ?fmap_cons, not_elem_of_cons in Hn.
      destruct Hn as [Hne Hn]. simpl in Hne. apply IHkeep; [|done].
      apply Hin'. by right.
    + intros n v Hin Huniq.
      destruct (decide (n ∈ sel.*2)) as [Hn|Hn].
      * apply list_elem_of_fmap in Hn as ([v1 n1] & Hn1 & Hin1). simpl in Hn1. subst n1.
        assert (v1 = v) as -> by (apply Huniq; by right).
        apply IHcomplete; [done|]. intros v' Hv'. apply Huniq. by right.
      * apply elem_of_cons in Hin as [[= -> ->]|Hin].
        -- apply IHkeep; [|done]. apply Hin'. by left.
        -- exfalso. apply Hn. apply list_elem_of_fmap. by exists (v, n).
Qed.

(** X11: a selection, set and read back.  On a selection entry whose
    [_selection] and definition are those that [create_widget] leaves, when
    no choice has an empty name, two choices whose names are the same, the
    case of the letters apart, have the same value, and the value is equal
    to itself and to no other value of the choices, setting a truthy value
    of the choices returns, and reading the entry then gives this value
    back. *)
Theorem selection_round_trip (e : entry) (g : gtk_widget) (d : key_schema)
    (sel : list (pyval * string)) (v : pyval) (has_record : bool) :
  cls e = DictSelectionEntry →
  create_widget DictSelectionEntry d = Ok (g, _selection e, definition e) →
  selection (definition e) = Some sel →
  v ∈ sel.*1 → truthy v = true →
  "" ∉ sel.*2 →
  (∀ v1 n1 v2 n2, (v1, n1) ∈ sel → (v2, n2) ∈ sel →
     str_lower n1 = str_lower n2 → v1 = v2) →
  py_eq v v = true →
  (∀ v', v' ∈ sel.*1 → py_eq v' v = true ∨ py_eq v v' = true → v' = v) →
  ∃ e', entry_set_value has_record v e = Ok e' ∧ entry_get_value e' = Ok v.
Proof.
  intros Hcls Hcreate Hsel Hv Htrue Hempty Hinj Hself Hsep.
  unfold entry_set_value. rewrite Hcls, Hsel. eexists. split; [done|].
  unfold entry_get_value. simpl. rewrite Hcls.
  set (n := selection_name sel v).
  assert ((v, n) ∈ sel) as Hn by (by apply selection_name_in).
  assert (n ≠ "") as Hne.
  { intros Heq. apply Hempty. apply list_elem_of_fmap. exists (v, n). by split. }
  apply String.eqb_neq in Hne. rewrite Hne. simpl. f_equal.
  unfold create_widget in Hcreate.
  destruct (selection d) as [sel0|]; [|done].
  injection Hcreate as _ Hdict Hdef.
  rewrite <- Hdef in Hsel. simpl in Hsel. injection Hsel as Hsel.
  rewrite Hsel in Hdict.
  destruct (selection_dict_spec sel [("", VNone)]) as (_ & Hsound & _ & Hcomplete).
  { apply NoDup_singleton. }
  cbv zeta in Hsound, Hcomplete. rewrite Hdict in Hsound, Hcomplete.
  apply (selection_lookup_exact _ _ n v); [|done|done|done|].
  - apply Hcomplete; [done|]. intros v' Hv'. by apply (Hinj v' n v n).
  - intros txt' val' Hin Hval' _ Hlow.
    apply Hsound in Hin as [Hin|Hin%list_elem_of_singleton].
    + by apply (Hinj val' txt' v n).
    + injection Hin as -> ->. done.
Qed.


(** ** The value of the widget *)

Lemma get_value_items_ok (items : list (string * entry)) (d : gmap string pyval) :
  get_value_items items = Ok d → NoDup items.*1 →
  ∀ k v, d !! k = Some v ↔ ∃ e, (k, e) ∈ items ∧ entry_get_value e = Ok v.
Proof.
  revert d. induction items as [|[key e] items IH]; intros d; simpl.
  - intros [= <-] _ k v. rewrite lookup_empty. split; [done|].
    intros (e & He & _). by apply elem_of_nil in He.
  - destruct (entry_get_value e) as [v1|x] eqn:He; [|done].
    destruct (get_value_items items) as [d'|x] eqn:Hd'; [|done].
    intros [= <-] [Hkey Hnd]%NoDup_cons k v.
    destruct (decide (k = key)) as [->|Hne].
    + rewrite lookup_insert_eq. split.
      * intros [= <-]. exists e. split; [left | done].
      * intros (e' & [[= <-]|Hin]%elem_of_cons & He'); [congruence|].
        exfalso. apply Hkey. apply list_elem_of_fmap. by exists (key, e').
    + rewrite lookup_insert_ne by done. rewrite (IH d' eq_refl Hnd). split.
      * intros (e' & Hin & He'). exists e'. split; [by right | done].
      * intros (e' & [[= -> ->]|Hin]%elem_of_cons & He'); [done | eauto].
Qed.

Lemma get_value_items_raise (items : list (string * entry)) (x : exn) :
  get_value_items items = Raise x →
  ∃ k e, (k, e) ∈ items ∧ entry_get_value e = Raise x.
Proof.
  induction items as [|[key e] items IH]; simpl; [done|].
  destruct (entry_get_value e) as [v1|x'] eqn:He.
  - destruct (get_value_items items) as [d'|x'] eqn:Hd'; [done|].
    intros [= <-]. destruct (IH eq_refl) as (k & e' & Hin & He').
    exists k, e'. split; [by right | done].
  - intros [= <-]. exists key, e. split; [left | done].
Qed.

Lemma get_value_cases (w : DictWidget) :
  match get_value w with
  | (Ok d, w') =>
      w' = w ∧ dom d = dom (fields w) ∧
      ∀ k e, fields w !! k = Some e → ∃ v, entry_get_value e = Ok v ∧ d !! k = Some v
  | (Raise x, w') =>
      w' = w ∧ ∃ k e, fields w !! k = Some e ∧ entry_get_value e = Raise x
  end.
Proof.
  unfold get_value, get, lift, mbind, M_bind, bind. simpl.
  destruct (get_value_items (map_to_list (fields w))) as [d|x] eqn:Hd.
  - pose proof (get_value_items_ok _ _ Hd (NoDup_fst_map_to_list _)) as Hlook.
    assert (∀ k e, fields w !! k = Some e →
              ∃ v, entry_get_value e = Ok v ∧ d !! k = Some v) as Hall.
    { intros k e He. apply elem_of_map_to_list in He.
      destruct (entry_get_value e) as [v|x] eqn:Hv.
      - exists v. split; [done|]. apply Hlook. eauto.
      - exfalso. clear Hlook. revert d Hd.
        induction (map_to_list (fields w)) as [|[k' e'] items IH]; intros d Hd.
        + by apply elem_of_nil in He.
        + simpl in Hd. apply elem_of_cons in He as [[= <- <-]|He].
          * by rewrite Hv in Hd.
          * destruct (entry_get_value e'); [|done].
            destruct (get_value_items items) as [d'|] eqn:Hd'; [|done]. eauto. }
    split_and!; [done | | done].
    apply set_eq. intros k. rewrite !elem_of_dom. split.
    + intros [v (e & He%elem_of_map_to_list & _)%Hlook]. eauto.
    + intros [e (v & _ & Hv)%Hall]. eauto.
  - split; [done|]. apply get_value_items_raise in Hd as (k & e & Hin & He).
    exists k, e. split; [by apply elem_of_map_to_list | done].
Qed.

(** X12: [DictWidget.get_value] leaves the widget as it is; when it
    returns, the dictionary has the keys of the rows and holds, for every
    row, what its entry returns; it raises only what an entry raises. *)
Theorem get_value_reads_every_entry (w : DictWidget) :
  match get_value w with
  | (Ok d, w') =>
      w' = w ∧ dom d = dom (fields w) ∧
      ∀ k e, fields w !! k = Some e → ∃ v, entry_get_value e = Ok v ∧ d !! k = Some v
  | (Raise x, w') =>
      w' = w ∧ ∃ k e, fields w !! k = Some e ∧ entry_get_value e = Raise x
  end.
Proof. apply get_value_cases. Qed.

Lemma set_value_ok (w w' : DictWidget) :
  set_value w = (Ok tt, w') →
  ∃ r d, record w = Some r ∧ get_value w = (Ok d, w) ∧
         w' = with_record (Some {| id := id r; rvalue := d |}) w.
Proof.
  unfold set_value. rewrite bind_run. unfold get at 1.
  destruct (field w); [|done]. rewrite bind_run.
  pose proof (get_value_cases w) as Hget.
  destruct (get_value w) as [[d|x] w1]; [|done].
  destruct Hget as (-> & _).
  destruct (record w) as [r|]; [|done].
  unfold modify. intros [= <-]. eauto.
Qed.

(** X13: when the removal of a row by its button returns, the three maps
    have lost the key and the value of the field in the record has been
    written again from the rows that are left: its keys are the keys of
    these rows, so the key removed is gone from the record too, and so is
    any key the record had without a row. *)
Theorem sig_remove_updates_record (key : string) (w w' : DictWidget) :
  _sig_remove key true w = (Ok tt, w') →
  ∃ r d,
    record w = Some r ∧
    record w' = Some {| id := id r; rvalue := d |} ∧
    fields w' = delete key (fields w) ∧
    buttons w' = delete key (buttons w) ∧
    rows w' = delete key (rows w) ∧
    dom d = dom (fields w) ∖ {[key]} ∧
    ∀ k e, fields w' !! k = Some e → ∃ v, entry_get_value e = Ok v ∧ d !! k = Some v.
Proof.
  destruct (sig_remove_run key true w) as [t ->].
  destruct (fields w !! key); [|done].
  destruct (buttons w !! key); [|done].
  destruct (rows w !! key); [|done]. cbv zeta.
  intros (r & d & Hr & Hget & ->)%set_value_ok.
  pose proof (get_value_cases
    (with_rows (delete key (rows w))
       (with_table t (with_buttons (delete key (buttons w))
          (with_fields (delete key (fields w)) w))))) as Hread.
  rewrite Hget in Hread. destruct Hread as (_ & Hdom & Hall). simpl in *.
  exists r, d. split_and!; try done. by rewrite Hdom, dom_delete_L.
Qed.

(** ** New keys *)

(** The entry of the row that [add_line] has made when it returns. *)
Lemma add_line_ok_entry (key : string) (w w' : DictWidget) (f : Field)
    (ks : key_schema) :
  field w = Some f → keys f !! key = Some ks →
  add_line key w = (Ok tt, w') →
  ∃ c e, dict_entries_getitem (type_ ks) = Ok c ∧
         new_entry c key (keys f) = Ok e ∧ added key e w w'.
Proof.
  intros Hf Hks Hrun. pose proof (add_line_spec key w) as Hs.
  rewrite Hf, Hks in Hs.
  destruct (dict_entries_getitem (type_ ks)) as [c|x] eqn:Hc; [|congruence].
  destruct (new_entry c key (keys f)) as [e|x] eqn:He; [|congruence].
  exists c, e. split; [done|]. split; [done|].
  destruct (gtk_alignment (attrs_align w)) as [[]|x];
    [|destruct Hs as (w1 & Hx & _); congruence].
  destruct (schema_string ks) as [s|x]; destruct Hs as (w1 & Hx & Hadd);
    [|congruence].
  by replace w' with w1 by congruence.
Qed.

(** Whatever it does, [add_line] leaves the search entry, the add button
    and the pending focus alone. *)
Lemma add_line_frame (key : string) (w : DictWidget) :
  idle_focus (add_line key w).2 = idle_focus w ∧
  wid_text (add_line key w).2 = wid_text w ∧
  but_add (add_line key w).2 = but_add w.
Proof.
  unfold add_line, field_keys, getitem, lift, new_object, table_attach, get,
    modify, raise, mbind, M_bind, bind, ret. simpl.
  destruct (field w) as [f|]; simpl; [|done].
  destruct (keys f !! key) as [ks|]; simpl; [|done].
  destruct (dict_entries_getitem (type_ ks)) as [c|x]; simpl; [|done].
  destruct (new_entry c key (keys f)) as [e|x]; simpl; [|done].
  destruct (gtk_alignment (attrs_align w)) as [[]|x]; simpl; [|done].
  by destruct (schema_string ks) as [s|x].
Qed.

Lemma add_new_keys_loop_ok (names : list string) (focus : bool) (w w' : DictWidget) :
  add_new_keys_loop names focus w = (Ok tt, w') →
  dom (fields w') = dom (fields w) ∪ list_to_set names ∧
  (∀ k, k ∈ dom (fields w) →
     fields w' !! k = fields w !! k ∧ rows w' !! k = rows w !! k) ∧
  idle_focus w' =
    idle_focus w ++
    (if focus then [] else take 1 (filter (λ k, k ∉ dom (fields w)) names)) ∧
  same_view w w'.
Proof.
  revert focus w. induction names as [|key rest IH]; intros focus w; simpl.
  - intros [= <-]. split_and!.
    + by rewrite union_empty_r_L.
    + done.
    + destruct focus; by rewrite app_nil_r.
    + apply same_view_refl.
  - rewrite bind_run. unfold get at 1.
    destruct (fields w !! key) as [e0|] eqn:Hkey.
    + intros (Hdom & Hkept & Hfocus & Hview)%IH.
      assert (key ∈ dom (fields w)) as Hin by (apply elem_of_dom; eauto).
      split_and!; [|done| |done].
      * rewrite Hdom. apply set_eq. intros k.
        rewrite !elem_of_union, elem_of_singleton. split; [tauto|].
        intros [?|[->|?]]; tauto.
      * rewrite Hfocus. destruct focus; [done|].
        rewrite filter_cons_False; [done|]. by intros Hn.
    + assert (key ∉ dom (fields w)) as Hnin by (by apply not_elem_of_dom).
      rewrite bind_run.
      pose proof (add_line_frame key w) as (Hidle & _).
      destruct (add_line_cases key w)
        as [[x Hx]|[(x & e & w1 & Hx & _)|(e & w1 & Hok & Hadd)]];
        rewrite ?Hx, ?Hok in *; [done|done|]. simpl in Hidle.
      destruct Hadd as (Hf1 & _ & Hr1 & _ & Hv1).
      assert (∀ k, k ∈ dom (fields w) →
                fields w1 !! k = fields w !! k ∧ rows w1 !! k = rows w !! k) as Hkept1.
      { intros k Hk. assert (k ≠ key) as Hne by (intros ->; done).
        by rewrite Hf1, Hr1, !lookup_insert_ne. }
      assert (∀ w1' : DictWidget,
                fields w1' = fields w1 → rows w1' = rows w1 → same_view w1 w1' →
                add_new_keys_loop rest true w1' = (Ok tt, w') →
                dom (fields w') = dom (fields w) ∪ ({[key]} ∪ list_to_set rest) ∧
                (∀ k, k ∈ dom (fields w) →
                   fields w' !! k = fields w !! k ∧ rows w' !! k = rows w !! k) ∧
                idle_focus w' = idle_focus w1' ∧ same_view w w') as Hrest.
      { intros w1' Hf1' Hr1' Hv1' (Hdom & Hkept & Hfocus & Hview)%IH.
        split_and!.
        - rewrite Hdom, Hf1', Hf1, dom_insert_L. apply set_eq. intros k.
          rewrite !elem_of_union. tauto.
        - intros k Hk. destruct (Hkept1 k Hk) as [<- <-]. rewrite <- Hf1', <- Hr1'.
          apply Hkept. rewrite Hf1', Hf1, dom_insert_L. by apply elem_of_union_r.
        - by rewrite Hfocus, app_nil_r.
        - eapply same_view_trans; [done|]. by eapply same_view_trans. }
      destruct focus; simpl.
      * intros (Hdom & Hkept & Hfocus & Hview)%(Hrest w1 eq_refl eq_refl (same_view_refl _)).
        split_and!; [done | done | | done]. by rewrite Hfocus, Hidle, app_nil_r.
      * rewrite bind_run. unfold get at 1. rewrite bind_run. unfold getitem.
        rewrite Hf1, lookup_insert_eq. unfold ret at 1. rewrite bind_run.
        unfold modify at 1.
        intros (Hdom & Hkept & Hfocus & Hview)%
          (Hrest (with_idle_focus (idle_focus w1 ++ [key]) w1) eq_refl eq_refl
             (same_view_refl _)).
        split_and!; [done | done | | done].
        rewrite Hfocus. simpl. rewrite Hidle.
        by rewrite filter_cons_True.
Qed.

(** X14: when [add_new_keys] returns, the definitions the server has sent
    are in the schema of the field, every name it has sent has a row, the
    rows that were there are kept as they were, and the focus is asked for
    once at most: for the first of the names that had no row. *)
Theorem add_new_keys_rows_and_focus (ids : list Z) (w w' : DictWidget) :
  add_new_keys ids w = (Ok tt, w') →
  let names := (server_keys_by_id ids).*1 in
  (∃ f, field w = Some f ∧
        field w' = Some {| keys := foldl (λ ks '(n, d), <[n := d]> ks) (keys f)
                                         (server_keys_by_id ids) |}) ∧
  dom (fields w') = dom (fields w) ∪ list_to_set names ∧
  (∀ k, k ∈ dom (fields w) →
     fields w' !! k = fields w !! k ∧ rows w' !! k = rows w !! k) ∧
  idle_focus w' = idle_focus w ++ take 1 (filter (λ k, k ∉ dom (fields w)) names).
Proof.
  intros Hrun names. unfold add_new_keys in Hrun.
  apply bind_ok in Hrun as (new_keys & w1 & Hfield & Hrun).
  unfold field_add_new_keys in Hfield. rewrite bind_run in Hfield.
  unfold get at 1 in Hfield. destruct (field w) as [f|] eqn:Hf; [|done].
  rewrite bind_run in Hfield. unfold modify at 1, ret in Hfield.
  injection Hfield as <- <-.
  apply bind_ok in Hrun as ([] & w1 & Hsend & Hrun).
  unfold send_modified, ret in Hsend. injection Hsend as <-.
  apply add_new_keys_loop_ok in Hrun as (Hdom & Hkept & Hfocus & Hview).
  split_and!; [|done|done|done].
  exists f. split; [done|]. by destruct Hview as [-> _].
Qed.

(** ** The read-only state *)

Lemma readonly_set_state (readonly : bool) (w : DictWidget) :
  ∃ w', _readonly_set readonly w = (Ok tt, w') ∧
    _readonly w' = readonly ∧
    attrs_create w' = attrs_create w ∧ attrs_delete w' = attrs_delete w ∧
    fields w' = entry_set_readonly readonly <$> fields w ∧
    table w' = table w ∧
    sensitive (wid_text w') = negb readonly ∧
    editable (wid_text w') = negb readonly.
Proof. eexists. split; [reflexivity|]. simpl. by split_and!. Qed.

Lemma entry_set_readonly_ok (readonly : bool) (e : entry) :
  entry_readonly readonly (entry_set_readonly readonly e).
Proof.
  unfold entry_readonly, entry_set_readonly.
  destruct (cls e) eqn:Hc; simpl; by rewrite Hc.
Qed.

Lemma display_entry_readonly (value : gmap string pyval) (key : string) (val : pyval)
    (w w' : DictWidget) :
  display_entry value key val w = (Ok tt, w') →
  ∃ e, fields w' = <[key := e]> (fields w) ∧ entry_readonly (_readonly w) e ∧
       same_view w w'.
Proof.
  unfold display_entry, field_keys, getitem, lift, get, modify, raise,
    mbind, M_bind, bind, ret. simpl.
  destruct (fields w !! key) as [e0|]; simpl; [|done].
  destruct (entry_set_value _ val e0) as [e1|x]; simpl; [|done].
  destruct (field w) as [f|]; simpl; [|done].
  destruct (keys f !! key) as [ks|]; simpl; [|done].
  intros [= <-]. eexists. split_and!.
  - simpl. by rewrite !insert_insert_eq.
  - pose proof (entry_set_readonly_ok (_readonly w) e1) as Hro.
    unfold entry_readonly in *. simpl.
    by destruct (cls (entry_set_readonly (_readonly w) e1)).
  - by repeat split.
Qed.

Lemma display_item_readonly (value : gmap string pyval) (item : string * pyval)
    (w w' : DictWidget) (f : Field) :
  field w = Some f →
  (∀ k e, fields w !! k = Some e → entry_readonly (_readonly w) e) →
  display_item value item w = (Ok tt, w') →
  same_view w w' ∧
  (∀ k e, fields w' !! k = Some e → entry_readonly (_readonly w) e).
Proof.
  intros Hf Hall. destruct item as [key val].
  rewrite (display_item_run value key val w f Hf).
  destruct (keys f !! key) as [ks|]; [|by intros [= <-]; split; [apply same_view_refl|]].
  assert (∀ w1, same_view w w1 →
            (∀ k, k ≠ key → fields w1 !! k = fields w !! k) →
            display_entry value key val w1 = (Ok tt, w') →
            same_view w w' ∧
            (∀ k e, fields w' !! k = Some e → entry_readonly (_readonly w) e)) as Hend.
  { intros w1 Hv1 Hother (e & Hf' & He & Hv')%display_entry_readonly.
    split; [by eapply same_view_trans|]. intros k e'. rewrite Hf'.
    destruct (decide (k = key)) as [->|Hne].
    - rewrite lookup_insert_eq. intros [= <-].
      destruct Hv1 as (_ & _ & _ & _ & <- & _). done.
    - rewrite lookup_insert_ne by done. rewrite Hother by done. apply Hall. }
  destruct (fields w !! key) as [e0|] eqn:He0.
  - apply Hend; [apply same_view_refl | done].
  - destruct (add_line_cases key w)
      as [[x ->]|[(x & e & w1 & -> & _)|(e & w1 & -> & Hadd)]]; [done|done|].
    destruct Hadd as (Hf1 & _ & _ & _ & Hv1).
    apply Hend; [done|]. intros k Hne. by rewrite Hf1, lookup_insert_ne.
Qed.

Lemma removed_lookup (l : list string) (w w' : DictWidget) (k : string) (e : entry) :
  removed l w w' → fields w' !! k = Some e → fields w !! k = Some e.
Proof. intros (Hf & _) He. rewrite Hf in He. by case_decide. Qed.

(** X15: when [display] returns on a widget with a field, the read-only
    state of the widget is the one its parent class computes for the
    record, every entry is in this state, every remove button is sensitive
    exactly when the widget is not read-only and the view allows deletion,
    and the add button exactly when it is not read-only and the view allows
    creation. *)
Theorem display_applies_readonly (w w' : DictWidget) (f : Field) :
  field w = Some f → display w = (Ok tt, w') →
  let readonly := states_readonly (id <$> record w) in
  _readonly w' = readonly ∧
  (∀ k e, fields w' !! k = Some e → entry_readonly readonly e) ∧
  (∀ k b, buttons w' !! k = Some b →
     but_sensitive b = negb readonly && attrs_delete w) ∧
  but_sensitive (but_add w') = negb readonly && attrs_create w.
Proof.
  intros Hf Hrun readonly.
  destruct (display_ok w w' f Hf Hrun)
    as (w0 & w1 & w2 & w3 & r & Hro & Hr & Hreset & Hfirst & Hlast & Hbut).
  destruct (readonly_set_state readonly w)
    as (w0' & Hro' & Hro0 & Hc0 & Hd0 & Hf0 & _).
  assert (w0' = w0) as -> by (subst readonly; congruence).
  set (good := λ w : DictWidget,
         _readonly w = readonly ∧ attrs_create w = attrs_create w0 ∧
         attrs_delete w = attrs_delete w0 ∧
         ∀ k e, fields w !! k = Some e → entry_readonly readonly e).
  assert (good w0) as Hg0.
  { split_and!; [done..|]. intros k e. rewrite Hf0, lookup_fmap.
    destruct (fields w !! k) as [e0|]; [|done]. intros [= <-].
    apply entry_set_readonly_ok. }
  assert (∀ l wa wb, removed l wa wb → good wa → good wb) as Hremoved.
  { intros l wa wb Hrem (Ha & Hb & Hc & Hall).
    pose proof Hrem as (_ & _ & _ & _ & _ & _ & Hc' & Hd' & Hro'' & _).
    split_and!; [congruence..|]. intros k e He. apply (Hall k).
    by eapply removed_lookup. }
  assert (good w1) as Hg1.
  { destruct Hreset as [[_ ->]|(_ & wr & Hloop%remove_loop_ok & ->)]; [done|].
    apply (Hremoved _ _ _ Hloop) in Hg0. exact Hg0. }
  set (wk := with_field (Some {| keys := schema_after (rvalue r) (keys f) |}) w1) in *.
  assert (good w2) as Hg2.
  { revert Hfirst.
    apply (for_each_ok (λ _ wc, field wc = field wk ∧ good wc));
      [by split|].
    intros done x rest wa wb _ [Hfa (Ha & Hb & Hc & Hall)] Hx.
    rewrite <- Ha in Hall.
    destruct (display_item_readonly _ _ _ _ _ Hfa Hall Hx) as [Hv Hall'].
    pose proof Hv as (Hfb & _ & Hcb & Hdb & Hrb & _).
    split; [congruence|]. split_and!; [congruence..|]. by rewrite <- Ha. }
  assert (good w3) as (Hro3 & Hc3 & Hd3 & Hall3).
  { apply remove_loop_ok in Hlast. by apply (Hremoved _ _ _ Hlast). }
  rewrite set_button_sensitive_run in Hbut. injection Hbut as <-. simpl.
  split_and!; [done | done | | congruence].
  intros k b. rewrite lookup_fmap.
  destruct (buttons w3 !! k); [|done]. intros [= <-]. simpl. congruence.
Qed.

(** X16: on a widget without a field, [display] returns after the call of
    the parent class: the entries are put in the read-only state computed,
    and so is the search entry; no row is added or removed, the table is
    left alone and the id of the record displayed is not updated. *)
Theorem display_without_field (w : DictWidget) :
  field w = None →
  ∃ w', display w = (Ok tt, w') ∧
        fields w' = entry_set_readonly (states_readonly (id <$> record w)) <$> fields w ∧
        dom (buttons w') = dom (buttons w) ∧
        rows w' = rows w ∧ table w' = table w ∧
        record w' = record w ∧ _record_id w' = _record_id w ∧
        sensitive (wid_text w') = negb (states_readonly (id <$> record w)) ∧
        editable (wid_text w') = negb (states_readonly (id <$> record w)).
Proof.
  intros Hf.
  destruct (readonly_set_run (states_readonly (id <$> record w)) w)
    as (w0 & Hro & Hf0 & Hb0 & Hr0 & Hn0 & Hfd0 & Hrc0 & Hid0).
  destruct (readonly_set_state (states_readonly (id <$> record w)) w)
    as (w0' & Hro' & _ & _ & _ & _ & Ht0 & Hs0 & He0).
  assert (w0' = w0) as -> by congruence.
  exists w0. split; [|by split_and!].
  unfold display. rewrite bind_run.
  assert (super_display w = (Ok tt, w0)) as ->.
  { unfold super_display. rewrite bind_run. by unfold get at 1. }
  rewrite bind_run. unfold get at 1. by rewrite Hfd0, Hf.
Qed.

(** ** A number in a float entry without digits *)

Lemma display_entry_set_value_raises (value : gmap string pyval) (key : string)
    (val : pyval) (w : DictWidget) (e : entry) (x : exn) :
  fields w !! key = Some e →
  entry_set_value (bool_decide (is_Some (record w))) val e = Raise x →
  display_entry value key val w = (Raise x, w).
Proof.
  intros He Hset.
  unfold display_entry, field_keys, getitem, lift, get, modify, raise,
    mbind, M_bind, bind, ret. simpl. rewrite He. simpl. by rewrite Hset.
Qed.

Lemma float_set_value_raises (has_record : bool) (v : pyval) (e : entry) :
  cls e = DictFloatEntry ∨ cls e = DictNumericEntry →
  entry_digits has_record (definition e) = None →
  v ≠ VNone →
  entry_set_value has_record v e = Raise TypeError.
Proof.
  intros Hcls Hdigits Hv. unfold entry_set_value.
  destruct Hcls as [-> | ->]; rewrite Hdigits; by destruct (decide (v = VNone)).
Qed.

(** X17: [display] cannot return when the value holds a number for a key
    of type [float] or [numeric] that has no row yet and whose definition
    gives no digits: the entry made for the key raises [TypeError] when the
    number is set, [digits] being [None] there. *)
Theorem display_float_without_digits (w : DictWidget) (f : Field) (r : Record_)
    (key : string) (ks : key_schema) (v : pyval) :
  field w = Some f → record w = Some r →
  schema_after (rvalue r) (keys f) !! key = Some ks →
  type_ ks = "float" ∨ type_ ks = "numeric" →
  entry_digits true ks = None →
  rvalue r !! key = Some v → v ≠ VNone →
  fields w !! key = None →
  ∀ w', display w ≠ (Ok tt, w').
Proof.
  intros Hf Hr Hks Htype Hdigits Hv Hnone Hrow w' Hrun.
  destruct (display_ok w w' f Hf Hrun)
    as (w0 & w1 & w2 & w3 & r' & Hro & Hr' & Hreset & Hfirst & _).
  assert (r' = r) as -> by congruence.
  destruct (readonly_set_run (states_readonly (id <$> record w)) w)
    as (w0' & Hro' & Hf0 & _ & _ & _ & _ & Hrc0 & _).
  assert (w0' = w0) as -> by congruence.
  assert (fields w0 !! key = None) as Hrow0 by (by rewrite Hf0, lookup_fmap, Hrow).
  assert (fields w1 !! key = None ∧ record w1 = Some r) as [Hrow1 Hr1].
  { destruct Hreset as [[_ ->]|(_ & wr & Hloop%remove_loop_ok & ->)].
    - split; congruence.
    - destruct Hloop as (Hfr & _ & _ & _ & _ & Hrr & _). simpl. split; [|congruence].
      rewrite Hfr. by case_decide. }
  set (K := schema_after (rvalue r) (keys f)) in *.
  set (wk := with_field (Some {| keys := K |}) w1) in *.
  assert (key ∈ (sorted_items (rvalue r)).*1) as Hin.
  { apply sorted_items_keys. apply elem_of_dom. eauto. }
  cut ((key ∉ (sorted_items (rvalue r)).*1) ∧
       shown (rvalue r) K (sorted_items (rvalue r)).*1 wk w2); [by intros [? _]|].
  clear Hin. revert Hfirst.
  apply (for_each_ok (λ done wc,
           (key ∉ done.*1) ∧ shown (rvalue r) K done.*1 wk wc)).
  { split; [apply not_elem_of_nil | apply shown_nil]. }
  intros done [k val] rest wa wb Hl [Hnew Hshown] Hx.
  pose proof (sorted_items_NoDup (rvalue r)) as Hnd.
  rewrite Hl, fmap_app in Hnd. apply NoDup_app in Hnd as (_ & Hnd & _).
  assert (k ∉ done.*1) as Hk by (intros Hin; apply (Hnd k Hin); left).
  assert (shown (rvalue r) K (done.*1 ++ [k]) wk wb) as Hshown'.
  { by eapply (shown_step (rvalue r) {| keys := K |}). }
  rewrite fmap_app. simpl. split; [|done].
  intros [?|Heq%list_elem_of_singleton]%elem_of_app; [done|]. subst k.
  clear Hshown'.
  destruct Hshown as (Hview & _ & Hdom & _).
  pose proof Hview as (Hfa & Hra & _).
  assert (fields wa !! key = None) as Hrowa.
  { apply not_elem_of_dom. rewrite Hdom.
    rewrite elem_of_union, elem_of_intersection, elem_of_list_to_set.
    intros [Hd%elem_of_dom|[? _]]; [|done].
    change (fields wk) with (fields w1) in Hd. rewrite Hrow1 in Hd. by destruct Hd. }
  assert (val = v) as ->.
  { assert ((key, val) ∈ sorted_items (rvalue r)) as Hitem
      by (rewrite Hl; apply elem_of_app; right; left).
    rewrite sorted_items_perm in Hitem. apply elem_of_map_to_list in Hitem.
    congruence. }
  rewrite (display_item_run _ _ _ _ {| keys := K |}) in Hx by done.
  simpl in Hx. rewrite Hks, Hrowa in Hx.
  destruct (add_line key wa) as [[[]|x] w1'] eqn:Hadd; [|done].
  destruct (add_line_ok_entry key wa w1' {| keys := K |} ks Hfa Hks Hadd)
    as (c & e & Hc & He & Hf1' & _ & _ & _ & Hv1').
  assert (c = DictFloatEntry ∨ c = DictNumericEntry) as Hcls.
  { destruct Htype as [Ht|Ht]; rewrite Ht in Hc; injection Hc as <-; eauto. }
  apply new_entry_ok in He as (Hce & _ & d & Hd & Hde). simpl in Hd.
  assert (d = ks) as -> by congruence.
  apply create_widget_definition in Hde as (_ & _ & _ & _ & _ & Hsame).
  rewrite (display_entry_set_value_raises _ _ _ _ e TypeError) in Hx; [done| |].
  - rewrite Hf1'. apply lookup_insert_eq.
  - apply float_set_value_raises; [by rewrite Hce | | done].
    destruct Hv1' as (_ & -> & _). rewrite Hra. simpl.
    rewrite Hsame by (destruct Hcls; congruence).
    rewrite bool_decide_true by eauto. done.
Qed.

(** ** The values shown *)

Lemma display_entry_value (value : gmap string pyval) (key : string) (val : pyval)
    (w w' : DictWidget) :
  display_entry value key val w = (Ok tt, w') →
  ∃ e0 e1 e',
    fields w !! key = Some e0 ∧
    entry_set_value (bool_decide (is_Some (record w))) val e0 = Ok e1 ∧
    fields w' = <[key := e']> (fields w) ∧
    cls e' = cls e1 ∧ definition e' = definition e1 ∧
    _selection e' = _selection e1 ∧ entry_get_value e' = entry_get_value e1 ∧
    same_view w w'.
Proof.
  unfold display_entry, field_keys, getitem, lift, get, modify, raise,
    mbind, M_bind, bind, ret. simpl.
  destruct (fields w !! key) as [e0|]; simpl; [|done].
  destruct (entry_set_value _ val e0) as [e1|x] eqn:Hset; simpl; [|done].
  destruct (field w) as [f|]; simpl; [|done].
  destruct (keys f !! key) as [ks|]; simpl; [|done].
  intros [= <-]. eexists e0, e1, _. split_and!; [done | done | | | | | | ].
  - simpl. by rewrite !insert_insert_eq.
  - simpl. by destruct (entry_set_readonly_style (_readonly w) e1) as (_ & -> & _).
  - simpl. by destruct (entry_set_readonly_style (_readonly w) e1) as (_ & _ & ->).
  - unfold entry_set_readonly. simpl. by destruct (cls e1).
  - unfold entry_get_value, entry_set_readonly. simpl.
    destruct (cls e1) eqn:Hc; simpl; by rewrite Hc.
  - by repeat split.
Qed.

Lemma display_item_value (value : gmap string pyval) (key : string) (val : pyval)
    (w w' : DictWidget) (f : Field) :
  field w = Some f →
  display_item value (key, val) w = (Ok tt, w') →
  same_view w w' ∧
  (∀ k, k ≠ key → fields w' !! k = fields w !! k) ∧
  (is_Some (keys f !! key) →
   ∃ e0 e1 e',
     entry_set_value (bool_decide (is_Some (record w))) val e0 = Ok e1 ∧
     fields w' !! key = Some e' ∧
     cls e' = cls e1 ∧ definition e' = definition e1 ∧
     _selection e' = _selection e1 ∧ entry_get_value e' = entry_get_value e1).
Proof.
  intros Hf. rewrite (display_item_run value key val w f Hf).
  destruct (keys f !! key) as [ks|].
  - assert (∀ w1, same_view w w1 →
              (∀ k, k ≠ key → fields w1 !! k = fields w !! k) →
              display_entry value key val w1 = (Ok tt, w') →
              same_view w w' ∧
              (∀ k, k ≠ key → fields w' !! k = fields w !! k) ∧
              (is_Some (Some ks) →
               ∃ e0 e1 e',
                 entry_set_value (bool_decide (is_Some (record w))) val e0 = Ok e1 ∧
                 fields w' !! key = Some e' ∧
                 cls e' = cls e1 ∧ definition e' = definition e1 ∧
                 _selection e' = _selection e1 ∧
                 entry_get_value e' = entry_get_value e1)) as Hend.
    { intros w1 Hv1 Hother
        (e0 & e1 & e' & He0 & Hset & Hf' & Hcls & Hdef & Hsel & Hget & Hv')%display_entry_value.
      split_and!.
      - by eapply same_view_trans.
      - intros k Hne. rewrite Hf', lookup_insert_ne by done. by apply Hother.
      - intros _. exists e0, e1, e'.
        split_and!; [|by rewrite Hf', lookup_insert_eq|done|done|done|done].
        destruct Hv1 as (_ & Hr1 & _). by rewrite <- Hr1. }
    destruct (fields w !! key) as [e0|] eqn:He0.
    + apply Hend; [apply same_view_refl | done].
    + destruct (add_line_cases key w)
        as [[x ->]|[(x & e & w1 & -> & _)|(e & w1 & -> & Hadd)]]; [done|done|].
      destruct Hadd as (Hf1 & _ & _ & _ & Hv1).
      apply Hend; [done|]. intros k Hne. by rewrite Hf1, lookup_insert_ne.
  - intros [= <-]. split_and!; [apply same_view_refl | done |].
    intros [? ?]. done.
Qed.

(** X18: [display] shows the values.  When it returns on a widget with a
    field, every key of the value that is in the schema has an entry that
    reads as an entry of its class, its definition and its selection reads
    once the value of the key has been set on it. *)
Theorem display_shows_values (w w' : DictWidget) (f : Field) :
  field w = Some f → display w = (Ok tt, w') →
  ∃ r, record w = Some r ∧
       ∀ key val,
         rvalue r !! key = Some val →
         key ∈ dom (schema_after (rvalue r) (keys f)) →
         ∃ e e0 e1,
           fields w' !! key = Some e ∧
           entry_set_value true val e0 = Ok e1 ∧
           cls e = cls e1 ∧ definition e = definition e1 ∧
           _selection e = _selection e1 ∧ entry_get_value e = entry_get_value e1.
Proof.
  intros Hf Hrun.
  destruct (display_ok w w' f Hf Hrun)
    as (w0 & w1 & w2 & w3 & r & Hro & Hr & Hreset & Hfirst & Hlast & Hbut).
  exists r. split; [done|]. intros key val Hval Hkey.
  destruct (readonly_set_run (states_readonly (id <$> record w)) w)
    as (w0' & Hro' & _ & _ & _ & _ & _ & Hrc0 & _).
  assert (w0' = w0) as -> by congruence.
  assert (record w1 = Some r) as Hr1.
  { destruct Hreset as [[_ ->]|(_ & wr & Hloop%remove_loop_ok & ->)]; [congruence|].
    destruct Hloop as (_ & _ & _ & _ & _ & Hrr & _). simpl. congruence. }
  set (K := schema_after (rvalue r) (keys f)) in *.
  set (wk := with_field (Some {| keys := K |}) w1) in *.
  assert (∃ e e0 e1,
            fields w2 !! key = Some e ∧
            entry_set_value true val e0 = Ok e1 ∧
            cls e = cls e1 ∧ definition e = definition e1 ∧
            _selection e = _selection e1 ∧ entry_get_value e = entry_get_value e1)
    as (e & e0 & e1 & He & Hset & Hcls & Hdef & Hsel & Hget).
  { cut (same_view wk w2 ∧
         ∀ k v, (k, v) ∈ sorted_items (rvalue r) → k ∈ dom K →
           ∃ e e0 e1,
             fields w2 !! k = Some e ∧
             entry_set_value true v e0 = Ok e1 ∧
             cls e = cls e1 ∧ definition e = definition e1 ∧
             _selection e = _selection e1 ∧ entry_get_value e = entry_get_value e1).
    { intros [_ Hall]. apply Hall; [|done].
      rewrite sorted_items_perm. by apply elem_of_map_to_list. }
    revert Hfirst.
    apply (for_each_ok (λ done wc,
             same_view wk wc ∧
             ∀ k v, (k, v) ∈ done → k ∈ dom K →
               ∃ e e0 e1,
                 fields wc !! k = Some e ∧
                 entry_set_value true v e0 = Ok e1 ∧
                 cls e = cls e1 ∧ definition e = definition e1 ∧
                 _selection e = _selection e1 ∧ entry_get_value e = entry_get_value e1)).
    { split; [apply same_view_refl|]. intros k v Hin. by apply elem_of_nil in Hin. }
    intros done [k v] rest wa wb Hl [Hva Hdone] Hx.
    pose proof Hva as (Hfa & Hra & _).
    destruct (display_item_value _ _ _ _ _ {| keys := K |} Hfa Hx)
      as (Hvb & Hother & Hthis).
    split; [by eapply same_view_trans|].
    pose proof (sorted_items_NoDup (rvalue r)) as Hnd.
    rewrite Hl, fmap_app in Hnd. apply NoDup_app in Hnd as (_ & Hnd & _).
    intros k' v' [Hin|Hin%list_elem_of_singleton]%elem_of_app Hk'.
    - assert (k' ≠ k) as Hne.
      { intros ->. apply (Hnd k); [|left].
        apply list_elem_of_fmap. by exists (k, v'). }
      rewrite (Hother k' Hne). by apply Hdone.
    - injection Hin as -> ->. simpl in Hthis.
      destruct Hthis as (e0 & e1 & e' & Hset & He' & Hcls & Hdef & Hsel & Hget);
        [by apply elem_of_dom|].
      exists e', e0, e1. split_and!; try done.
      rewrite Hra in Hset. change (record wk) with (record w1) in Hset.
      rewrite Hr1 in Hset. by rewrite bool_decide_true in Hset by eauto. }
  exists e, e0, e1. split_and!; try done.
  apply remove_loop_ok in Hlast as (Hf3 & _).
  rewrite set_button_sensitive_run in Hbut. injection Hbut as <-. simpl.
  rewrite Hf3. case_decide as Hin; [|done].
  apply elem_of_elements, elem_of_difference in Hin as [_ Hin].
  exfalso. apply Hin. apply elem_of_dom. eauto.
Qed.


(** ** The objects of the table *)

(** X19: the table holds the objects of the rows and no other.  When the
    three maps have the same keys and the objects attached to the table are
    those of the rows, each in one row, this is still so after [add_line] on
    a key without a row, [_sig_remove], [display] and [add_new_keys],
    whether they return or raise; and it is so in a new widget. *)
Theorem table_ok_preserved (w : DictWidget) :
  same_keys w → table_ok w →
  (∀ key, fields w !! key = None → table_ok (add_line key w).2) ∧
  (∀ key modified, table_ok (_sig_remove key modified w).2) ∧
  table_ok (display w).2 ∧
  (∀ ids, table_ok (add_new_keys ids w).2) ∧
  (∀ attrs_create attrs_delete attrs_align,
     table_ok (new_widget attrs_create attrs_delete attrs_align)).
Proof.
  intros Hs%same_keys_rows_have_entries Hw. split_and!.
  - intros key Hkey. apply add_line_table_ok; [done|].
    by apply rows_have_entries_no_row.
  - intros key modified. by apply sig_remove_table_ok.
  - by apply display_rows_and_table.
  - intros ids. by apply add_new_keys_rows_and_table.
  - intros c d a. unfold table_ok, new_widget. simpl. split_and!.
    + intros o. split; [by intros ?%elem_of_nil|]. by intros (k & r & Hk & _).
    + by intros k r o Hk.
    + by intros k1 k2 r1 r2 o Hk1.
Qed.

(** ** Rows that are missing, rows that cannot be made *)

(** X20: on a widget whose three maps have the same keys, [_sig_remove]
    needs a row: for a key without a row it raises [KeyError] and leaves
    the widget as it was, and for a key with a row the removal that [display]
    asks for returns, and removes the key from the three maps. *)
Theorem sig_remove_needs_row (key : string) (w : DictWidget) :
  same_keys w →
  (fields w !! key = None →
   ∀ modified, _sig_remove key modified w = (Raise (KeyError key), w)) ∧
  (is_Some (fields w !! key) →
   ∃ w', _sig_remove key false w = (Ok tt, w') ∧ removed [key] w w').
Proof.
  intros Hw. split.
  - intros Hkey modified. destruct (sig_remove_run key modified w) as [t ->].
    by rewrite Hkey.
  - intros Hkey%elem_of_dom.
    destruct (sig_remove_total key w Hw Hkey) as [w' Hrun].
    exists w'. split; [done|]. by apply sig_remove_ok.
Qed.

(** X21: what [add_line] leaves.  When it returns, the key has a definition
    in the schema, and an entry of its name that [create_widget] has made
    from this definition, and the three maps have the key, with three new
    objects in its row.  When it raises before the entry is made, the widget
    is as it was, and the error is [AttributeError] without a field,
    [KeyError] of the key when the schema does not have it, of its type when
    there is no entry class for it, and of [selection] when a selection key
    has no selection.  When it raises after, the entry is stored in
    [fields], and the key has no new row and no new button: the error is
    the one of the conversion of the alignment attributes to floats, or
    [KeyError] of [string] for a definition without a label. *)
Theorem add_line_outcomes (key : string) (w : DictWidget) :
  match add_line key w with
  | (Ok _, w') =>
      ∃ f ks e, field w = Some f ∧ keys f !! key = Some ks ∧
                name e = key ∧
                create_widget (cls e) ks = Ok (widget e, _selection e, definition e) ∧
                added key e w w'
  | (Raise x, w') =>
      (w' = w ∧
       (field w = None ∧ x = AttributeError ∨
        ∃ f, field w = Some f ∧
             (keys f !! key = None ∧ x = KeyError key ∨
              ∃ ks, keys f !! key = Some ks ∧
                    ((type_ ks ∉ DICT_ENTRIES.*1) ∧ x = KeyError (type_ ks) ∨
                     type_ ks = "selection" ∧ selection ks = None ∧
                     x = KeyError "selection")))) ∨
      (∃ f ks e, field w = Some f ∧ keys f !! key = Some ks ∧
                 name e = key ∧ stored key e w w' ∧
                 (gtk_alignment (attrs_align w) = Raise x ∨
                  gtk_alignment (attrs_align w) = Ok tt ∧ string_ ks = None ∧
                  x = KeyError "string"))
  end.
Proof.
  pose proof (add_line_spec key w) as Hs.
  destruct (field w) as [f|] eqn:Hf; [|rewrite Hs; left; split; [done | by left]].
  destruct (keys f !! key) as [ks|] eqn:Hks;
    [|rewrite Hs; left; split; [done|]; right; exists f; split; [done | by left]].
  destruct (dict_entries_getitem (type_ ks)) as [c|x] eqn:Hc.
  - destruct (new_entry c key (keys f)) as [e|x] eqn:He.
    + apply new_entry_ok in He as (Hcls & Hname & d & Hd & Hdef).
      assert (d = ks) as -> by congruence. rewrite <- Hcls in Hdef.
      destruct (gtk_alignment (attrs_align w)) as [[]|x] eqn:Halign.
      * unfold schema_string in Hs. destruct (string_ ks) as [s|] eqn:Hstring.
        -- destruct Hs as (w' & -> & Hadd). by exists f, ks, e.
        -- destruct Hs as (w' & -> & Hst). right. exists f, ks, e.
           split_and!; try done. by right.
      * destruct Hs as (w' & -> & Hst). right. exists f, ks, e.
        split_and!; try done. by left.
    + rewrite Hs. left. split; [done|]. right. exists f. split; [done|]. right.
      exists ks. split; [done|]. right.
      unfold new_entry in He. rewrite Hks in He.
      apply dict_entries_getitem_ok in Hc.
      destruct c; simpl in He; try done.
      destruct (selection ks); [done|]. injection He as <-.
      split_and!; [|done|done].
      unfold DICT_ENTRIES in Hc.
      repeat (apply elem_of_cons in Hc as [Heq|Hc]; [congruence|]).
      by apply elem_of_nil in Hc.
  - rewrite Hs. left. split; [done|]. right. exists f. split; [done|]. right.
    exists ks. split; [done|]. left.
    unfold dict_entries_getitem in Hc.
    destruct (list_to_map DICT_ENTRIES !! type_ ks) as [c|] eqn:Hl; [done|].
    injection Hc as <-. split; [|done].
    by apply (not_elem_of_list_to_map (M := gmap string)) in Hl.
Qed.

End Entries_and_widget.

(** ** The properties on the sample widgets *)

(** X8 on the entry of sizes holding the text [Sm]. *)
Lemma selection_get_value_result_witness :
  ∃ v, entry_get_value (size_entry "Sm") = Ok v ∧
       (v = VNone ∨
        (truthy v = true ∧ text (widget (size_entry "Sm")) ≠ "" ∧
         ∃ txt, (txt, v) ∈ _selection (size_entry "Sm") ∧
                str_lower (String.substring 0
                             (String.length (text (widget (size_entry "Sm")))) txt)
                = str_lower (text (widget (size_entry "Sm"))))).
Proof. apply selection_get_value_result. reflexivity. Defined.

(** X9 on the entry of sizes holding the text [Small], which is also the
    beginning of [Smaller], a later key of [_selection]. *)
Lemma selection_exact_match_witness :
  entry_get_value (size_entry "Small") = Ok (VStr "s").
Proof.
  apply (selection_exact_match (size_entry "Small") "Small" (VStr "s")).
  - reflexivity.
  - discriminate.
  - vm_compute. repeat constructor.
  - reflexivity.
  - reflexivity.
  - reflexivity.
  - intros txt' val' Hin _ _ Hlow. vm_compute in Hlow. subst txt'.
    assert (_selection (size_entry "Small") =
            [("", VNone); ("Large", VStr "l"); ("Small", VStr "s");
             ("Smaller", VStr "sm"); ("Unknown", VStr "")]) as Hsel by reflexivity.
    rewrite Hsel in Hin.
    repeat (apply elem_of_cons in Hin as [Heq|Hin]; [congruence|]).
    by apply elem_of_nil in Hin.
Defined.

(** X10 on a text entry: [None] is given back as the empty string. *)
Lemma entry_round_trip_witness :
  ∃ e', entry_set_value true VNone
          {| cls := DictEntry; name := "colour"; definition := colour_schema;
             widget := new_gtk_widget; _selection := [] |} = Ok e' ∧
        entry_get_value e' = Ok (VStr "").
Proof.
  eexists. split; [reflexivity|].
  exact (entry_round_trip true VNone
           {| cls := DictEntry; name := "colour"; definition := colour_schema;
              widget := new_gtk_widget; _selection := [] |} _ eq_refl).
Defined.

Lemma sample_remove_returns :
  _sig_remove "colour" true (display sample_widget).2
  = (Ok tt, (_sig_remove "colour" true (display sample_widget).2).2).
Proof. by vm_compute. Qed.

(** X13 on the sample widget once displayed, when the row of the colour is
    removed. *)
Lemma sig_remove_updates_record_witness :
  ∃ r d,
    record (display sample_widget).2 = Some r ∧
    record (_sig_remove "colour" true (display sample_widget).2).2
    = Some {| id := id r; rvalue := d |} ∧
    dom d = dom (fields (display sample_widget).2) ∖ {["colour"]}.
Proof.
  destruct (sig_remove_updates_record "colour" (display sample_widget).2
              (_sig_remove "colour" true (display sample_widget).2).2
              sample_remove_returns)
    as (r & d & Hr & Hr' & _ & _ & _ & Hdom & _).
  exists r, d. split_and!; assumption.
Defined.

Lemma catalog_add_returns :
  add_new_keys (H0 := catalog_host) [2; 1; 2; 7] sample_widget
  = (Ok tt, (add_new_keys (H0 := catalog_host) [2; 1; 2; 7] sample_widget).2).
Proof. by vm_compute. Qed.

(** X14 with the server that knows the size and the ratio: both get a row,
    and the focus is asked for the ratio, the first of them. *)
Lemma add_new_keys_rows_and_focus_witness :
  let w' := (add_new_keys (H0 := catalog_host) [2; 1; 2; 7] sample_widget).2 in
  dom (fields w') = {[ "ratio"; "size" ]} ∧ idle_focus w' = ["ratio"].
Proof.
  intros w'.
  destruct (add_new_keys_rows_and_focus (H0 := catalog_host) [2; 1; 2; 7]
              sample_widget w' catalog_add_returns)
    as (_ & Hdom & _ & Hfocus).
  split.
  - rewrite Hdom. by vm_compute.
  - rewrite Hfocus. by vm_compute.
Defined.

(** X15 on the sample widget, which is not read-only: its entries can be
    edited and its buttons are sensitive. *)
Lemma display_applies_readonly_witness :
  _readonly (display sample_widget).2 = false ∧
  (∀ k e, fields (display sample_widget).2 !! k = Some e → entry_readonly false e) ∧
  (∀ k b, buttons (display sample_widget).2 !! k = Some b → but_sensitive b = true) ∧
  but_sensitive (but_add (display sample_widget).2) = true.
Proof.
  exact (display_applies_readonly sample_widget (display sample_widget).2
           sample_field eq_refl sample_display_returns).
Defined.

(** X16 on a new widget. *)
Lemma display_without_field_witness :
  ∃ w', display (new_widget true true plain_alignment) = (Ok tt, w') ∧ rows w' = ∅ ∧
        _record_id w' = None.
Proof.
  destruct (display_without_field (new_widget true true plain_alignment) eq_refl)
    as (w' & Hrun & _ & _ & Hrows & _ & _ & Hid & _).
  exists w'. split_and!; assumption.
Defined.

(** X17 on the widget of the ratio, a float without digits whose value is
    2. *)
Lemma display_float_without_digits_witness :
  ¬ ∃ w', display ratio_widget = (Ok tt, w').
Proof.
  intros [w' Hrun]. revert w' Hrun.
  eapply (display_float_without_digits ratio_widget _ _ "ratio" ratio_schema).
  - reflexivity.
  - reflexivity.
  - by vm_compute.
  - by left.
  - reflexivity.
  - reflexivity.
  - discriminate.
  - reflexivity.
Defined.

Lemma sample_table_ok : table_ok sample_widget.
Proof.
  unfold table_ok. simpl. split_and!.
  - intros o. split; [by intros ?%elem_of_nil|]. by intros (k & r & Hk & _).
  - by intros k r o Hk.
  - by intros k1 k2 r1 r2 o Hk1.
Qed.

(** X19 on the sample widget. *)
Lemma table_ok_preserved_witness :
  table_ok (display sample_widget).2 ∧
  table_ok (add_line "colour" sample_widget).2.
Proof.
  destruct (table_ok_preserved sample_widget sample_same_keys sample_table_ok)
    as (Hadd & _ & Hdisplay & _).
  split; [exact Hdisplay | apply Hadd; reflexivity].
Defined.

(** X20 on the sample widget, which has no row yet. *)
Lemma sig_remove_needs_row_witness :
  _sig_remove "colour" true sample_widget = (Raise (KeyError "colour"), sample_widget).
Proof.
  destruct (sig_remove_needs_row "colour" sample_widget sample_same_keys)
    as [Hnone _].
  apply Hnone. reflexivity.
Defined.

(** X11 on the entry of sizes: [sm] is read back. *)
Lemma selection_round_trip_witness :
  ∃ e', entry_set_value true (VStr "sm") (size_entry "") = Ok e' ∧
        entry_get_value e' = Ok (VStr "sm").
Proof.
  eapply (selection_round_trip (size_entry "") new_gtk_widget size_schema
            [(VStr "l", "Large"); (VStr "s", "Small"); (VStr "sm", "Smaller");
             (VStr "", "Unknown")]).
  - reflexivity.
  - reflexivity.
  - reflexivity.
  - simpl. right. right. left.
  - reflexivity.
  - simpl. intros Hin.
    repeat (apply elem_of_cons in Hin as [Heq|Hin]; [discriminate Heq|]).
    by apply elem_of_nil in Hin.
  - intros v1 n1 v2 n2 H1 H2 Hlow. simpl in Hlow. subst n2.
    repeat (apply elem_of_cons in H1 as [H1|H1];
            [injection H1 as -> ->;
             repeat (apply elem_of_cons in H2 as [H2|H2]; [congruence|]);
             by apply elem_of_nil in H2|]).
    by apply elem_of_nil in H1.
  - reflexivity.
  - intros v' Hin Heq. simpl in Hin.
    repeat (apply elem_of_cons in Hin as [->|Hin];
            [first [reflexivity | vm_compute in Heq; by destruct Heq]|]).
    by apply elem_of_nil in Hin.
Defined.

(** X18 on the sample widget: the entry of the colour reads as a text
    entry on which [red] has been set. *)
Lemma display_shows_values_witness :
  ∃ e e0 e1,
    fields (display sample_widget).2 !! "colour" = Some e ∧
    entry_set_value true (VStr "red") e0 = Ok e1 ∧
    cls e = cls e1 ∧ definition e = definition e1 ∧
    _selection e = _selection e1 ∧ entry_get_value e = entry_get_value e1.
Proof.
  destruct (display_shows_values sample_widget (display sample_widget).2
              sample_field eq_refl sample_display_returns) as (r & Hr & Hall).
  injection Hr as <-. apply Hall; [reflexivity|]. by vm_compute.
Defined.

End DictionaryProperties.
